(** * Navigation-windowed collectors and WebSocket traffic fingerprinting

    A shallow embedding of the collection subsystem of js-reverse-mcp:

    - [IdGenerator]        : [createIdGenerator] (PageCollector.ts, WebSocketCollector.ts)
    - [PageCollector]      : the generic collector and its Network specialization
                             (PageCollector.ts)
    - [WebSocketCollector] : the WebSocket collector, with the object sharing
                             between its listeners and its per-page tables
    - [Traffic]            : the traffic fingerprint engine
                             ([analyzeWebSocketFramesV2] and its helpers)

    JavaScript objects that are mutated in place or compared by identity are
    references into explicit stores; arrays are lists; a [Map] whose iteration
    order matters is an association list in insertion order; a [WeakMap] keyed
    by pages is a [gmap] over page handles. *)

From Stdlib Require Import ZArith NArith List Lia String Ascii Floats.
From Stdlib Require Import Permutation Sorted HexString.
From stdpp Require Import gmap strings list.
From Equations Require Import Equations.

Open Scope Z_scope.

(** Object identity of a collected item, and the handle of a tracked page. *)
Definition Ref := nat.
Definition Page := nat.

(* ===================================================================== *)
(** * The stable ID generator *)
(* ===================================================================== *)

Module IdGenerator.

Definition MAX_SAFE_INTEGER : Z := 9007199254740991.

(** [createIdGenerator()] returns a closure over [let i = 1]; the closure's
    state is the value of [i]. *)
Definition createIdGenerator : Z := 1.

(** One call of the closure:
    [if (i === Number.MAX_SAFE_INTEGER) { i = 0; } return i++;]
    The result is the pair (returned value, new value of [i]). *)
Definition idGenerator (i : Z) : Z * Z :=
  let i := if decide (i = MAX_SAFE_INTEGER) then 0 else i in
  (i, i + 1).

(** Value of [i] after [n] calls on a fresh generator. *)
Fixpoint stateAfter (n : nat) : Z :=
  match n with
  | O => createIdGenerator
  | S n' => snd (idGenerator (stateAfter n'))
  end.

(** The identifier returned by call number [n + 1] of a fresh generator. *)
Definition nthId (n : nat) : Z := fst (idGenerator (stateAfter n)).

(** The first [n] identifiers of a fresh generator. *)
Definition firstIds (n : nat) : list Z := map nthId (seq 0 n).

(** The number of calls after which a fresh generator holds
    [i = MAX_SAFE_INTEGER]. *)
Definition callsBeforeWrap : nat := Z.to_nat (MAX_SAFE_INTEGER - 1).

End IdGenerator.

(* ===================================================================== *)
(** * The generic collector and the Network specialization *)
(* ===================================================================== *)

Module PageCollector.

Import IdGenerator.

(** [RequestInitiator]: the collector stores initiators and never inspects
    them; only the two scalar fields are kept. *)
Record RequestInitiator := {
  initiatorType : string;
  initiatorUrl : option string;
}.

(** What the Network rotation reads from a request object. *)
Definition Frame := nat.
Record HTTPRequest := {
  frame : Frame;
  isNavigationRequest : bool;
}.

(** The browser side the collector queries: [page.mainFrame()] and the
    request objects behind the collected references. *)
Record Browser := {
  mainFrame : Page -> Frame;
  request : Ref -> HTTPRequest;
}.

Definition maxNavigationSaved : nat := 3.

(** The collector object.
    - [storage]    : [WeakMap<Page, Array<Array<WithSymbolId<T>>>>], newest
                     navigation first;
    - [listeners]  : for each page whose listeners are installed, the state
                     [i] of the ID generator their closure captured;
    - [stableIds]  : the [stableIdSymbol] property of every object, absent
                     where the property is undefined;
    - [initiators] : the Network collector's [#initiators] side table. *)
Record Collector := {
  storage : gmap Page (list (list Ref));
  listeners : gmap Page Z;
  stableIds : gmap Ref Z;
  initiators : gmap Page (gmap string RequestInitiator);
}.

Definition empty : Collector :=
  {| storage := ∅; listeners := ∅; stableIds := ∅; initiators := ∅ |}.

(** Which [splitAfterNavigation] the [framenavigated] listener dispatches to. *)
Inductive Kind := Generic | Network.

(** [#initializePage] *)
Definition initializePage (page : Page) (c : Collector) : Collector :=
  match storage c !! page with
  | Some _ => c
  | None =>
      {| storage := <[page := [[]]]> (storage c);
         listeners := <[page := createIdGenerator]> (listeners c);
         stableIds := stableIds c;
         initiators := initiators c |}
  end.

(** [#setupInitiatorCollection] *)
Definition setupInitiatorCollection (page : Page) (c : Collector) : Collector :=
  match initiators c !! page with
  | Some _ => c
  | None =>
      {| storage := storage c; listeners := listeners c;
         stableIds := stableIds c;
         initiators := <[page := ∅]> (initiators c) |}
  end.

(** [addPage], with the Network override. *)
Definition addPage (k : Kind) (page : Page) (c : Collector) : Collector :=
  match k with
  | Generic => initializePage page c
  | Network => setupInitiatorCollection page (initializePage page c)
  end.

(** [navigations[0].push(withId)]. An array of navigations without a first
    element does not occur (lemma [reachable_storage_nonempty]); the model
    leaves it as it is. *)
Definition pushCurrent (x : Ref) (navigations : list (list Ref)) : list (list Ref) :=
  match navigations with
  | [] => []
  | current :: older => (current ++ [x]) :: older
  end.

(** The callback handed to the listeners initializer in [#initializePage]:
    [withId[stableIdSymbol] = idGenerator();
     const navigations = this.storage.get(page) ?? [[]];
     navigations[0].push(withId);]
    It runs with the generator state [i] of the page's closure. When the page
    has no storage the push goes to a temporary array and is lost. *)
Definition collect (page : Page) (x : Ref) (i : Z) (c : Collector) : Collector :=
  let '(id, i') := idGenerator i in
  {| storage :=
       match storage c !! page with
       | Some navigations => <[page := pushCurrent x navigations]> (storage c)
       | None => storage c
       end;
     listeners := <[page := i']> (listeners c);
     stableIds := <[x := id]> (stableIds c);
     initiators := initiators c |}.

(** [PageCollector.splitAfterNavigation]:
    [navigations.unshift([]); navigations.splice(this.#maxNavigationSaved);] *)
Definition splitAfterNavigation (page : Page) (c : Collector) : Collector :=
  match storage c !! page with
  | None => c
  | Some navigations =>
      {| storage := <[page := take maxNavigationSaved ([] :: navigations)]> (storage c);
         listeners := listeners c;
         stableIds := stableIds c;
         initiators := initiators c |}
  end.

(** [Array.prototype.findLastIndex]: indices [k - 1] down to [0] are tried in
    turn; [-1] when no element satisfies the predicate. *)
Fixpoint findLastIndexFrom {A} (f : A -> bool) (l : list A) (k : nat) : Z :=
  match k with
  | O => -1
  | S k' =>
      match l !! k' with
      | Some x => if f x then Z.of_nat k' else findLastIndexFrom f l k'
      | None => findLastIndexFrom f l k'
      end
  end.

Definition findLastIndex {A} (f : A -> bool) (l : list A) : Z :=
  findLastIndexFrom f l (length l).

(** The predicate of the Network rotation:
    [request.frame() === page.mainFrame() ? request.isNavigationRequest() : false] *)
Definition isMainFrameNavigation (b : Browser) (page : Page) (x : Ref) : bool :=
  if decide (frame (request b x) = mainFrame b page)
  then isNavigationRequest (request b x)
  else false.

(** [NetworkCollector.splitAfterNavigation]. [None] is the [TypeError] of
    [requests.findLastIndex] when [navigations[0]] is undefined (page without
    storage, where [navigations] is the fresh [[]]); it is raised before any
    write. There is no [splice(maxNavigationSaved)] in this override. *)
Definition splitAfterNavigationNetwork (b : Browser) (page : Page) (c : Collector)
  : option Collector :=
  let navigations := default [] (storage c !! page) in
  match navigations with
  | [] => None
  | requests :: older =>
      let lastRequestIdx := findLastIndex (isMainFrameNavigation b page) requests in
      let navigations' :=
        if decide (lastRequestIdx ≠ -1) then
          (* requests.splice(lastRequestIdx); navigations.unshift(...) *)
          drop (Z.to_nat lastRequestIdx) requests
            :: take (Z.to_nat lastRequestIdx) requests :: older
        else
          [] :: requests :: older in
      Some {| storage := <[page := navigations']> (storage c);
              listeners := listeners c;
              stableIds := stableIds c;
              initiators :=
                match initiators c !! page with
                | Some _ => <[page := ∅]> (initiators c)
                | None => initiators c
                end |}
  end.

(** The CDP listener [onRequestWillBeSent] of [#setupInitiatorCollection],
    installed together with the page's initiator map. *)
Definition onRequestWillBeSent (page : Page) (requestId : string)
    (initiator : option RequestInitiator) (c : Collector) : Collector :=
  match initiators c !! page, initiator with
  | Some initiatorMap, Some i =>
      {| storage := storage c; listeners := listeners c;
         stableIds := stableIds c;
         initiators := <[page := <[requestId := i]> initiatorMap]> (initiators c) |}
  | _, _ => c
  end.

(** [getInitiatorByRequestId] *)
Definition getInitiatorByRequestId (c : Collector) (page : Page) (requestId : string)
  : option RequestInitiator :=
  initiators c !! page ≫= fun initiatorMap => initiatorMap !! requestId.

(** [cleanupPageDestroyed], with the Network override. [page.off] removes the
    listeners, so their closure (and its generator) is gone. *)
Definition cleanupPageDestroyed (k : Kind) (page : Page) (c : Collector) : Collector :=
  {| storage := delete page (storage c);
     listeners := delete page (listeners c);
     stableIds := stableIds c;
     initiators :=
       match k with
       | Generic => initiators c
       | Network => delete page (initiators c)
       end |}.

(** The loop of [getData]:
    [for (let index = this.#maxNavigationSaved; index >= 0; index--)
       if (navigations[index]) data.push(...navigations[index]);] *)
Fixpoint getDataLoop (navigations : list (list Ref)) (index : nat) (data : list Ref)
  : list Ref :=
  let data :=
    match navigations !! index with
    | Some navigation => data ++ navigation
    | None => data
    end in
  match index with
  | O => data
  | S index' => getDataLoop navigations index' data
  end.

(** [getData(page, includePreservedData)]. [navigations[0]] of an empty array
    would be [undefined]; the array of a tracked page is never empty
    (lemma [reachable_storage_nonempty]) and the model gives [[]] there. *)
Definition getData (c : Collector) (page : Page) (includePreservedData : bool)
  : list Ref :=
  match storage c !! page with
  | None => []
  | Some navigations =>
      if negb includePreservedData then default [] (navigations !! 0%nat)
      else getDataLoop navigations maxNavigationSaved []
  end.

(** [getIdForResource]: [resource[stableIdSymbol] ?? -1] *)
Definition getIdForResource (c : Collector) (resource : Ref) : Z :=
  default (-1) (stableIds c !! resource).

(** The loop of [find]: [for (const navigation of navigations)
    { const item = navigation.find(filter); if (item) return item; }] *)
Fixpoint findIn (filter : Ref -> bool) (navigations : list (list Ref)) : option Ref :=
  match navigations with
  | [] => None
  | navigation :: older =>
      match List.find filter navigation with
      | Some item => Some item
      | None => findIn filter older
      end
  end.

(** [find(page, filter)]; [None] is [undefined]. *)
Definition find (c : Collector) (page : Page) (filter : Ref -> bool) : option Ref :=
  match storage c !! page with
  | None => None
  | Some navigations => findIn filter navigations
  end.

(** [getById(page, stableId)]; the two thrown errors are the [inl] results. *)
Definition getById (c : Collector) (page : Page) (stableId : Z) : string + Ref :=
  match storage c !! page with
  | None => inl "No requests found for selected page"%string
  | Some _ =>
      match find c page
              (fun item => bool_decide (stableIds c !! item = Some stableId)) with
      | Some item => inr item
      | None => inl "Request not found for selected page"%string
      end
  end.

(** Events delivered to one collector. *)
Inductive Event :=
| TargetCreated (page : Page)
| Collected (page : Page) (x : Ref)
| FrameNavigated (page : Page) (isMainFrame : bool)
| TargetDestroyed (page : Page)
| RequestWillBeSent (page : Page) (requestId : string)
    (initiator : option RequestInitiator).

(** The [framenavigated] listener of [#initializePage]; a [TypeError] of the
    Network override leaves the collector as it was (nothing was written). *)
Definition onFrameNavigated (k : Kind) (b : Browser) (page : Page) (c : Collector)
  : Collector :=
  match k with
  | Generic => splitAfterNavigation page c
  | Network => default c (splitAfterNavigationNetwork b page c)
  end.

(** Dispatch of one event. Page events reach the collector only while its
    listeners are installed on the page. *)
Definition step (k : Kind) (b : Browser) (c : Collector) (e : Event) : Collector :=
  match e with
  | TargetCreated page => addPage k page c
  | Collected page x =>
      match listeners c !! page with
      | Some i => collect page x i c
      | None => c
      end
  | FrameNavigated page isMainFrame =>
      match listeners c !! page with
      | Some _ => if isMainFrame then onFrameNavigated k b page c else c
      | None => c
      end
  | TargetDestroyed page => cleanupPageDestroyed k page c
  | RequestWillBeSent page requestId initiator =>
      onRequestWillBeSent page requestId initiator c
  end.

Definition run (k : Kind) (b : Browser) (c : Collector) (evs : list Event) : Collector :=
  fold_left (step k b) evs c.

(** Whether an event hands an item to the collector of [page]. *)
Definition isCollectedOn (page : Page) (e : Event) : bool :=
  match e with
  | Collected q _ => bool_decide (q = page)
  | _ => false
  end.

(** Number of items handed to the collector of [page] in a trace. *)
Definition collectedCount (page : Page) (evs : list Event) : nat :=
  length (List.filter (isCollectedOn page) evs).

(** ** Invariants of the reachable collectors *)

(** Every tracked page keeps between one and [n] navigations. *)
Definition navigationsWithin (n : nat) (c : Collector) : Prop :=
  forall page navigations,
    storage c !! page = Some navigations ->
    (1 <= length navigations <= n)%nat.

(** Listeners and storage go together, and a tracked page always has a
    current epoch. *)
Definition wellTracked (c : Collector) : Prop :=
  forall page,
    (listeners c !! page = None <-> storage c !! page = None)
    /\ storage c !! page ≠ Some [].

(** The identifiers stored on the retained items of [page] are those the
    page's generator has handed out so far, [i] being its state and [n] the
    number of calls made: all lie in [1, i) and no two retained objects carry
    the same one. [owned] tells the objects produced on [page] from the
    objects produced on other pages. *)
Definition idsFresh (owned : Ref -> Prop) (page : Page) (n : Z) (c : Collector) : Prop :=
  forall navigations,
    storage c !! page = Some navigations ->
    exists i,
      listeners c !! page = Some i
      /\ 1 <= i <= n + 1
      /\ (forall x, x ∈ concat navigations ->
            owned x /\ exists id, stableIds c !! x = Some id /\ 1 <= id < i)
      /\ (forall x y, x ∈ concat navigations -> y ∈ concat navigations ->
            stableIds c !! x = stableIds c !! y -> x = y).

(** [a] occurs in [l] at a position before an occurrence of [b]. *)
Definition appearsBefore {A} (a b : A) (l : list A) : Prop :=
  exists l1 l2 l3, l = l1 ++ a :: l2 ++ b :: l3.

(** ** Sample inputs *)

(** One frame; request 3 is the navigation request. *)
Definition sampleBrowser : Browser :=
  {| mainFrame := fun _ => 0%nat;
     request := fun x => {| frame := 0%nat; isNavigationRequest := (x =? 3)%nat |} |}.

(** Page 0 with requests 1..5 captured in its first epoch. *)
Definition fiveRequests : list Event :=
  [TargetCreated 0%nat; Collected 0%nat 1%nat; Collected 0%nat 2%nat;
   Collected 0%nat 3%nat; Collected 0%nat 4%nat; Collected 0%nat 5%nat].

(** Page 0 with one item captured before each of four main-frame
    navigations, and a fifth after the last; no item is a navigation request. *)
Definition noNavigationBrowser : Browser :=
  {| mainFrame := fun _ => 0%nat;
     request := fun _ => {| frame := 0%nat; isNavigationRequest := false |} |}.

Definition fourNavigations : list Event :=
  [TargetCreated 0%nat;
   Collected 0%nat 1%nat; FrameNavigated 0%nat true;
   Collected 0%nat 2%nat; FrameNavigated 0%nat true;
   Collected 0%nat 3%nat; FrameNavigated 0%nat true;
   Collected 0%nat 4%nat; FrameNavigated 0%nat true;
   Collected 0%nat 5%nat].

End PageCollector.

(* ===================================================================== *)
(** * The WebSocket collector *)
(* ===================================================================== *)

(** A JavaScript string as its sequence of UTF-16 code units. *)
Definition JsString := list N.

(** Code units of an ASCII literal, for stating examples. *)
Fixpoint js (s : string) : JsString :=
  match s with
  | EmptyString => []
  | String c rest => N_of_ascii c :: js rest
  end.

Module WebSocketCollector.

Import IdGenerator.

Inductive WebSocketStatus := connecting | open | closed.
Inductive WebSocketDirection := sent | received.

(** Protocol timestamps are doubles holding fractional seconds; they are the
    kernel's binary64 floats, whose multiplication and subtraction round as
    the program's do. [Date.now()] is an integer. *)
Record WebSocketConnection := {
  requestId : string;
  url : string;
  initiator : option PageCollector.RequestInitiator;
  status : WebSocketStatus;
  createdAt : Z;
  closedAt : option float;
}.

Record WebSocketFrame := {
  frameRequestId : string;
  direction : WebSocketDirection;
  timestamp : float;
  opcode : Z;
  payloadData : JsString;
}.

(** [WebSocketDataWithId]: the record and its [stableIdSymbol] property. *)
Record WebSocketData := {
  connection : WebSocketConnection;
  frames : list WebSocketFrame;
  stableId : option Z;
}.

Definition MapRef := nat.

(** What the closures created by one call of [#setupCdpListeners] captured:
    [const connectionMap = this.#connectionMap.get(page)!] (a reference to a
    [Map] object) and [const idGenerator = this.#idGenerators.get(page)!]
    (the page's generator, held here with its state [i]; the entry of
    [#idGenerators] is this same object and is read nowhere else). *)
Record Listeners := {
  capturedConnectionMap : MapRef;
  generator : Z;
}.

Definition maxNavigationSaved : nat := 3.

(** The collector object.
    - [storage]        : [#storage], newest navigation first, of references
                         to [WebSocketData] objects;
    - [connectionMap]  : [#connectionMap], the [Map] object currently
                         registered for each page;
    - [cdpListeners]   : the CDP listeners installed on the page's client;
    - [navListeners]   : how many [framenavigated] listeners the page
                         carries ([#cleanupPage] does not remove them);
    - [maps]           : the store of [Map<string, WebSocketDataWithId>]
                         objects; [nextMap] is the next fresh reference;
    - [objects]        : the store of [WebSocketData] objects; [nextRef] is
                         the next fresh reference. *)
Record Collector := {
  storage : gmap Page (list (list Ref));
  connectionMap : gmap Page MapRef;
  cdpListeners : gmap Page Listeners;
  navListeners : gmap Page nat;
  maps : gmap MapRef (gmap string Ref);
  nextMap : MapRef;
  objects : gmap Ref WebSocketData;
  nextRef : Ref;
}.

Definition empty : Collector :=
  {| storage := ∅; connectionMap := ∅; cdpListeners := ∅; navListeners := ∅;
     maps := ∅; nextMap := 0%nat; objects := ∅; nextRef := 0%nat |}.

(** [addPage] followed by [#setupCdpListeners]. *)
Definition addPage (page : Page) (c : Collector) : Collector :=
  match storage c !! page with
  | Some _ => c
  | None =>
      let m := nextMap c in
      {| storage := <[page := [[]]]> (storage c);
         connectionMap := <[page := m]> (connectionMap c);
         cdpListeners :=
           <[page := {| capturedConnectionMap := m;
                        generator := createIdGenerator |}]> (cdpListeners c);
         navListeners :=
           <[page := S (default 0%nat (navListeners c !! page))]> (navListeners c);
         maps := <[m := ∅]> (maps c);
         nextMap := S m;
         objects := objects c;
         nextRef := nextRef c |}
  end.

(** [connectionMap.get(event.requestId)] inside a handler: the lookup goes to
    the [Map] object the closure captured. *)
Definition lookupConnection (c : Collector) (l : Listeners) (id : string) : option Ref :=
  maps c !! capturedConnectionMap l ≫= fun m => m !! id.

Definition setStatus (s : WebSocketStatus) (w : WebSocketData) : WebSocketData :=
  {| connection :=
       {| requestId := requestId (connection w); url := url (connection w);
          initiator := initiator (connection w); status := s;
          createdAt := createdAt (connection w);
          closedAt := closedAt (connection w) |};
     frames := frames w; stableId := stableId w |}.

Definition setClosedAt (t : float) (w : WebSocketData) : WebSocketData :=
  {| connection :=
       {| requestId := requestId (connection w); url := url (connection w);
          initiator := initiator (connection w); status := status (connection w);
          createdAt := createdAt (connection w);
          closedAt := Some t |};
     frames := frames w; stableId := stableId w |}.

Definition pushFrame (f : WebSocketFrame) (w : WebSocketData) : WebSocketData :=
  {| connection := connection w; frames := frames w ++ [f]; stableId := stableId w |}.

(** In-place mutation of the object behind a reference. *)
Definition mutate (r : Ref) (f : WebSocketData -> WebSocketData) (c : Collector)
  : Collector :=
  {| storage := storage c; connectionMap := connectionMap c;
     cdpListeners := cdpListeners c; navListeners := navListeners c;
     maps := maps c; nextMap := nextMap c;
     objects := alter f r (objects c); nextRef := nextRef c |}.

(** [onCreated] *)
Definition onCreated (page : Page) (l : Listeners)
    (evRequestId evUrl : string)
    (evInitiator : option PageCollector.RequestInitiator) (now : Z)
    (c : Collector) : Collector :=
  let '(id, i') := idGenerator (generator l) in
  let wsData :=
    {| connection :=
         {| requestId := evRequestId; url := evUrl; initiator := evInitiator;
            status := connecting; createdAt := now; closedAt := None |};
       frames := [];
       stableId := Some id |} in
  let r := nextRef c in
  let c1 :=
    {| storage :=
         match storage c !! page with
         | Some navigations =>
             <[page := PageCollector.pushCurrent r navigations]> (storage c)
         | None => storage c
         end;
       connectionMap := connectionMap c;
       cdpListeners :=
         <[page := {| capturedConnectionMap := capturedConnectionMap l;
                      generator := i' |}]> (cdpListeners c);
       navListeners := navListeners c;
       maps := alter (fun m => <[evRequestId := r]> m) (capturedConnectionMap l) (maps c);
       nextMap := nextMap c;
       objects := <[r := wsData]> (objects c);
       nextRef := S r |} in
  mutate r (setStatus open) c1.

(** [onFrameSent] and [onFrameReceived] *)
Definition onFrame (d : WebSocketDirection) (l : Listeners)
    (evRequestId : string) (evTimestamp : float) (evOpcode : Z) (evPayloadData : JsString)
    (c : Collector) : Collector :=
  match lookupConnection c l evRequestId with
  | None => c
  | Some r =>
      mutate r
        (pushFrame {| frameRequestId := evRequestId;
                      direction := d;
                      timestamp := (evTimestamp * 1000)%float;
                      opcode := evOpcode;
                      payloadData := evPayloadData |}) c
  end.

Definition onFrameSent := onFrame sent.
Definition onFrameReceived := onFrame received.

(** [onClosed] *)
Definition onClosed (l : Listeners) (evRequestId : string) (evTimestamp : float)
    (c : Collector) : Collector :=
  match lookupConnection c l evRequestId with
  | None => c
  | Some r =>
      mutate r (setClosedAt (evTimestamp * 1000)%float)
        (mutate r (setStatus closed) c)
  end.

(** [#splitAfterNavigation]: the rotation, then
    [this.#connectionMap.set(page, new Map())]. The new [Map] replaces the
    entry of [#connectionMap]; the closures of the listeners keep the object
    they captured. *)
Definition splitAfterNavigation (page : Page) (c : Collector) : Collector :=
  match storage c !! page with
  | None => c
  | Some navigations =>
      let m := nextMap c in
      {| storage := <[page := take maxNavigationSaved ([] :: navigations)]> (storage c);
         connectionMap := <[page := m]> (connectionMap c);
         cdpListeners := cdpListeners c;
         navListeners := navListeners c;
         maps := <[m := ∅]> (maps c);
         nextMap := S m;
         objects := objects c;
         nextRef := nextRef c |}
  end.

(** [#cleanupPage]; the [framenavigated] listener stays on the page. *)
Definition cleanupPage (page : Page) (c : Collector) : Collector :=
  {| storage := delete page (storage c);
     connectionMap := delete page (connectionMap c);
     cdpListeners := delete page (cdpListeners c);
     navListeners := navListeners c;
     maps := maps c; nextMap := nextMap c;
     objects := objects c; nextRef := nextRef c |}.

Inductive Event :=
| TargetCreated (page : Page)
| WebSocketCreated (page : Page) (requestId url : string)
    (initiator : option PageCollector.RequestInitiator) (now : Z)
| WebSocketFrameSent (page : Page) (requestId : string) (timestamp : float)
    (opcode : Z) (payloadData : JsString)
| WebSocketFrameReceived (page : Page) (requestId : string) (timestamp : float)
    (opcode : Z) (payloadData : JsString)
| WebSocketClosed (page : Page) (requestId : string) (timestamp : float)
| FrameNavigated (page : Page) (isMainFrame : bool)
| TargetDestroyed (page : Page).

(** Delivery of a CDP event to the listeners installed for the page. *)
Definition deliver (page : Page) (h : Listeners -> Collector -> Collector)
    (c : Collector) : Collector :=
  match cdpListeners c !! page with
  | Some l => h l c
  | None => c
  end.

Definition step (c : Collector) (e : Event) : Collector :=
  match e with
  | TargetCreated page => addPage page c
  | WebSocketCreated page id u ini now =>
      deliver page (fun l => onCreated page l id u ini now) c
  | WebSocketFrameSent page id t op data =>
      deliver page (fun l => onFrameSent l id t op data) c
  | WebSocketFrameReceived page id t op data =>
      deliver page (fun l => onFrameReceived l id t op data) c
  | WebSocketClosed page id t =>
      deliver page (fun l => onClosed l id t) c
  | FrameNavigated page isMainFrame =>
      if isMainFrame
      then Nat.iter (default 0%nat (navListeners c !! page)) (splitAfterNavigation page) c
      else c
  | TargetDestroyed page => cleanupPage page c
  end.

Definition run (c : Collector) (evs : list Event) : Collector :=
  fold_left step evs c.

(** [getData(page, includePreservedData)]; the loop is the one of the generic
    collector. *)
Definition getData (c : Collector) (page : Page) (includePreservedData : bool)
  : list Ref :=
  match storage c !! page with
  | None => []
  | Some navigations =>
      if negb includePreservedData then default [] (navigations !! 0%nat)
      else PageCollector.getDataLoop navigations maxNavigationSaved []
  end.

(** [getIdForResource] *)
Definition getIdForResource (c : Collector) (resource : Ref) : Z :=
  default (-1) (objects c !! resource ≫= stableId).

(** [find(page, filter)]; the filter reads the object behind the reference. *)
Definition find (c : Collector) (page : Page) (filter : WebSocketData -> bool)
  : option Ref :=
  match storage c !! page with
  | None => None
  | Some navigations =>
      PageCollector.findIn
        (fun r => match objects c !! r with Some w => filter w | None => false end)
        navigations
  end.

(** [getById(page, stableId)] *)
Definition getById (c : Collector) (page : Page) (id : Z) : string + Ref :=
  match storage c !! page with
  | None => inl "No WebSocket connections found for selected page"%string
  | Some _ =>
      match find c page (fun w => bool_decide (stableId w = Some id)) with
      | Some item => inr item
      | None => inl "WebSocket connection not found for selected page"%string
      end
  end.

(** The frames and the status of the connection behind a reference. *)
Definition framesOf (c : Collector) (r : Ref) : list WebSocketFrame :=
  default [] (frames <$> objects c !! r).

Definition statusOf (c : Collector) (r : Ref) : option WebSocketStatus :=
  (fun w => status (connection w)) <$> objects c !! r.

(** The table the handlers of a page consult, when listeners are installed. *)
Definition handlerTable (c : Collector) (page : Page) : option (gmap string Ref) :=
  cdpListeners c !! page ≫= fun l => maps c !! capturedConnectionMap l.

(** The table registered for the page in [#connectionMap]. *)
Definition registeredTable (c : Collector) (page : Page) : option (gmap string Ref) :=
  connectionMap c !! page ≫= fun m => maps c !! m.

(** ** Invariants of the reachable collectors *)

(** Every tracked page keeps between one and [n] navigations. *)
Definition navigationsWithin (n : nat) (c : Collector) : Prop :=
  forall page navigations,
    storage c !! page = Some navigations ->
    (1 <= length navigations <= n)%nat.

(** Whether an event announces a connection on [page]. *)
Definition isCreatedOn (page : Page) (e : Event) : bool :=
  match e with
  | WebSocketCreated q _ _ _ _ => bool_decide (q = page)
  | _ => false
  end.

(** Number of connections announced on [page] in a trace. *)
Definition createdCount (page : Page) (evs : list Event) : nat :=
  length (List.filter (isCreatedOn page) evs).

(** The [stableIdSymbol] property of the object behind a reference. *)
Definition stableIdOf (c : Collector) (r : Ref) : option Z :=
  objects c !! r ≫= stableId.

(** Every stored object lies below the next fresh reference. *)
Definition objectsAllocated (c : Collector) : Prop :=
  forall r, is_Some (objects c !! r) -> (r < nextRef c)%nat.

(** The identifiers of the connections retained for [page] are those the
    page's generator has handed out so far ([n] calls): all lie below the
    generator's state and no two retained connections carry the same one. *)
Definition idsFresh (page : Page) (n : Z) (c : Collector) : Prop :=
  forall navigations,
    storage c !! page = Some navigations ->
    exists l,
      cdpListeners c !! page = Some l
      /\ 1 <= generator l <= n + 1
      /\ (forall r, r ∈ concat navigations ->
            exists id, stableIdOf c r = Some id /\ 1 <= id < generator l)
      /\ (forall r r', r ∈ concat navigations -> r' ∈ concat navigations ->
            stableIdOf c r = stableIdOf c r' -> r = r').

(** The [Map] objects captured by the installed listeners are allocated,
    differ from page to page, and hold only connection identifiers announced
    on their page by a [created] event of [announced]. *)
Definition tablesOwned (announced : list (Page * string)) (c : Collector) : Prop :=
  (forall page l, cdpListeners c !! page = Some l ->
     (capturedConnectionMap l < nextMap c)%nat)
  /\ (forall p q l l', p ≠ q ->
       cdpListeners c !! p = Some l -> cdpListeners c !! q = Some l' ->
       capturedConnectionMap l ≠ capturedConnectionMap l')
  /\ (forall page l m id r,
       cdpListeners c !! page = Some l ->
       maps c !! capturedConnectionMap l = Some m ->
       m !! id = Some r -> (page, id) ∈ announced).

(** The connections announced by the [created] events of a trace. *)
Definition announcedBy (e : Event) : list (Page * string) :=
  match e with
  | WebSocketCreated page id _ _ _ => [(page, id)]
  | _ => []
  end.

(** ** Sample inputs *)

(** A connection is created on page 0, the page navigates, and a frame is
    then sent on the connection created before the navigation. *)
Definition frameAfterNavigation : list Event :=
  [TargetCreated 0%nat;
   WebSocketCreated 0%nat "ws-1" "wss://example.test/socket" None 1000;
   FrameNavigated 0%nat true;
   WebSocketFrameSent 0%nat "ws-1" 5%float 1 (js "hello")].

(** One connection before each of four main-frame navigations of page 0,
    and a fifth after the last. *)
Definition fourNavigations : list Event :=
  [TargetCreated 0%nat;
   WebSocketCreated 0%nat "a" "wss://example.test/a" None 1;
   FrameNavigated 0%nat true;
   WebSocketCreated 0%nat "b" "wss://example.test/b" None 2;
   FrameNavigated 0%nat true;
   WebSocketCreated 0%nat "c" "wss://example.test/c" None 3;
   FrameNavigated 0%nat true;
   WebSocketCreated 0%nat "d" "wss://example.test/d" None 4;
   FrameNavigated 0%nat true;
   WebSocketCreated 0%nat "e" "wss://example.test/e" None 5].

End WebSocketCollector.

(* ===================================================================== *)
(** * A [Map] with insertion-ordered iteration *)
(* ===================================================================== *)

Module JsMap.

Section Ops.
Context {V : Type}.

Fixpoint get (k : string) (m : list (string * V)) : option V :=
  match m with
  | [] => None
  | (k', v) :: rest => if decide (k' = k) then Some v else get k rest
  end.

Definition has (k : string) (m : list (string * V)) : bool :=
  match get k m with Some _ => true | None => false end.

(** [set]: an existing key keeps its position, a new key goes last. *)
Fixpoint set (k : string) (v : V) (m : list (string * V)) : list (string * V) :=
  match m with
  | [] => [(k, v)]
  | (k', v') :: rest =>
      if decide (k' = k) then (k', v) :: rest else (k', v') :: set k v rest
  end.

(** In-place mutation of the value object stored under [k]. *)
Fixpoint update (k : string) (f : V -> V) (m : list (string * V)) : list (string * V) :=
  match m with
  | [] => []
  | (k', v') :: rest =>
      if decide (k' = k) then (k', f v') :: rest else (k', v') :: update k f rest
  end.
End Ops.

End JsMap.

(* ===================================================================== *)
(** * The traffic fingerprint engine *)
(* ===================================================================== *)

Module Traffic.

Import WebSocketCollector.

Inductive SizeCategory := tiny | small | medium | large | xlarge.

(** [number.toString(16)] of a code unit. *)
Definition toString16 (n : N) : string :=
  match n with
  | N0 => "0"
  | Npos p => HexString.Raw.of_pos p ""
  end.

Fixpoint zeros (n : nat) : string :=
  match n with
  | O => ""
  | S n' => String "0" (zeros n')
  end.

(** [s.padStart(targetLength, '0')] *)
Definition padStart (targetLength : nat) (s : string) : string :=
  zeros (targetLength - String.length s) +:+ s.

(** The hex rendering both branches of [getHead4B] accumulate:
    [hex += code.toString(16).padStart(2, '0')] for each code unit. *)
Fixpoint hexOf (codes : list N) : string :=
  match codes with
  | [] => ""
  | c :: rest => padStart 2 (toString16 c) +:+ hexOf rest
  end.

(** ** [atob]

    The platform function, after the forgiving-base64 decoding it
    implements: ASCII whitespace is removed; when the length is a multiple of
    four, one or two trailing [=] are removed; a length that is 1 modulo 4 or
    any character outside the alphabet is an error ([None]); otherwise every
    character contributes six bits and left-over bits are dropped. *)

Definition isAsciiWhitespace (c : N) : bool :=
  ((c =? 9) || (c =? 10) || (c =? 12) || (c =? 13) || (c =? 32))%N.

Definition isBase64Char (c : N) : bool :=
  ((65 <=? c) && (c <=? 90) || (97 <=? c) && (c <=? 122)
   || (48 <=? c) && (c <=? 57) || (c =? 43) || (c =? 47))%N.

Definition base64Value (c : N) : N :=
  (if (65 <=? c) && (c <=? 90) then c - 65
   else if (97 <=? c) && (c <=? 122) then c - 71
   else if (48 <=? c) && (c <=? 57) then c + 4
   else if c =? 43 then 62
   else 63)%N.

Definition stripPadding (data : list N) : list N :=
  if decide (length data mod 4 = 0)%nat then
    match reverse data with
    | 61%N :: 61%N :: r => reverse r
    | 61%N :: r => reverse r
    | _ => data
    end
  else data.

Fixpoint decodeSextets (l : list N) : list N :=
  match l with
  | a :: b :: c :: d :: rest =>
      let n := (a * 262144 + b * 4096 + c * 64 + d)%N in
      (n / 65536)%N :: ((n / 256) mod 256)%N :: (n mod 256)%N :: decodeSextets rest
  | [a; b; c] =>
      let n := ((a * 4096 + b * 64 + c) / 4)%N in
      [(n / 256)%N; (n mod 256)%N]
  | [a; b] => [((a * 64 + b) / 16)%N]
  | _ => []
  end.

Definition atob (data : JsString) : option JsString :=
  let data := stripPadding (List.filter (fun c => negb (isAsciiWhitespace c)) data) in
  if decide (length data mod 4 = 1)%nat then None
  else if forallb isBase64Char data then Some (decodeSextets (map base64Value data))
  else None.

(** [base64ToHex(base64, maxBytes)]; the [catch] gives the empty string. *)
Definition base64ToHex (base64 : JsString) (maxBytes : nat) : string :=
  match atob base64 with
  | Some binary => hexOf (take maxBytes binary)
  | None => ""
  end.

Fixpoint dropWhile {A} (f : A -> bool) (l : list A) : list A :=
  match l with
  | [] => []
  | x :: rest => if f x then dropWhile f rest else l
  end.

(** [payload.match(/^[A-Za-z0-9+/]+=*$/)]: one or more alphabet characters,
    then only [=] up to the end of the string. *)
Definition looksBase64 (payload : JsString) : bool :=
  match payload with
  | [] => false
  | c :: _ => isBase64Char c && forallb (N.eqb 61) (dropWhile isBase64Char payload)
  end.

(** [getHead4B(payload, opcode)] *)
Definition getHead4B (payload : JsString) (opcode : Z) : string :=
  if decide (opcode = 2) then base64ToHex payload 4
  else if looksBase64 payload then base64ToHex payload 4
  else hexOf (take (Nat.min (length payload) 4) payload).

(** [getSizeCategory(size)] *)
Definition getSizeCategory (size : Z) : SizeCategory :=
  if size <? 32 then tiny
  else if size <? 128 then small
  else if size <? 512 then medium
  else if size <? 2048 then large
  else xlarge.

Definition startsWith (s prefix : string) : bool := String.prefix prefix s.

Definition hexDigit (c : ascii) : option N :=
  let n := N_of_ascii c in
  (if (48 <=? n) && (n <=? 57) then Some (n - 48)
   else if (97 <=? n) && (n <=? 102) then Some (n - 87)
   else if (65 <=? n) && (n <=? 70) then Some (n - 55)
   else None)%N.

(** [parseInt(s, 16)] on the strings it is given here, at most two
    characters cut from a lower-case hex string: the value of the longest
    prefix of hex digits, [None] (NaN) when that prefix is empty. *)
Fixpoint parseHexFrom (acc : option N) (s : string) : option N :=
  match s with
  | EmptyString => acc
  | String c rest =>
      match hexDigit c with
      | Some d => parseHexFrom (Some (default 0 acc * 16 + d)%N) rest
      | None => acc
      end
  end.

Definition parseInt16 (s : string) : option N := parseHexFrom None s.

(** [guessHintFromHead(head4B)] *)
Definition guessHintFromHead (head4B : string) : string :=
  if decide (head4B = "") then "-"
  else if startsWith head4B "1f8b" then "Gzip"
  else if startsWith head4B "08" || startsWith head4B "0a"
          || startsWith head4B "10" || startsWith head4B "12"
          || startsWith head4B "18" || startsWith head4B "1a"
          || startsWith head4B "20" || startsWith head4B "22" then "Protobuf"
  else if startsWith head4B "7b" || startsWith head4B "5b" then "JSON"
  else
    let firstByte := parseInt16 (String.substring 0 2 head4B) in
    if match firstByte with
       | Some b => (128 <=? b)%N && (b <=? 191)%N
       | None => false
       end then "MsgPack"
    else if decide (head4B = "28b52ffd") then "Zstd"
    else if decide (head4B = "70696e67") then "ping"
    else if decide (head4B = "706f6e67") then "pong"
    else "-".

(** [String.fromCharCode] on the codes [generateGroupId] passes (65..90). *)
Definition fromCharCode (n : Z) : ascii := ascii_of_N (Z.to_N n).

(** The [do ... while (n >= 0)] loop of [generateGroupId]:
    [id = String.fromCharCode(65 + (n % 26)) + id; n = Math.floor(n / 26) - 1;] *)
Equations generateGroupIdLoop (n : Z) (id : string) : string
  by wf (Z.to_nat (n + 1)) lt :=
  generateGroupIdLoop n id with decide (0 <= n / 26 - 1) := {
    | left _ =>
        generateGroupIdLoop (n / 26 - 1) (String (fromCharCode (65 + Z.rem n 26)) id)
    | right _ => String (fromCharCode (65 + Z.rem n 26)) id }.
Next Obligation. Z.div_mod_to_equations. lia. Qed.

(** [generateGroupId(index)] *)
Definition generateGroupId (index : Z) : string := generateGroupIdLoop index "".

(** The value objects of [groupMap]. *)
Record Group := {
  gDirection : WebSocketDirection;
  gHead4B : string;
  gSizeCategory : SizeCategory;
  indices : list nat;
  gMinSize : Z;
  gMaxSize : Z;
}.

Record MessageGroupV2 := {
  id : string;
  mDirection : WebSocketDirection;
  head4B : string;
  sizeCategory : SizeCategory;
  count : nat;
  minSize : Z;
  maxSize : Z;
  hint : string;
  sampleIndices : list nat;
}.

Record TrafficSummary := {
  wsid : Z;
  summaryUrl : string;
  durationMs : float;
  totalFrames : nat;
  sentCount : nat;
  receivedCount : nat;
  groups : list MessageGroupV2;
  groupToIndices : list (string * list nat);
}.

Definition directionName (d : WebSocketDirection) : string :=
  match d with sent => "sent" | received => "received" end.

Definition sizeCategoryName (s : SizeCategory) : string :=
  match s with
  | tiny => "tiny" | small => "small" | medium => "medium"
  | large => "large" | xlarge => "xlarge"
  end.

(** [`${frame.direction}:${head4B}:${sizeCategory}`] *)
Definition groupKey (d : WebSocketDirection) (h : string) (s : SizeCategory) : string :=
  directionName d +:+ ":" +:+ h +:+ ":" +:+ sizeCategoryName s.

(** [frame.payloadData.length] *)
Definition payloadSize (frame : WebSocketFrame) : Z :=
  Z.of_nat (length (payloadData frame)).

(** The group created for the first frame of a key:
    [{direction, head4B, sizeCategory, indices: [], minSize: size, maxSize: size}] *)
Definition newGroup (frame : WebSocketFrame) : Group :=
  {| gDirection := direction frame;
     gHead4B := getHead4B (payloadData frame) (opcode frame);
     gSizeCategory := getSizeCategory (payloadSize frame);
     indices := [];
     gMinSize := payloadSize frame;
     gMaxSize := payloadSize frame |}.

(** [group.indices.push(index); group.minSize = Math.min(group.minSize, size);
    group.maxSize = Math.max(group.maxSize, size);] *)
Definition recordFrame (index : nat) (size : Z) (group : Group) : Group :=
  {| gDirection := gDirection group; gHead4B := gHead4B group;
     gSizeCategory := gSizeCategory group;
     indices := indices group ++ [index];
     gMinSize := Z.min (gMinSize group) size;
     gMaxSize := Z.max (gMaxSize group) size |}.

(** The body of [frames.forEach((frame, index) => ...)]. *)
Definition addFrame (frame : WebSocketFrame) (index : nat)
    (groupMap : list (string * Group)) : list (string * Group) :=
  let h := getHead4B (payloadData frame) (opcode frame) in
  let size := payloadSize frame in
  let cat := getSizeCategory size in
  let key := groupKey (direction frame) h cat in
  let groupMap :=
    if JsMap.has key groupMap then groupMap
    else JsMap.set key (newGroup frame) groupMap in
  JsMap.update key (recordFrame index size) groupMap.

Fixpoint groupFrames (frames : list WebSocketFrame) (index : nat)
    (groupMap : list (string * Group)) : list (string * Group) :=
  match frames with
  | [] => groupMap
  | frame :: rest => groupFrames rest (S index) (addFrame frame index groupMap)
  end.

(** [Array.prototype.sort(compare)], a stable sort: an element moves behind
    exactly those elements the comparator puts strictly before it. *)
Fixpoint sortInsert {A} (compare : A -> A -> Z) (x : A) (sorted : list A) : list A :=
  match sorted with
  | [] => [x]
  | y :: rest =>
      if 0 <? compare x y then y :: sortInsert compare x rest
      else x :: sorted
  end.

Fixpoint sort {A} (compare : A -> A -> Z) (l : list A) : list A :=
  match l with
  | [] => []
  | x :: rest => sortInsert compare x (sort compare rest)
  end.

(** [(a, b) => b[1].indices.length - a[1].indices.length] *)
Definition byCountDescending (a b : string * Group) : Z :=
  Z.of_nat (length (indices (snd b))) - Z.of_nat (length (indices (snd a))).

Definition toMessageGroup (idx : nat) (group : Group) : MessageGroupV2 :=
  {| id := generateGroupId (Z.of_nat idx);
     mDirection := gDirection group;
     head4B := gHead4B group;
     sizeCategory := gSizeCategory group;
     count := length (indices group);
     minSize := gMinSize group;
     maxSize := gMaxSize group;
     hint := guessHintFromHead (gHead4B group);
     sampleIndices := take 3 (indices group) |}.

(** The second [forEach]: [groups.push(...)] and
    [groupToIndices.set(id, group.indices)] for the entry of rank [idx]. *)
Fixpoint emitGroups (entries : list (string * Group)) (idx : nat)
    (acc : list MessageGroupV2 * list (string * list nat))
  : list MessageGroupV2 * list (string * list nat) :=
  match entries with
  | [] => acc
  | (_, group) :: rest =>
      let g := toMessageGroup idx group in
      emitGroups rest (S idx)
        (fst acc ++ [g], JsMap.set (id g) (indices group) (snd acc))
  end.

Definition isSent (f : WebSocketFrame) : bool :=
  match direction f with sent => true | received => false end.

Definition isReceived (f : WebSocketFrame) : bool :=
  match direction f with received => true | sent => false end.

(** [analyzeWebSocketFramesV2(frames, wsid, url)] *)
Definition analyzeWebSocketFramesV2 (frames : list WebSocketFrame) (wsid : Z)
    (url : string) : TrafficSummary :=
  let durationMs :=
    if (1 <? length frames)%nat then
      match frames !! 0%nat, frames !! (length frames - 1)%nat with
      | Some first, Some last => (timestamp last - timestamp first)%float
      | _, _ => 0%float
      end
    else 0%float in
  let groupMap := groupFrames frames 0 [] in
  let groupEntries := sort byCountDescending groupMap in
  let '(groups, groupToIndices) := emitGroups groupEntries 0 ([], []) in
  {| wsid := wsid;
     summaryUrl := url;
     durationMs := durationMs;
     totalFrames := length frames;
     sentCount := length (List.filter isSent frames);
     receivedCount := length (List.filter isReceived frames);
     groups := groups;
     groupToIndices := groupToIndices |}.

(** The size bucket the engine attaches to a frame. *)
Definition frameSizeCategory (frame : WebSocketFrame) : SizeCategory :=
  getSizeCategory (payloadSize frame).

(** ** Derived notions used to state the properties of the engine *)

(** The groups and the index table the second [forEach] emits for the sorted
    entries, the first entry having rank [idx]. *)
Fixpoint groupsFrom (idx : nat) (entries : list (string * Group)) : list MessageGroupV2 :=
  match entries with
  | [] => []
  | e :: rest => toMessageGroup idx (snd e) :: groupsFrom (S idx) rest
  end.

Fixpoint indexFrom (idx : nat) (entries : list (string * Group))
  : list (string * list nat) :=
  match entries with
  | [] => []
  | e :: rest =>
      (generateGroupId (Z.of_nat idx), indices (snd e)) :: indexFrom (S idx) rest
  end.

(** The index lists of a group map split the first [n] frame indices: keys are
    distinct, every index below [n] is in exactly one list, and every list is
    strictly increasing. *)
Definition groupsPartition (n : nat) (groupMap : list (string * Group)) : Prop :=
  NoDup (map fst groupMap)
  /\ Permutation (concat (map (fun e => indices (snd e)) groupMap)) (seq 0 n)
  /\ Forall (fun e => StronglySorted lt (indices (snd e))) groupMap.

(** The key of the group a frame belongs to. *)
Definition frameKey (frame : WebSocketFrame) : string :=
  groupKey (direction frame)
    (getHead4B (payloadData frame) (opcode frame))
    (getSizeCategory (payloadSize frame)).

(** Every entry is filed under the key of its own fields, and every index it
    lists is the index of a frame with that key. *)
Definition groupsKeyed (frames : list WebSocketFrame)
    (groupMap : list (string * Group)) : Prop :=
  Forall (fun e =>
            fst e = groupKey (gDirection (snd e)) (gHead4B (snd e))
                      (gSizeCategory (snd e))
            /\ forall i, i ∈ indices (snd e) ->
                 exists frame, frames !! i = Some frame /\ frameKey frame = fst e)
    groupMap.

(** [a] may stand before [b] in the sorted entries: [b] has no more members
    than [a]. *)
Definition countDescending (a b : string * Group) : Prop :=
  (length (indices (snd b)) <= length (indices (snd a)))%nat.

(** Whether the separator of [groupKey] occurs in a string. *)
Fixpoint containsColon (s : string) : bool :=
  match s with
  | EmptyString => false
  | String c rest => if decide (c = ":"%char) then true else containsColon rest
  end.

(** ** The size bucket as the specification words it

    "Compute a size bucket from payload byte length: tiny (<32), small (<128),
    medium (<512), large (<2048), xlarge (>=2048)", for text frames and for
    binary frames whose payload arrives base64-encoded. *)

Definition specSizeBucket (bytes : Z) : SizeCategory :=
  if bytes <? 32 then tiny
  else if bytes <? 128 then small
  else if bytes <? 512 then medium
  else if bytes <? 2048 then large
  else xlarge.

(** Number of bytes of the UTF-8 encoding of a text payload. *)
Fixpoint utf8Length (s : JsString) : Z :=
  match s with
  | [] => 0
  | c :: rest =>
      if (c <? 128)%N then 1 + utf8Length rest
      else if (c <? 2048)%N then 2 + utf8Length rest
      else if (55296 <=? c)%N && (c <=? 56319)%N then
        match rest with
        | d :: rest' =>
            if (56320 <=? d)%N && (d <=? 57343)%N then 4 + utf8Length rest'
            else 3 + utf8Length rest
        | [] => 3
        end
      else 3 + utf8Length rest
  end.

(** The byte length of a frame's payload: the decoded bytes of a binary frame
    (opcode 2, base64 text on the wire), the UTF-8 bytes of a text frame. *)
Definition specPayloadByteLength (frame : WebSocketFrame) : Z :=
  if decide (opcode frame = 2) then
    match atob (payloadData frame) with
    | Some bytes => Z.of_nat (length bytes)
    | None => Z.of_nat (length (payloadData frame))
    end
  else utf8Length (payloadData frame).

(** ** Sample inputs *)

(** A binary frame of 24 zero bytes: 32 characters of base64. *)
Definition binaryFrame24 : WebSocketFrame :=
  {| frameRequestId := "ws-1"; direction := received; timestamp := 0%float;
     opcode := 2; payloadData := js "AAAAAAAAAAAAAAAAAAAAAAAAAAAAAAAA" |}.

(** Five received binary frames whose payload starts with 1f 8b 08 00. *)
Definition gzipFrames : list WebSocketFrame :=
  map (fun t => {| frameRequestId := "ws-1"; direction := received;
                   timestamp := t; opcode := 2;
                   payloadData := js "H4sIAAAAAAAA" |})
    [1; 2; 3; 4; 5]%float.

(** Text frames ["{A"], ["{B"], ... : [n] frames with [n] different heads. *)
Definition distinctFrames (n : nat) : list WebSocketFrame :=
  map (fun k => {| frameRequestId := "ws-1"; direction := sent;
                   timestamp := PrimFloat.of_uint63 (Uint63.of_Z (Z.of_nat k)); opcode := 1;
                   payloadData := [123%N; (65 + N.of_nat k)%N] |})
    (seq 0 n).

End Traffic.

(* ===================================================================== *)
(** * Further invariants, derived notions and sample inputs *)
(* ===================================================================== *)

Module PageCollectorMore.

Import PageCollector.

(** In the Network collector a page has an initiator map exactly while it is
    tracked. *)
Definition initiatorsTracked (c : Collector) : Prop :=
  forall page, initiators c !! page = None <-> storage c !! page = None.

(** The items handed to the collector of [page] in a trace, in order. *)
Definition collectedOn (page : Page) (evs : list Event) : list Ref :=
  omap (fun e => match e with
                 | Collected q x => if decide (q = page) then Some x else None
                 | _ => None
                 end) evs.

(** The objects handed to the collector in a trace, on whatever page. *)
Definition allCollected (evs : list Event) : list Ref :=
  omap (fun e => match e with
                 | Collected _ x => Some x
                 | _ => None
                 end) evs.

(** The identifiers of the items [seen] on [page] since it was tracked are
    those its generator has handed out ([n] calls at most): all lie in
    [1, i), [i] being the generator's state, and no two of them carry the
    same one, retained or not. *)
Definition idsDistinct (seen : Ref -> Prop) (page : Page) (n : Z) (c : Collector)
  : Prop :=
  exists i,
    listeners c !! page = Some i
    /\ 1 <= i <= n + 1
    /\ (forall x, seen x -> exists id, stableIds c !! x = Some id /\ 1 <= id < i)
    /\ (forall x y, seen x -> seen y -> stableIds c !! x = stableIds c !! y -> x = y).

(** The page has neither storage nor listeners. *)
Definition untracked (page : Page) (c : Collector) : Prop :=
  storage c !! page = None /\ listeners c !! page = None.

(** The request of [sampleBrowser] that is a navigation request. *)
Definition isRequest3 (x : Ref) : bool := (x =? 3)%nat.

(** Page 0 tracked by the Network collector, with two requests whose
    initiators were reported. *)
Definition twoInitiators : list Event :=
  [TargetCreated 0%nat;
   RequestWillBeSent 0%nat "r-1" (Some {| initiatorType := "script"; initiatorUrl := None |});
   Collected 0%nat 1%nat;
   RequestWillBeSent 0%nat "r-2" (Some {| initiatorType := "parser"; initiatorUrl := None |});
   Collected 0%nat 2%nat].

End PageCollectorMore.

Module WebSocketCollectorMore.

Import WebSocketCollector.

(** The record the handlers of [page] reach under a connection identifier. *)
Definition reached (c : Collector) (page : Page) (id : string) : option Ref :=
  handlerTable c page ≫= fun m => m !! id.

(** The frame a frame event stores: the event's timestamp times 1000, in
    double arithmetic. *)
Definition recordedFrame (d : WebSocketDirection) (id : string) (t : float) (op : Z)
    (data : JsString) : WebSocketFrame :=
  {| frameRequestId := id; direction := d;
     timestamp := (t * 1000)%float; opcode := op; payloadData := data |}.

(** The frame events of a trace that name the connection [id] of [page], as
    the frames they store, in order. *)
Definition framesFor (page : Page) (id : string) (evs : list Event)
  : list WebSocketFrame :=
  omap (fun e =>
          match e with
          | WebSocketFrameSent q i t op data =>
              if decide (q = page /\ i = id)
              then Some (recordedFrame sent i t op data) else None
          | WebSocketFrameReceived q i t op data =>
              if decide (q = page /\ i = id)
              then Some (recordedFrame received i t op data) else None
          | _ => None
          end) evs.

(** Listeners are installed on tracked pages only, the table they captured
    exists, and the tables hold allocated records. *)
Definition tablesLive (c : Collector) : Prop :=
  (forall page, storage c !! page = None -> cdpListeners c !! page = None)
  /\ (forall page, storage c !! page ≠ None -> is_Some (handlerTable c page))
  /\ (forall page id r, reached c page id = Some r ->
        (r < nextRef c)%nat /\ is_Some (objects c !! r)).

(** The record [r] is reached under [id] on [page], and under no other
    identifier of any page. *)
Definition connectionBound (page : Page) (id : string) (r : Ref) (c : Collector)
  : Prop :=
  reached c page id = Some r
  /\ forall q id', reached c q id' = Some r -> q = page /\ id' = id.

(** The closing times, in milliseconds, the [closed] events of a trace give
    for the connection [id] of [page], in order. *)
Definition closingsFor (page : Page) (id : string) (evs : list Event) : list float :=
  omap (fun e =>
          match e with
          | WebSocketClosed q i t =>
              if decide (q = page /\ i = id) then Some (t * 1000)%float else None
          | _ => None
          end) evs.

(** What an event does to the record [r]: the frame and [closed] handlers
    change the record they reach, whatever its status. *)
Definition applyTo (c : Collector) (r : Ref) (e : Event) (w : WebSocketData)
  : WebSocketData :=
  match e with
  | WebSocketFrameSent q i t op data =>
      if decide (reached c q i = Some r)
      then pushFrame (recordedFrame sent i t op data) w else w
  | WebSocketFrameReceived q i t op data =>
      if decide (reached c q i = Some r)
      then pushFrame (recordedFrame received i t op data) w else w
  | WebSocketClosed q i t =>
      if decide (reached c q i = Some r)
      then setClosedAt (t * 1000)%float (setStatus closed w) else w
  | _ => w
  end.

(** A record at rest is open and not yet closed, or closed with its closing
    time. *)
Definition settled (w : WebSocketData) : Prop :=
  (status (connection w) = open /\ closedAt (connection w) = None)
  \/ (status (connection w) = closed /\ is_Some (closedAt (connection w))).

(** What stays of a connection record and what may change: the identity of
    the connection is fixed, frames are only appended, and a closed
    connection stays closed. *)
Definition extends (w w' : WebSocketData) : Prop :=
  requestId (connection w') = requestId (connection w)
  /\ url (connection w') = url (connection w)
  /\ initiator (connection w') = initiator (connection w)
  /\ createdAt (connection w') = createdAt (connection w)
  /\ stableId w' = stableId w
  /\ frames w `prefix_of` frames w'
  /\ (status (connection w) = closed -> status (connection w') = closed).

(** Every stored record is at rest. *)
Definition recordsSettled (c : Collector) : Prop :=
  forall r w, objects c !! r = Some w -> settled w.

(** The records created for the connections announced on [page] while a
    trace runs from [c], in the order of their creation: each [created] event
    delivered to the page's listeners allocates the next reference. *)
Fixpoint createdRefs (page : Page) (c : Collector) (evs : list Event) : list Ref :=
  match evs with
  | [] => []
  | e :: rest =>
      match e with
      | WebSocketCreated q _ _ _ _ =>
          if decide (q = page)
          then match cdpListeners c !! page with
               | Some _ => [nextRef c]
               | None => []
               end
          else []
      | _ => []
      end ++ createdRefs page (step c e) rest
  end.

(** A connection is created on page 0 and the page navigates: the record of
    ["ws-1"] is in the previous epoch and the table registered for the page
    is the new, empty one. *)
Definition createdThenNavigated : list Event :=
  [TargetCreated 0%nat;
   WebSocketCreated 0%nat "ws-1" "wss://example.test/socket" None 1000;
   FrameNavigated 0%nat true].

(** A connection on page 0 that sends (at 1.005 s), receives, survives a
    navigation and a second connection, and is closed before a last frame
    arrives. *)
Definition chatter : list Event :=
  [WebSocketFrameSent 0%nat "ws-1" 0x1.0147ae147ae14p+0%float 1 (js "ping");
   FrameNavigated 0%nat true;
   WebSocketCreated 0%nat "ws-2" "wss://example.test/other" None 1500;
   WebSocketFrameReceived 0%nat "ws-1" 3%float 1 (js "pong");
   WebSocketFrameSent 0%nat "ws-2" 4%float 2 (js "AAEC");
   WebSocketClosed 0%nat "ws-1" 5%float;
   WebSocketFrameReceived 0%nat "ws-1" 6%float 1 (js "late")].

End WebSocketCollectorMore.

Module TrafficMore.

Import WebSocketCollector Traffic.

(** The recorded size range of a group is the range of its members: the group
    has a member, every member's size lies between [gMinSize] and [gMaxSize],
    and both bounds are the size of some member. *)
Definition groupMeasured (frames : list WebSocketFrame) (g : Group) : Prop :=
  indices g ≠ []
  /\ (forall i, i ∈ indices g ->
        exists f, frames !! i = Some f /\ gMinSize g <= payloadSize f <= gMaxSize g)
  /\ (exists i f, i ∈ indices g /\ frames !! i = Some f /\ payloadSize f = gMinSize g)
  /\ (exists i f, i ∈ indices g /\ frames !! i = Some f /\ payloadSize f = gMaxSize g).

(** The first frame index a group lists. *)
Definition firstIndex (e : string * Group) : option nat := head (indices (snd e)).

(** Both are indices, the first below the second. *)
Definition indexBefore (a b : option nat) : Prop :=
  exists i j, a = Some i /\ b = Some j /\ (i < j)%nat.

(** The entries of a group map stand in the order in which their first
    members arrived; every entry has a member, and lists only indices below
    [n]. *)
Definition groupsInArrivalOrder (n : nat) (groupMap : list (string * Group)) : Prop :=
  StronglySorted indexBefore (map firstIndex groupMap)
  /\ Forall (fun e => indices (snd e) ≠ []
                      /\ forall i, i ∈ indices (snd e) -> (i < n)%nat) groupMap.

(** Whether the frame at an index satisfies a test. *)
Definition holdsAt (p : WebSocketFrame -> bool) (frames : list WebSocketFrame)
    (i : nat) : bool :=
  match frames !! i with
  | Some f => p f
  | None => false
  end.

Definition sameDirection (a b : WebSocketDirection) : bool :=
  match a, b with
  | sent, sent | received, received => true
  | _, _ => false
  end.

(** The groups of one direction. *)
Definition inDirection (d : WebSocketDirection) (g : MessageGroupV2) : bool :=
  sameDirection (mDirection g) d.

(** Whether an entry lists [c] frames. *)
Definition hasCount (c : nat) (e : string * Group) : bool :=
  (length (indices (snd e)) =? c)%nat.

(** The frames of a conversation: JSON objects of two sizes and a JSON array
    sent, gzip received. *)
Definition mixedFrames : list WebSocketFrame :=
  [ {| frameRequestId := "ws-1"; direction := sent; timestamp := 1%float; opcode := 1;
       payloadData := js "{a:1}" |};
    {| frameRequestId := "ws-1"; direction := received; timestamp := 2%float; opcode := 2;
       payloadData := js "H4sIAAAAAAAA" |};
    {| frameRequestId := "ws-1"; direction := sent; timestamp := 3%float; opcode := 1;
       payloadData := js "{a:1,b:22}" |};
    {| frameRequestId := "ws-1"; direction := received; timestamp := 4%float; opcode := 2;
       payloadData := js "H4sIAAAAAAAA" |};
    {| frameRequestId := "ws-1"; direction := sent; timestamp := 5%float; opcode := 1;
       payloadData := js "[1,2,3]" |} ].

End TrafficMore.

(* ===================================================================== *)
(** * Properties of the stable ID generator *)
(* ===================================================================== *)

Module IdGeneratorSpec.

Import IdGenerator.

Lemma idGenerator_below (i : Z) :
  i ≠ MAX_SAFE_INTEGER -> idGenerator i = (i, i + 1).
Proof.
  intros Hi. unfold idGenerator. destruct (decide (i = MAX_SAFE_INTEGER)); congruence.
Qed.

Lemma stateAfter_S (n : nat) : stateAfter (S n) = snd (idGenerator (stateAfter n)).
Proof. reflexivity. Qed.

Lemma stateAfter_below (n : nat) :
  Z.of_nat n < MAX_SAFE_INTEGER -> stateAfter n = Z.of_nat n + 1.
Proof.
  induction n as [|n IH]; intros Hn.
  - reflexivity.
  - rewrite stateAfter_S.
    rewrite IH by lia. rewrite idGenerator_below by lia.
    cbn [snd]. lia.
Qed.

Lemma nthId_below (n : nat) :
  Z.of_nat n < MAX_SAFE_INTEGER - 1 -> nthId n = Z.of_nat n + 1.
Proof.
  intros Hn. unfold nthId. rewrite stateAfter_below by lia.
  rewrite idGenerator_below by lia. reflexivity.
Qed.

Lemma callsBeforeWrap_Z : Z.of_nat callsBeforeWrap = MAX_SAFE_INTEGER - 1.
Proof. unfold callsBeforeWrap. apply Z2Nat.id. unfold MAX_SAFE_INTEGER. lia. Qed.

Lemma stateAfter_callsBeforeWrap : stateAfter callsBeforeWrap = MAX_SAFE_INTEGER.
Proof.
  rewrite stateAfter_below; rewrite callsBeforeWrap_Z; lia.
Qed.

(** C5, evaluated on the code. A fresh generator returns 1, 2, 3, ... for its
    first [MAX_SAFE_INTEGER - 1] calls; the next call finds
    [i === MAX_SAFE_INTEGER], resets [i] to 0 and returns that 0 (the
    post-increment leaves [i = 1] behind). The wrap therefore yields the
    identifier 0, and only the call after it yields 1. *)
Theorem generator_wraparound_yields_zero :
  (forall n : nat, (n < callsBeforeWrap)%nat -> nthId n = Z.of_nat n + 1)
  /\ nthId callsBeforeWrap = 0
  /\ nthId (S callsBeforeWrap) = 1
  /\ idGenerator MAX_SAFE_INTEGER = (0, 1).
Proof.
  split; [|split; [|split]].
  - intros n Hn. apply nthId_below.
    pose proof callsBeforeWrap_Z. lia.
  - unfold nthId. rewrite stateAfter_callsBeforeWrap. reflexivity.
  - unfold nthId. rewrite stateAfter_S, stateAfter_callsBeforeWrap. reflexivity.
  - reflexivity.
Qed.

End IdGeneratorSpec.

(* ===================================================================== *)
(** * Properties of the generic collector and of the Network rotation *)
(* ===================================================================== *)

Module PageCollectorSpec.

Import IdGenerator PageCollector.

(** ** [findLastIndex] *)

Lemma findLastIndexFrom_none {A} (f : A -> bool) (l : list A) (k : nat) :
  (forall x, x ∈ l -> f x = false) -> findLastIndexFrom f l k = -1.
Proof.
  intros Hall. induction k as [|k IH]; [reflexivity|].
  cbn [findLastIndexFrom]. destruct (l !! k) as [x|] eqn:Hx; [|exact IH].
  rewrite (Hall x) by (eapply list_elem_of_lookup_2; eassumption). exact IH.
Qed.

Lemma findLastIndexFrom_last {A} (f : A -> bool) (pre post : list A) (r : A) (k : nat) :
  f r = true ->
  (forall x, x ∈ post -> f x = false) ->
  (length pre < k <= length (pre ++ r :: post))%nat ->
  findLastIndexFrom f (pre ++ r :: post) k = Z.of_nat (length pre).
Proof.
  intros Hr Hpost. induction k as [|k IH]; intros Hk; [lia|].
  cbn [findLastIndexFrom].
  destruct (decide (k = length pre)) as [->|Hne].
  - rewrite list_lookup_middle by reflexivity. rewrite Hr. reflexivity.
  - destruct ((pre ++ r :: post) !! k) as [x|] eqn:Hx; [|apply IH; lia].
    assert (Hin : x ∈ post).
    { rewrite lookup_app_r in Hx by lia.
      destruct (k - length pre)%nat as [|j] eqn:Hj; [lia|].
      cbn in Hx. eapply list_elem_of_lookup_2; eassumption. }
    rewrite (Hpost x Hin). apply IH; lia.
Qed.

Lemma findLastIndex_last {A} (f : A -> bool) (pre post : list A) (r : A) :
  f r = true ->
  (forall x, x ∈ post -> f x = false) ->
  findLastIndex f (pre ++ r :: post) = Z.of_nat (length pre).
Proof.
  intros Hr Hpost. unfold findLastIndex.
  apply findLastIndexFrom_last; [assumption..|].
  rewrite length_app. cbn. lia.
Qed.

Lemma findLastIndex_none {A} (f : A -> bool) (l : list A) :
  (forall x, x ∈ l -> f x = false) -> findLastIndex f l = -1.
Proof. apply findLastIndexFrom_none. Qed.

(** [findLastIndex] answers [-1] or an index of the array. *)
Lemma findLastIndexFrom_range {A} (f : A -> bool) (l : list A) (k : nat) :
  findLastIndexFrom f l k = -1 \/ 0 <= findLastIndexFrom f l k < Z.of_nat k.
Proof.
  induction k as [|k IH]; [left; reflexivity|].
  cbn [findLastIndexFrom].
  destruct (l !! k) as [x|]; [destruct (f x)|]; lia.
Qed.

(** ** The Network rotation *)

Lemma splitAfterNavigationNetwork_storage b page c requests older :
  storage c !! page = Some (requests :: older) ->
  exists c',
    splitAfterNavigationNetwork b page c = Some c'
    /\ listeners c' = listeners c
    /\ stableIds c' = stableIds c
    /\ (forall q, q ≠ page -> storage c' !! q = storage c !! q)
    /\ exists k : nat,
        (k <= length requests)%nat
        /\ storage c' !! page = Some (drop k requests :: take k requests :: older)
        /\ (findLastIndex (isMainFrameNavigation b page) requests = -1 ->
            k = length requests)
        /\ (findLastIndex (isMainFrameNavigation b page) requests ≠ -1 ->
            Z.of_nat k = findLastIndex (isMainFrameNavigation b page) requests).
Proof.
  intros Hst. unfold splitAfterNavigationNetwork. rewrite Hst. cbn [default].
  eexists. split; [reflexivity|]. cbn [listeners stableIds storage].
  split; [reflexivity|]. split; [reflexivity|].
  split; [intros q Hq; apply lookup_insert_ne; congruence|].
  rewrite lookup_insert_eq.
  pose proof (findLastIndexFrom_range (isMainFrameNavigation b page) requests
                (length requests)) as Hrange.
  fold (findLastIndex (isMainFrameNavigation b page) requests) in Hrange.
  destruct (decide (findLastIndex (isMainFrameNavigation b page) requests ≠ -1))
    as [Hne|Heq].
  - exists (Z.to_nat (findLastIndex (isMainFrameNavigation b page) requests)).
    split; [lia|]. split; [reflexivity|]. split; [congruence|]. lia.
  - exists (length requests). split; [lia|].
    rewrite drop_all, firstn_all. split; [reflexivity|]. split; [reflexivity|].
    intros Hne. contradiction.
Qed.

(** C1. Network cut-point correctness. On a tracked page whose current epoch
    is [requests], the Network rotation succeeds; when [requests] is
    [pre ++ r :: post] with [r] the most recent main-frame navigation request
    (none in [post]), the new current epoch is [r :: post], in order, and
    [pre] stays behind as the previous epoch, followed by the older epochs;
    when no request of the current epoch is a main-frame navigation request,
    an empty epoch is pushed in front of the untouched current one. *)
Theorem network_cut_point b page c requests older :
  storage c !! page = Some (requests :: older) ->
  exists c',
    splitAfterNavigationNetwork b page c = Some c'
    /\ onFrameNavigated Network b page c = c'
    /\ (forall pre r post,
          requests = pre ++ r :: post ->
          isMainFrameNavigation b page r = true ->
          (forall x, x ∈ post -> isMainFrameNavigation b page x = false) ->
          storage c' !! page = Some ((r :: post) :: pre :: older))
    /\ ((forall x, x ∈ requests -> isMainFrameNavigation b page x = false) ->
        storage c' !! page = Some ([] :: requests :: older)).
Proof.
  intros Hst.
  destruct (splitAfterNavigationNetwork_storage b page c requests older Hst)
    as (c' & Hsplit & _ & _ & _ & k & Hk & Hst' & Hnone & Hsome).
  exists c'. split; [exact Hsplit|].
  split; [unfold onFrameNavigated; rewrite Hsplit; reflexivity|].
  split.
  - intros pre r post -> Hr Hpost.
    pose proof (findLastIndex_last _ pre post r Hr Hpost) as Hidx.
    assert (k = length pre) as -> by (apply Nat2Z.inj; rewrite Hsome; lia).
    rewrite Hst'. rewrite drop_app_length, take_app_length. reflexivity.
  - intros Hall. rewrite Hst'.
    rewrite (Hnone (findLastIndex_none _ _ Hall)).
    rewrite drop_all, firstn_all. reflexivity.
Qed.

(** C1 at the requests [r1 .. r5] with [r3] the navigation request. *)
Lemma network_cut_point_witness :
  exists c',
    splitAfterNavigationNetwork sampleBrowser 0%nat
      (run Network sampleBrowser empty fiveRequests) = Some c'
    /\ storage c' !! 0%nat = Some [[3; 4; 5]; [1; 2]]%nat.
Proof.
  destruct (network_cut_point sampleBrowser 0%nat
              (run Network sampleBrowser empty fiveRequests)
              [1; 2; 3; 4; 5]%nat [])
    as (c' & Hsplit & _ & Hcut & _).
  - vm_compute. reflexivity.
  - exists c'. split; [exact Hsplit|].
    apply (Hcut [1; 2]%nat 3%nat [4; 5]%nat).
    + reflexivity.
    + reflexivity.
    + intros x Hx. apply list_elem_of_In in Hx.
      destruct Hx as [<-|[<-|[]]]; reflexivity.
Defined.

(** ** How one event changes the collector *)

Lemma elem_of_concat_pushCurrent (x y : Ref) (navigations : list (list Ref)) :
  y ∈ concat (pushCurrent x navigations) -> y = x \/ y ∈ concat navigations.
Proof.
  destruct navigations as [|current older]; cbn; [intros H; right; exact H|].
  rewrite !elem_of_app, list_elem_of_singleton. tauto.
Qed.

Lemma length_pushCurrent (x : Ref) (navigations : list (list Ref)) :
  length (pushCurrent x navigations) = length navigations.
Proof. destruct navigations; reflexivity. Qed.

Lemma elem_of_concat {A} (x : A) (ls : list (list A)) :
  x ∈ concat ls <-> exists l, x ∈ l /\ l ∈ ls.
Proof.
  rewrite list_elem_of_In, in_concat. split.
  - intros (l & Hl & Hx). exists l. rewrite !list_elem_of_In. tauto.
  - intros (l & Hx & Hl). exists l. rewrite <- !list_elem_of_In. tauto.
Qed.

Lemma elem_of_concat_take {A} (n : nat) (l : list (list A)) (x : A) :
  x ∈ concat (take n l) -> x ∈ concat l.
Proof.
  rewrite <- (take_drop n l) at 2. rewrite concat_app, elem_of_app. tauto.
Qed.

(** Without a current epoch to scan, the Network rotation raises. *)
Lemma splitAfterNavigationNetwork_untracked b page c :
  storage c !! page = None \/ storage c !! page = Some [] ->
  splitAfterNavigationNetwork b page c = None.
Proof.
  intros [H|H]; unfold splitAfterNavigationNetwork; rewrite H; reflexivity.
Qed.

(** A rotation, of either policy, rewrites neither the generator nor any
    stored identifier, and every item it retains was retained before. *)
Lemma onFrameNavigated_effect k b page c :
  let c' := onFrameNavigated k b page c in
  listeners c' = listeners c
  /\ stableIds c' = stableIds c
  /\ (forall q, q ≠ page -> storage c' !! q = storage c !! q)
  /\ (forall navigations',
        storage c' !! page = Some navigations' ->
        exists navigations,
          storage c !! page = Some navigations
          /\ forall x, x ∈ concat navigations' -> x ∈ concat navigations).
Proof.
  destruct k; cbn [onFrameNavigated].
  - unfold splitAfterNavigation.
    destruct (storage c !! page) as [navigations|] eqn:Hst.
    + cbn [listeners stableIds storage].
      split; [reflexivity|]. split; [reflexivity|].
      split; [intros q Hq; apply lookup_insert_ne; congruence|].
      intros navigations'. rewrite lookup_insert_eq. intros [= <-].
      exists navigations. split; [reflexivity|].
      intros x Hx. apply elem_of_concat_take in Hx. exact Hx.
    + split; [reflexivity|]. split; [reflexivity|]. split; [reflexivity|].
      intros navigations'. rewrite Hst. discriminate.
  - destruct (storage c !! page) as [[|requests older]|] eqn:Hst.
    + rewrite splitAfterNavigationNetwork_untracked by (right; exact Hst).
      cbn [default from_option id].
      split; [reflexivity|]. split; [reflexivity|]. split; [reflexivity|].
      intros navigations' H. rewrite Hst in H. injection H as <-.
      exists []. split; [reflexivity|]. tauto.
    + destruct (splitAfterNavigationNetwork_storage b page c requests older Hst)
        as (c' & -> & Hl & Hs & Hother & n & Hn & Hst' & _).
      cbn [default from_option id]. split; [exact Hl|]. split; [exact Hs|].
      split; [exact Hother|].
      intros navigations'. rewrite Hst'. intros [= <-].
      exists (requests :: older). split; [reflexivity|].
      intros x. cbn [concat]. rewrite <- (take_drop n requests) at 3.
      rewrite !elem_of_app. tauto.
    + rewrite splitAfterNavigationNetwork_untracked by (left; exact Hst).
      cbn [default from_option id].
      split; [reflexivity|]. split; [reflexivity|]. split; [reflexivity|].
      intros navigations' H. rewrite Hst in H. discriminate.
Qed.

Lemma addPage_effect k page c :
  let c' := addPage k page c in
  stableIds c' = stableIds c
  /\ (storage c !! page = None ->
      storage c' = <[page := [[]]]> (storage c)
      /\ listeners c' = <[page := createIdGenerator]> (listeners c))
  /\ (storage c !! page ≠ None ->
      storage c' = storage c /\ listeners c' = listeners c).
Proof.
  assert (H : forall c0, storage (setupInitiatorCollection page c0) = storage c0
                    /\ listeners (setupInitiatorCollection page c0) = listeners c0
                    /\ stableIds (setupInitiatorCollection page c0) = stableIds c0).
  { intros c0. unfold setupInitiatorCollection.
    destruct (initiators c0 !! page); repeat split; reflexivity. }
  assert (H0 : stableIds (initializePage page c) = stableIds c
               /\ (storage c !! page = None ->
                   storage (initializePage page c) = <[page := [[]]]> (storage c)
                   /\ listeners (initializePage page c)
                      = <[page := createIdGenerator]> (listeners c))
               /\ (storage c !! page ≠ None ->
                   storage (initializePage page c) = storage c
                   /\ listeners (initializePage page c) = listeners c)).
  { unfold initializePage. destruct (storage c !! page) eqn:Hst.
    - split; [reflexivity|]. split; [discriminate|]. intros _. split; reflexivity.
    - split; [reflexivity|]. split; [intros _; split; reflexivity|]. congruence. }
  destruct k; cbn [addPage]; [exact H0|].
  destruct (H (initializePage page c)) as (-> & -> & ->). exact H0.
Qed.

Lemma onRequestWillBeSent_effect page requestId initiator c :
  let c' := onRequestWillBeSent page requestId initiator c in
  storage c' = storage c /\ listeners c' = listeners c /\ stableIds c' = stableIds c.
Proof.
  unfold onRequestWillBeSent.
  destruct (initiators c !! page), initiator; repeat split; reflexivity.
Qed.

(** ** Retention in the generic collector *)

Lemma step_generic_navigationsWithin b c e :
  navigationsWithin maxNavigationSaved c ->
  navigationsWithin maxNavigationSaved (step Generic b c e).
Proof.
  intros Hc. unfold navigationsWithin in *.
  destruct e as [q|q x|q [|]|q|q rid ini]; cbn [step].
  - destruct (addPage_effect Generic q c) as (_ & Hnew & Hold).
    destruct (storage c !! q) eqn:Hq.
    + destruct Hold as [-> _]; [congruence|]. exact Hc.
    + destruct (Hnew eq_refl) as [-> _]. intros page navigations.
      rewrite lookup_insert. case_decide.
      * intros [= <-]. cbn. unfold maxNavigationSaved. lia.
      * apply Hc.
  - destruct (listeners c !! q) as [i|]; [|exact Hc].
    unfold collect. destruct (idGenerator i) as [id i']. cbn [storage].
    destruct (storage c !! q) as [navigations|] eqn:Hq; [|exact Hc].
    intros page navigations'. rewrite lookup_insert. case_decide.
    + intros [= <-]. rewrite length_pushCurrent. subst. eapply Hc; eassumption.
    + apply Hc.
  - destruct (listeners c !! q); [|exact Hc].
    cbn [onFrameNavigated]. unfold splitAfterNavigation.
    destruct (storage c !! q) as [navigations|] eqn:Hq; [|exact Hc].
    cbn [storage]. intros page navigations'. rewrite lookup_insert. case_decide.
    + intros [= <-]. unfold maxNavigationSaved. cbn [take length].
      rewrite length_take. lia.
    + apply Hc.
  - destruct (listeners c !! q); exact Hc.
  - unfold cleanupPageDestroyed. cbn [storage]. intros page navigations.
    rewrite lookup_delete. case_decide; [discriminate|]. apply Hc.
  - destruct (onRequestWillBeSent_effect q rid ini c) as (-> & _). exact Hc.
Qed.

(** Retention bound of the default policy: however many navigations a page of
    the generic collector goes through, it keeps at most three epochs. *)
Lemma generic_retention_bound b evs :
  navigationsWithin maxNavigationSaved (run Generic b empty evs).
Proof.
  unfold run.
  assert (H : navigationsWithin maxNavigationSaved empty).
  { intros page navigations. cbn. rewrite lookup_empty. discriminate. }
  revert H. generalize empty. induction evs as [|e evs IH]; intros c Hc; [exact Hc|].
  cbn [fold_left]. apply IH. apply step_generic_navigationsWithin. exact Hc.
Qed.

(** The Network override never drops an epoch: each rotation of a tracked
    page adds one. *)
Lemma network_rotation_grows b page c navigations :
  storage c !! page = Some navigations ->
  navigations ≠ [] ->
  exists navigations',
    storage (onFrameNavigated Network b page c) !! page = Some navigations'
    /\ length navigations' = S (length navigations).
Proof.
  intros Hst Hne. destruct navigations as [|requests older]; [congruence|].
  destruct (splitAfterNavigationNetwork_storage b page c requests older Hst)
    as (c' & Hsplit & _ & _ & _ & n & _ & Hst' & _).
  cbn [onFrameNavigated]. rewrite Hsplit. cbn [default from_option id].
  eexists. split; [exact Hst'|]. reflexivity.
Qed.

(** ** Tracked pages always have a current epoch *)

Lemma onFrameNavigated_tracked k b page c :
  (storage (onFrameNavigated k b page c) !! page = None <-> storage c !! page = None)
  /\ (storage c !! page ≠ Some [] ->
      storage (onFrameNavigated k b page c) !! page ≠ Some []).
Proof.
  destruct k; cbn [onFrameNavigated].
  - unfold splitAfterNavigation.
    destruct (storage c !! page) as [navigations|] eqn:Hst.
    + cbn [storage]. rewrite lookup_insert_eq. split; [split; discriminate|].
      intros _. unfold maxNavigationSaved. cbn [take]. discriminate.
    + rewrite Hst. split; [tauto|discriminate].
  - destruct (storage c !! page) as [[|requests older]|] eqn:Hst.
    + rewrite splitAfterNavigationNetwork_untracked by (right; exact Hst).
      cbn [default from_option id]. rewrite Hst. split; [tauto|congruence].
    + destruct (splitAfterNavigationNetwork_storage b page c requests older Hst)
        as (c' & -> & _ & _ & _ & n & _ & Hst' & _).
      cbn [default from_option id]. rewrite Hst'.
      split; [split; discriminate|]. intros _. discriminate.
    + rewrite splitAfterNavigationNetwork_untracked by (left; exact Hst).
      cbn [default from_option id]. rewrite Hst. split; [tauto|discriminate].
Qed.

Lemma step_wellTracked k b c e :
  wellTracked c -> wellTracked (step k b c e).
Proof.
  intros Hc. destruct e as [q|q x|q [|]|q|q rid ini]; cbn [step].
  - destruct (addPage_effect k q c) as (_ & Hnew & Hold).
    destruct (storage c !! q) eqn:Hq.
    + destruct Hold as [Hst Hl]; [congruence|].
      intros page. rewrite Hst, Hl. apply Hc.
    + destruct (Hnew eq_refl) as [Hst Hl].
      intros page. rewrite Hst, Hl.
      destruct (decide (page = q)) as [->|Hne];
        rewrite ?lookup_insert_eq, ?lookup_insert_ne by congruence; [|apply Hc].
      split; [split; discriminate|discriminate].
  - destruct (listeners c !! q) as [i|] eqn:Hl; [|exact Hc].
    unfold collect. destruct (idGenerator i) as [id i'].
    intros page. cbn [storage listeners].
    destruct (storage c !! q) as [navigations|] eqn:Hst.
    + destruct (decide (page = q)) as [->|Hne];
        rewrite ?lookup_insert_eq, ?lookup_insert_ne by congruence; [|apply Hc].
      split; [split; discriminate|].
      destruct navigations as [|current older]; [|discriminate].
      destruct (Hc q) as [_ Hne]. congruence.
    + destruct (Hc q) as [[_ Hnone] _]. rewrite Hnone in Hl by exact Hst.
      discriminate.
  - destruct (listeners c !! q) eqn:Hl; [|exact Hc].
    destruct (onFrameNavigated_effect k b q c) as (Hl' & _ & Hother & _).
    destruct (onFrameNavigated_tracked k b q c) as [Hnone Hnonempty].
    intros page. rewrite Hl'. destruct (decide (page = q)) as [->|Hne].
    + destruct (Hc q) as [Hiff Hne]. split; [rewrite Hnone; exact Hiff|].
      apply Hnonempty. exact Hne.
    + rewrite Hother by exact Hne. apply Hc.
  - destruct (listeners c !! q); exact Hc.
  - unfold cleanupPageDestroyed. intros page. cbn [storage listeners].
    destruct (decide (page = q)) as [->|Hne].
    + rewrite !lookup_delete_eq. split; [tauto|discriminate].
    + rewrite !lookup_delete_ne by congruence. apply Hc.
  - destruct (onRequestWillBeSent_effect q rid ini c) as (Hst & Hl & _).
    intros page. rewrite Hst, Hl. apply Hc.
Qed.

Lemma run_wellTracked k b evs : wellTracked (run k b empty evs).
Proof.
  unfold run.
  assert (H : wellTracked empty).
  { intros page. cbn. rewrite !lookup_empty. split; [tauto|discriminate]. }
  revert H. generalize empty. induction evs as [|e evs IH]; intros c Hc; [exact Hc|].
  cbn [fold_left]. apply IH. apply step_wellTracked. exact Hc.
Qed.

Lemma reachable_storage_nonempty k b evs page navigations :
  storage (run k b empty evs) !! page = Some navigations -> navigations ≠ [].
Proof.
  intros Hst ->. destruct (run_wellTracked k b evs page) as [_ Hne]. congruence.
Qed.

(** On the pages whose listeners are installed, the Network rotation finds a
    current epoch to scan: its [TypeError] is never raised. *)
Lemma network_rotation_never_raises b evs page i :
  listeners (run Network b empty evs) !! page = Some i ->
  is_Some (splitAfterNavigationNetwork b page (run Network b empty evs)).
Proof.
  intros Hl. destruct (run_wellTracked Network b evs page) as [[_ Hnone] Hne].
  destruct (storage (run Network b empty evs) !! page) as [[|requests older]|] eqn:Hst.
  - congruence.
  - destruct (splitAfterNavigationNetwork_storage b page _ requests older Hst)
      as (c' & -> & _). eexists. reflexivity.
  - rewrite Hnone in Hl by reflexivity. discriminate.
Qed.

(** ** Stable identifiers *)

(** Only the collection of [x] itself writes the identifier of [x]. *)
Lemma step_stableIds_other k b c e x :
  (forall p, e ≠ Collected p x) ->
  stableIds (step k b c e) !! x = stableIds c !! x.
Proof.
  intros Hne. destruct e as [q|q y|q [|]|q|q rid ini]; cbn [step].
  - destruct (addPage_effect k q c) as (-> & _). reflexivity.
  - destruct (listeners c !! q) as [i|]; [|reflexivity].
    unfold collect. destruct (idGenerator i) as [id i']. cbn [stableIds].
    apply lookup_insert_ne. intros ->. exact (Hne q eq_refl).
  - destruct (listeners c !! q); [|reflexivity].
    destruct (onFrameNavigated_effect k b q c) as (_ & -> & _). reflexivity.
  - destruct (listeners c !! q); reflexivity.
  - reflexivity.
  - destruct (onRequestWillBeSent_effect q rid ini c) as (_ & _ & ->). reflexivity.
Qed.

Lemma run_stableIds_other k b c evs x :
  (forall p, Collected p x ∉ evs) ->
  stableIds (run k b c evs) !! x = stableIds c !! x.
Proof.
  unfold run. revert c. induction evs as [|e evs IH]; intros c Hevs; [reflexivity|].
  cbn [fold_left]. rewrite IH.
  - apply step_stableIds_other. intros p ->. apply (Hevs p). left.
  - intros p Hp. apply (Hevs p). right. exact Hp.
Qed.

Lemma idsFresh_mono owned page n n' c :
  n <= n' -> idsFresh owned page n c -> idsFresh owned page n' c.
Proof.
  intros Hle Hc navigations Hst.
  destruct (Hc navigations Hst) as (i & Hi & Hrange & Hids & Hinj).
  exists i. split; [exact Hi|]. split; [lia|]. split; assumption.
Qed.

Lemma step_idsFresh k b owned page n c e :
  0 <= n ->
  idsFresh owned page n c ->
  (forall q z, e = Collected q z -> q = page <-> owned z) ->
  n + (if isCollectedOn page e then 1 else 0) < MAX_SAFE_INTEGER ->
  idsFresh owned page (n + (if isCollectedOn page e then 1 else 0)) (step k b c e).
Proof.
  intros Hn Hc Hpage Hbound.
  destruct e as [q|q x|q [|]|q|q rid ini]; cbn [step isCollectedOn] in *;
    rewrite ?Z.add_0_r.
  - (* TargetCreated *)
    destruct (addPage_effect k q c) as (Hs & Hnew & Hold).
    destruct (storage c !! q) eqn:Hq.
    + destruct Hold as [Hst Hl]; [congruence|].
      intros navigations. rewrite Hst, Hl, Hs. apply Hc.
    + destruct (Hnew eq_refl) as [Hst Hl].
      intros navigations. rewrite Hst, Hl, Hs.
      destruct (decide (q = page)) as [->|Hne].
      * rewrite !lookup_insert_eq. intros [= <-].
        exists createIdGenerator. split; [reflexivity|].
        unfold createIdGenerator. split; [lia|]. cbn [concat].
        split; [intros x Hx|intros x y Hx]; apply elem_of_nil in Hx; destruct Hx.
      * rewrite !lookup_insert_ne by congruence. apply Hc.
  - (* Collected *)
    destruct (decide (q = page)) as [->|Hne].
    + (* on the page itself *)
      rewrite bool_decide_eq_true_2 in * by reflexivity.
      assert (Hx : owned x) by (apply (Hpage page x eq_refl); reflexivity).
      destruct (listeners c !! page) as [i0|] eqn:Hl;
        [|apply (idsFresh_mono owned page n); [lia|exact Hc]].
      destruct (storage c !! page) as [navigations|] eqn:Hst.
      * destruct (Hc navigations Hst) as (i & Hi & Hrange & Hids & Hinj).
        assert (i0 = i) as -> by congruence.
        unfold collect. rewrite IdGeneratorSpec.idGenerator_below by lia.
        rewrite Hst. intros navigations'. cbn [storage listeners stableIds].
        rewrite !lookup_insert_eq. intros [= <-].
        exists (i + 1). split; [reflexivity|]. split; [lia|]. split.
        -- intros y Hy. apply elem_of_concat_pushCurrent in Hy.
           destruct (decide (y = x)) as [->|Hyx].
           ++ split; [exact Hx|]. exists i. rewrite lookup_insert_eq.
              split; [reflexivity|]. lia.
           ++ destruct Hy as [->|Hy]; [congruence|].
              destruct (Hids y Hy) as (Hown & id & Hid & Hr).
              split; [exact Hown|]. exists id.
              rewrite lookup_insert_ne by congruence. split; [exact Hid|]. lia.
        -- intros y z Hy Hz. apply elem_of_concat_pushCurrent in Hy, Hz.
           destruct (decide (y = x)) as [->|Hyx], (decide (z = x)) as [->|Hzx];
             rewrite ?lookup_insert_eq, ?lookup_insert_ne by congruence.
           ++ reflexivity.
           ++ destruct Hz as [->|Hz]; [congruence|].
              destruct (Hids z Hz) as (_ & id & -> & Hr). intros [= <-]. lia.
           ++ destruct Hy as [->|Hy]; [congruence|].
              destruct (Hids y Hy) as (_ & id & -> & Hr). intros [= ->]. lia.
           ++ destruct Hy as [->|Hy]; [congruence|].
              destruct Hz as [->|Hz]; [congruence|]. apply Hinj; assumption.
      * unfold collect. destruct (idGenerator i0) as [id i']. rewrite Hst.
        intros navigations'. cbn [storage]. rewrite Hst. discriminate.
    + (* on another page: the object is not one of this page's *)
      rewrite bool_decide_eq_false_2 by exact Hne. rewrite Z.add_0_r.
      assert (Hx : ~ owned x) by (intros Hx; apply Hne, (Hpage q x eq_refl); exact Hx).
      destruct (listeners c !! q) as [iq|] eqn:Hl; [|exact Hc].
      unfold collect. destruct (idGenerator iq) as [id i'].
      intros navigations'. cbn [storage listeners stableIds].
      assert (Hst : match storage c !! q with
                    | Some navigations => <[q:=pushCurrent x navigations]> (storage c)
                    | None => storage c
                    end !! page = storage c !! page).
      { destruct (storage c !! q); [apply lookup_insert_ne; congruence|reflexivity]. }
      rewrite Hst, lookup_insert_ne by congruence. intros Hnav.
      destruct (Hc navigations' Hnav) as (i & Hi & Hrange & Hids & Hinj).
      assert (Hother : forall y, y ∈ concat navigations' ->
                 <[x:=id]> (stableIds c) !! y = stableIds c !! y).
      { intros y Hy. apply lookup_insert_ne. intros ->.
        destruct (Hids y Hy) as [Hown _]. exact (Hx Hown). }
      exists i. split; [exact Hi|]. split; [exact Hrange|]. split.
      * intros y Hy. rewrite (Hother y Hy). apply Hids. exact Hy.
      * intros y z Hy Hz. rewrite (Hother y Hy), (Hother z Hz).
        apply Hinj; assumption.
  - (* main-frame navigation *)
    destruct (listeners c !! q) eqn:Hl; [|exact Hc].
    destruct (onFrameNavigated_effect k b q c) as (Hl' & Hs' & Hother & Hsub).
    intros navigations'. rewrite Hl', Hs'.
    destruct (decide (q = page)) as [->|Hne].
    + intros Hst'. destruct (Hsub navigations' Hst') as (navigations & Hst & Hin).
      destruct (Hc navigations Hst) as (i & Hi & Hrange & Hids & Hinj).
      exists i. split; [exact Hi|]. split; [exact Hrange|]. split.
      * intros x Hx. apply Hids, Hin, Hx.
      * intros x y Hx Hy. apply Hinj; apply Hin; assumption.
    + rewrite Hother by congruence. apply Hc.
  - (* navigation of another frame *)
    destruct (listeners c !! q); exact Hc.
  - (* TargetDestroyed *)
    unfold cleanupPageDestroyed. intros navigations.
    cbn [storage listeners stableIds].
    destruct (decide (q = page)) as [->|Hne].
    + rewrite lookup_delete_eq. discriminate.
    + rewrite !lookup_delete_ne by congruence. apply Hc.
  - (* RequestWillBeSent *)
    destruct (onRequestWillBeSent_effect q rid ini c) as (Hst & Hl & Hs).
    intros navigations. rewrite Hst, Hl, Hs. apply Hc.
Qed.

Lemma collectedCount_cons page e evs :
  Z.of_nat (collectedCount page (e :: evs))
  = (if isCollectedOn page e then 1 else 0) + Z.of_nat (collectedCount page evs).
Proof.
  unfold collectedCount. cbn [List.filter].
  destruct (isCollectedOn page e); cbn [length]; lia.
Qed.

Lemma run_idsFresh k b owned page evs : forall n c,
  0 <= n ->
  idsFresh owned page n c ->
  (forall q z, Collected q z ∈ evs -> q = page <-> owned z) ->
  n + Z.of_nat (collectedCount page evs) < MAX_SAFE_INTEGER ->
  idsFresh owned page (n + Z.of_nat (collectedCount page evs)) (run k b c evs).
Proof.
  unfold run. induction evs as [|e evs IH]; intros n c Hn Hc Hpage Hbound.
  - cbn. rewrite Z.add_0_r. exact Hc.
  - rewrite collectedCount_cons in *. cbn [fold_left].
    rewrite Z.add_assoc. apply IH.
    + destruct (isCollectedOn page e); lia.
    + apply step_idsFresh;
        [exact Hn|exact Hc| |destruct (isCollectedOn page e); lia].
      intros q z ->. apply (Hpage q z). left.
    + intros q z Hin. apply (Hpage q z). right. exact Hin.
    + lia.
Qed.

Lemma idsFresh_empty owned page : idsFresh owned page 0 empty.
Proof. intros navigations. cbn. rewrite lookup_empty. discriminate. Qed.

(** Stability in the generic collector and in the Network specialization
    ([k]): whatever events follow, navigation rotations among them,
    [getIdForResource x] keeps its value as long as [x] itself is not handed
    to the collector again. *)
Lemma collector_ids_stable k b c evs x :
  (forall p, Collected p x ∉ evs) ->
  getIdForResource (run k b c evs) x = getIdForResource c x.
Proof.
  intros Hx. unfold getIdForResource.
  rewrite run_stableIds_other by exact Hx. reflexivity.
Qed.

(** Uniqueness in the generic collector and in the Network specialization:
    in a trace where the objects produced on [page] are produced on no other
    page and fewer than [MAX_SAFE_INTEGER] of them are produced, two distinct
    items retained for [page] carry distinct identifiers, both positive. *)
Lemma collector_ids_unique k b page evs navigations x y :
  (forall q z, Collected q z ∈ evs -> Collected page z ∈ evs -> q = page) ->
  Z.of_nat (collectedCount page evs) < MAX_SAFE_INTEGER ->
  storage (run k b empty evs) !! page = Some navigations ->
  x ∈ concat navigations ->
  y ∈ concat navigations ->
  x ≠ y ->
  1 <= getIdForResource (run k b empty evs) x
  /\ getIdForResource (run k b empty evs) x
     ≠ getIdForResource (run k b empty evs) y.
Proof.
  intros Hpage Hbound Hst Hx Hy Hne.
  destruct (run_idsFresh k b (fun z => Collected page z ∈ evs) page evs 0 empty
              ltac:(lia) (idsFresh_empty _ page)) with (navigations := navigations)
    as (i & Hi & Hrange & Hids & Hinj).
  - intros q z Hin. split; [intros <-; exact Hin|apply Hpage; exact Hin].
  - lia.
  - exact Hst.
  - unfold getIdForResource.
    destruct (Hids x Hx) as (_ & idx & Hidx & Hrx).
    destruct (Hids y Hy) as (_ & idy & Hidy & Hry).
    rewrite Hidx, Hidy. cbn. split; [lia|].
    intros Heq. apply Hne, Hinj; [assumption..|]. congruence.
Qed.

(** ** [getData] with preserved data *)

Lemma getDataLoop_spec (navigations : list (list Ref)) (index : nat) : forall data,
  getDataLoop navigations index data
  = data ++ concat (reverse (take (S index) navigations)).
Proof.
  induction index as [|index IH]; intros data.
  - cbn [getDataLoop]. destruct navigations as [|n0 rest]; cbn.
    + rewrite app_nil_r. reflexivity.
    + rewrite take_0. cbn. rewrite app_nil_r. reflexivity.
  - cbn [getDataLoop]. rewrite IH.
    destruct (navigations !! S index) as [navigation|] eqn:Hn.
    + rewrite (take_S_r navigations (S index) navigation Hn).
      rewrite reverse_snoc. cbn [concat]. rewrite <- app_assoc. reflexivity.
    + apply lookup_ge_None in Hn.
      rewrite (take_ge navigations (S index)) by lia.
      rewrite (take_ge navigations (S (S index))) by lia. reflexivity.
Qed.

(** Epochs are concatenated oldest first: an item of the epoch at the larger
    index comes before an item of the epoch at the smaller index. *)
Lemma concat_reverse_chronological {A} (navigations : list (list A)) (i j : nat)
    (older newer : list A) (a b : A) :
  (i < j)%nat ->
  navigations !! j = Some older ->
  navigations !! i = Some newer ->
  a ∈ older -> b ∈ newer ->
  appearsBefore a b (concat (reverse navigations)).
Proof.
  intros Hij Hj Hi Ha Hb.
  pose proof (take_drop_middle navigations i newer Hi) as Hsplit1.
  assert (Hj' : drop (S i) navigations !! (j - S i)%nat = Some older).
  { rewrite lookup_drop. replace (S i + (j - S i))%nat with j by lia. exact Hj. }
  pose proof (take_drop_middle _ _ _ Hj') as Hsplit2.
  apply list_elem_of_split in Ha as (o1 & o2 & ->).
  apply list_elem_of_split in Hb as (w1 & w2 & ->).
  rewrite <- Hsplit1, <- Hsplit2.
  set (n1 := take i navigations).
  set (n2 := take (j - S i) (drop (S i) navigations)).
  set (n3 := drop (S (j - S i)) (drop (S i) navigations)).
  exists (concat (reverse n3) ++ o1), (o2 ++ concat (reverse n2) ++ w1),
    (w2 ++ concat (reverse n1)).
  rewrite reverse_app, reverse_cons, reverse_app, reverse_cons.
  rewrite !concat_app. cbn [concat]. rewrite !app_nil_r.
  repeat (rewrite <- app_assoc; cbn [app]). reflexivity.
Qed.

Lemma getDataLoop_chronological (navigations : list (list Ref)) (i j : nat)
    (older newer : list Ref) (a b : Ref) :
  (i < j <= maxNavigationSaved)%nat ->
  navigations !! j = Some older ->
  navigations !! i = Some newer ->
  a ∈ older -> b ∈ newer ->
  appearsBefore a b (getDataLoop navigations maxNavigationSaved []).
Proof.
  intros Hij Hj Hi Ha Hb. rewrite getDataLoop_spec. cbn [app].
  apply (concat_reverse_chronological _ i j older newer); try assumption; try lia.
  - rewrite lookup_take_lt by lia. exact Hj.
  - rewrite lookup_take_lt by lia. exact Hi.
Qed.

Lemma getDataLoop_all (navigations : list (list Ref)) :
  (length navigations <= S maxNavigationSaved)%nat ->
  getDataLoop navigations maxNavigationSaved [] = concat (reverse navigations).
Proof.
  intros Hlen. rewrite getDataLoop_spec. cbn [app].
  rewrite take_ge by exact Hlen. reflexivity.
Qed.

(** Every answer of a query is an item of a retained epoch. *)
Lemma findIn_retained (filter : Ref -> bool) (navigations : list (list Ref)) (x : Ref) :
  findIn filter navigations = Some x -> x ∈ concat navigations /\ filter x = true.
Proof.
  induction navigations as [|navigation older IH]; cbn [findIn]; [discriminate|].
  destruct (List.find filter navigation) as [item|] eqn:Hfind.
  - intros [= ->]. apply find_some in Hfind as [Hin Hf].
    split; [|exact Hf]. cbn [concat]. apply elem_of_app. left.
    apply list_elem_of_In. exact Hin.
  - intros H. destruct (IH H) as [Hin Hf]. split; [|exact Hf].
    cbn [concat]. apply elem_of_app. right. exact Hin.
Qed.

Lemma getData_retained c page navigations includePreservedData x :
  storage c !! page = Some navigations ->
  x ∈ getData c page includePreservedData -> x ∈ concat navigations.
Proof.
  intros Hst. unfold getData. rewrite Hst.
  destruct includePreservedData; cbn [negb].
  - rewrite getDataLoop_spec. cbn [app]. intros Hx.
    apply elem_of_concat in Hx as (l & Hxl & Hl).
    rewrite elem_of_reverse in Hl. apply elem_of_take in Hl as (i & Hi & _).
    apply elem_of_concat. exists l. split; [exact Hxl|].
    eapply list_elem_of_lookup_2; exact Hi.
  - destruct navigations as [|current older]; cbn.
    + intros H. apply elem_of_nil in H. destruct H.
    + intros H. apply elem_of_app. left. exact H.
Qed.

(** What the generic collector answers after the trace [fourNavigations]:
    three epochs are retained and the item of the first epoch is out of reach. *)
Lemma generic_four_navigations :
  let c := run Generic noNavigationBrowser empty fourNavigations in
  storage c !! 0%nat = Some [[5]; [4]; [3]]%nat
  /\ getData c 0%nat true = [3; 4; 5]%nat
  /\ find c 0%nat (fun x => (x =? 1)%nat) = None
  /\ getById c 0%nat 1 = inl "Request not found for selected page"%string.
Proof. vm_compute. repeat split; reflexivity. Qed.

(** C2, evaluated on the code. With the Network collector and the trace
    [fourNavigations] (four main-frame navigations of page 0, one request
    captured before each and one after the last), the rotation never
    truncates: five epochs are retained instead of at most three,
    [getData(page, true)] returns the items of four epochs, and the request of
    the oldest epoch (stable ID 1) is still found by [find] and [getById]. *)
Theorem network_retention_not_truncated :
  let c := run Network noNavigationBrowser empty fourNavigations in
  storage c !! 0%nat = Some [[5]; [4]; [3]; [2]; [1]]%nat
  /\ getData c 0%nat true = [2; 3; 4; 5]%nat
  /\ find c 0%nat (fun x => (x =? 1)%nat) = Some 1%nat
  /\ getById c 0%nat 1 = inr 1%nat.
Proof. vm_compute. repeat split; reflexivity. Qed.

End PageCollectorSpec.

(* ===================================================================== *)
(** * Properties of the WebSocket collector *)
(* ===================================================================== *)

Module WebSocketCollectorSpec.

Import IdGenerator WebSocketCollector.

(** ** Events for connections the handlers do not know *)

Lemma lookupConnection_handlerTable c page l id :
  cdpListeners c !! page = Some l ->
  (forall m, handlerTable c page = Some m -> m !! id = None) ->
  lookupConnection c l id = None.
Proof.
  intros Hl Hunknown. unfold lookupConnection.
  unfold handlerTable in Hunknown. rewrite Hl in Hunknown. cbn in Hunknown.
  destruct (maps c !! capturedConnectionMap l) as [m|]; [|reflexivity].
  cbn. apply Hunknown. reflexivity.
Qed.

Lemma unknown_connection_dropped c page id t op data :
  (forall m, handlerTable c page = Some m -> m !! id = None) ->
  step c (WebSocketFrameSent page id t op data) = c
  /\ step c (WebSocketFrameReceived page id t op data) = c
  /\ step c (WebSocketClosed page id t) = c.
Proof.
  intros Hunknown. cbn [step]. unfold deliver.
  destruct (cdpListeners c !! page) as [l|] eqn:Hl; [|repeat split; reflexivity].
  pose proof (lookupConnection_handlerTable c page l id Hl Hunknown) as Hnone.
  unfold onFrameSent, onFrameReceived, onFrame, onClosed. rewrite Hnone.
  repeat split; reflexivity.
Qed.

(** ** Ownership of the lookup tables *)

Lemma mutate_tables r f c :
  cdpListeners (mutate r f c) = cdpListeners c
  /\ maps (mutate r f c) = maps c
  /\ nextMap (mutate r f c) = nextMap c
  /\ storage (mutate r f c) = storage c.
Proof. repeat split; reflexivity. Qed.

Lemma tablesOwned_weaken announced announced' c :
  (forall x, x ∈ announced -> x ∈ announced') ->
  tablesOwned announced c -> tablesOwned announced' c.
Proof.
  intros Hsub (H1 & H2 & H3). split; [exact H1|]. split; [exact H2|].
  intros page l m id r Hl Hm Hid. apply Hsub. eapply H3; eassumption.
Qed.

Lemma tablesOwned_same_tables announced c c' :
  cdpListeners c' = cdpListeners c ->
  maps c' = maps c ->
  nextMap c' = nextMap c ->
  tablesOwned announced c -> tablesOwned announced c'.
Proof.
  intros Hl Hm Hn (H1 & H2 & H3). unfold tablesOwned.
  rewrite Hl, Hm, Hn. split; [exact H1|]. split; [exact H2|exact H3].
Qed.

Lemma splitAfterNavigation_tablesOwned announced page c :
  tablesOwned announced c -> tablesOwned announced (splitAfterNavigation page c).
Proof.
  intros (H1 & H2 & H3). unfold splitAfterNavigation.
  destruct (storage c !! page) as [navigations|];
    [|split; [exact H1|split; [exact H2|exact H3]]].
  unfold tablesOwned. cbn [cdpListeners maps nextMap].
  split; [intros q l Hl; specialize (H1 q l Hl); lia|].
  split; [exact H2|].
  intros q l m id r Hl. specialize (H1 q l Hl).
  rewrite lookup_insert_ne by lia. apply H3. exact Hl.
Qed.

Lemma iter_splitAfterNavigation_tablesOwned announced page n c :
  tablesOwned announced c ->
  tablesOwned announced (Nat.iter n (splitAfterNavigation page) c).
Proof.
  intros Hc. induction n as [|n IH]; [exact Hc|].
  cbn [Nat.iter nat_rect]. apply splitAfterNavigation_tablesOwned. exact IH.
Qed.

Lemma step_tablesOwned announced c e :
  tablesOwned announced c ->
  tablesOwned (announced ++ announcedBy e) (step c e).
Proof.
  intros Hc.
  assert (Hweak : forall c', tablesOwned announced c' ->
                        tablesOwned (announced ++ announcedBy e) c').
  { intros c'. apply tablesOwned_weaken. intros x Hx. apply elem_of_app. tauto. }
  destruct e as [q|q id u ini now|q id t op data|q id t op data|q id t|q [|]|q];
    cbn [step].
  - (* TargetCreated *)
    apply Hweak. unfold addPage.
    destruct (storage c !! q) as [navigations|]; [exact Hc|].
    destruct Hc as (H1 & H2 & H3).
    unfold tablesOwned. cbn [cdpListeners maps nextMap capturedConnectionMap].
    split; [|split].
    + intros p l. rewrite lookup_insert. case_decide.
      * intros [= <-]. cbn. lia.
      * intros Hl. specialize (H1 p l Hl). lia.
    + intros p p' l l' Hne.
      destruct (decide (p = q)) as [->|Hp], (decide (p' = q)) as [->|Hp'];
        rewrite ?lookup_insert_eq, ?lookup_insert_ne by congruence.
      * congruence.
      * intros [= <-] Hl'. specialize (H1 p' l' Hl'). cbn. lia.
      * intros Hl [= <-]. specialize (H1 p l Hl). cbn. lia.
      * apply H2. exact Hne.
    + intros p l m id r. rewrite lookup_insert. case_decide.
      * intros [= <-]. cbn. rewrite lookup_insert_eq. intros [= <-].
        rewrite lookup_empty. discriminate.
      * intros Hl. specialize (H1 p l Hl).
        rewrite lookup_insert_ne by lia. apply H3. exact Hl.
  - (* WebSocketCreated *)
    unfold deliver. destruct (cdpListeners c !! q) as [lq|] eqn:Hq;
      [|apply Hweak; exact Hc].
    unfold onCreated. destruct (idGenerator (generator lq)) as [sid i'].
    eapply tablesOwned_same_tables; [apply mutate_tables..|].
    destruct Hc as (H1 & H2 & H3).
    unfold tablesOwned. cbn [cdpListeners maps nextMap capturedConnectionMap announcedBy].
    split; [|split].
    + intros p l. rewrite lookup_insert. case_decide.
      * intros [= <-]. cbn. apply (H1 q lq Hq).
      * apply H1.
    + intros p p' l l' Hne.
      destruct (decide (p = q)) as [->|Hp], (decide (p' = q)) as [->|Hp'];
        rewrite ?lookup_insert_eq, ?lookup_insert_ne by congruence.
      * congruence.
      * intros [= <-] Hl'. cbn. apply (H2 q p' lq l'); assumption.
      * intros Hl [= <-]. cbn. apply (H2 p q l lq); assumption.
      * apply H2. exact Hne.
    + intros p l m id' r. destruct (decide (p = q)) as [->|Hp];
        rewrite ?lookup_insert_eq, ?lookup_insert_ne by congruence.
      * intros [= <-]. cbn [capturedConnectionMap].
        rewrite lookup_alter_eq.
        destruct (maps c !! capturedConnectionMap lq) as [m0|] eqn:Hm0;
          cbn; [|discriminate].
        intros [= <-]. rewrite lookup_insert. case_decide.
        -- subst id'. intros _. apply elem_of_app. right. left.
        -- intros Hr. apply elem_of_app. left. eapply H3; eassumption.
      * intros Hl.
        rewrite lookup_alter_ne by (apply not_eq_sym, (H2 p q l lq); assumption).
        intros Hm Hr. apply elem_of_app. left. eapply H3; eassumption.
  - (* WebSocketFrameSent *)
    apply Hweak. unfold deliver. destruct (cdpListeners c !! q) as [lq|]; [|exact Hc].
    unfold onFrameSent, onFrame. destruct (lookupConnection c lq id); [|exact Hc].
    eapply tablesOwned_same_tables; [apply mutate_tables..|exact Hc].
  - (* WebSocketFrameReceived *)
    apply Hweak. unfold deliver. destruct (cdpListeners c !! q) as [lq|]; [|exact Hc].
    unfold onFrameReceived, onFrame. destruct (lookupConnection c lq id); [|exact Hc].
    eapply tablesOwned_same_tables; [apply mutate_tables..|exact Hc].
  - (* WebSocketClosed *)
    apply Hweak. unfold deliver. destruct (cdpListeners c !! q) as [lq|]; [|exact Hc].
    unfold onClosed. destruct (lookupConnection c lq id); [|exact Hc].
    eapply tablesOwned_same_tables; [apply mutate_tables..|].
    eapply tablesOwned_same_tables; [apply mutate_tables..|exact Hc].
  - (* main-frame navigation *)
    apply Hweak. apply iter_splitAfterNavigation_tablesOwned. exact Hc.
  - apply Hweak. exact Hc.
  - (* TargetDestroyed *)
    apply Hweak. destruct Hc as (H1 & H2 & H3).
    unfold tablesOwned, cleanupPage. cbn [cdpListeners maps nextMap].
    split; [|split].
    + intros p l. rewrite lookup_delete. case_decide; [discriminate|]. apply H1.
    + intros p p' l l' Hne. rewrite !lookup_delete.
      repeat case_decide; try discriminate. apply H2. exact Hne.
    + intros p l m id r. rewrite lookup_delete. case_decide; [discriminate|]. apply H3.
Qed.

Lemma run_tablesOwned evs : forall announced c,
  tablesOwned announced c ->
  tablesOwned (announced ++ concat (map announcedBy evs)) (run c evs).
Proof.
  unfold run. induction evs as [|e evs IH]; intros announced c Hc.
  - cbn. rewrite app_nil_r. exact Hc.
  - cbn [fold_left map concat]. rewrite app_assoc. apply IH.
    apply step_tablesOwned. exact Hc.
Qed.

Lemma tablesOwned_empty : tablesOwned [] empty.
Proof.
  unfold tablesOwned, empty. cbn.
  split; [|split]; intros *; rewrite lookup_empty; discriminate.
Qed.

Lemma elem_of_concat_announced evs page id :
  (page, id) ∈ concat (map announcedBy evs) ->
  exists u ini now, WebSocketCreated page id u ini now ∈ evs.
Proof.
  induction evs as [|e evs IH]; cbn [map concat].
  - intros H. apply elem_of_nil in H. destruct H.
  - rewrite elem_of_app. intros [He|Hevs].
    + destruct e; cbn [announcedBy] in He;
        try (apply elem_of_nil in He; destruct He).
      apply list_elem_of_singleton in He. injection He as <- <-.
      eexists _, _, _. left.
    + destruct (IH Hevs) as (u & ini & now & Hin).
      exists u, ini, now. right. exact Hin.
Qed.

(** A connection identifier that no [created] event announced on the page has
    no entry in the table the page's handlers consult. *)
Lemma never_announced_unknown evs page id :
  (forall u ini now, WebSocketCreated page id u ini now ∉ evs) ->
  forall m, handlerTable (run empty evs) page = Some m -> m !! id = None.
Proof.
  intros Hnever m Hm.
  destruct (run_tablesOwned evs [] empty tablesOwned_empty) as (_ & _ & H3).
  destruct (m !! id) as [r|] eqn:Hr; [exfalso|reflexivity].
  unfold handlerTable in Hm.
  destruct (cdpListeners (run empty evs) !! page) as [l|] eqn:Hl; [|discriminate].
  cbn in Hm. specialize (H3 page l m id r Hl Hm Hr).
  cbn [app] in H3. apply elem_of_concat_announced in H3.
  destruct H3 as (u & ini & now & Hin). exact (Hnever u ini now Hin).
Qed.

(** ** The table reset of the rotation *)

(** The rotation registers a fresh, empty table for the page ... *)
Lemma splitAfterNavigation_registeredTable page c navigations :
  storage c !! page = Some navigations ->
  registeredTable (splitAfterNavigation page c) page = Some ∅.
Proof.
  intros Hst. unfold registeredTable, splitAfterNavigation. rewrite Hst.
  cbn [connectionMap maps]. rewrite lookup_insert_eq. cbn.
  apply lookup_insert_eq.
Qed.

(** ... while the table the installed handlers read is the one they captured. *)
Lemma splitAfterNavigation_handlerTable announced page c q :
  tablesOwned announced c ->
  handlerTable (splitAfterNavigation page c) q = handlerTable c q.
Proof.
  intros (H1 & _). unfold handlerTable, splitAfterNavigation.
  destruct (storage c !! page) as [navigations|]; [|reflexivity].
  cbn [cdpListeners maps].
  destruct (cdpListeners c !! q) as [l|] eqn:Hl; [|reflexivity].
  cbn. specialize (H1 q l Hl). apply lookup_insert_ne. lia.
Qed.

(** C3, evaluated on the code. In the trace [frameAfterNavigation] the
    connection ["ws-1"] is created on page 0, the main frame navigates, and a
    frame is sent on ["ws-1"]. The rotation has registered an empty table for
    the page, but the handlers still look the ID up in the table they captured
    when they were installed: the frame is not dropped, it is appended to the
    connection record of the previous epoch, and a later closed event for
    ["ws-1"] marks that record closed. *)
Theorem navigation_keeps_handler_table :
  let c := run empty frameAfterNavigation in
  storage c !! 0%nat = Some [[]; [0%nat]]
  /\ registeredTable c 0%nat ≫= (fun m => m !! "ws-1"%string) = None
  /\ handlerTable c 0%nat ≫= (fun m => m !! "ws-1"%string) = Some 0%nat
  /\ length (framesOf c 0%nat) = 1%nat
  /\ statusOf c 0%nat = Some open
  /\ statusOf (step c (WebSocketClosed 0%nat "ws-1" 6%float)) 0%nat = Some closed.
Proof. vm_compute. repeat split; reflexivity. Qed.

(** ** Retention in the WebSocket collector *)

Lemma splitAfterNavigation_navigationsWithin page c :
  navigationsWithin maxNavigationSaved c ->
  navigationsWithin maxNavigationSaved (splitAfterNavigation page c).
Proof.
  intros Hc. unfold splitAfterNavigation.
  destruct (storage c !! page) as [navigations|] eqn:Hst; [|exact Hc].
  intros q navigations'. cbn [storage].
  destruct (decide (q = page)) as [->|Hne];
    rewrite ?lookup_insert_eq, ?lookup_insert_ne by congruence; [|apply Hc].
  intros [= <-]. unfold maxNavigationSaved. cbn [take length].
  rewrite length_take. lia.
Qed.

Lemma step_navigationsWithin c e :
  navigationsWithin maxNavigationSaved c ->
  navigationsWithin maxNavigationSaved (step c e).
Proof.
  intros Hc.
  assert (Hsame : forall c', storage c' = storage c ->
                        navigationsWithin maxNavigationSaved c').
  { intros c' Heq q navigations. rewrite Heq. apply Hc. }
  destruct e as [q|q id u ini now|q id t op data|q id t op data|q id t|q [|]|q];
    cbn [step].
  - unfold addPage. destruct (storage c !! q) as [navigations|] eqn:Hst; [exact Hc|].
    intros p navigations'. cbn [storage].
    destruct (decide (p = q)) as [->|Hne];
      rewrite ?lookup_insert_eq, ?lookup_insert_ne by congruence; [|apply Hc].
    intros [= <-]. cbn. unfold maxNavigationSaved. lia.
  - unfold deliver. destruct (cdpListeners c !! q) as [lq|]; [|exact Hc].
    unfold onCreated. destruct (idGenerator (generator lq)) as [sid i'].
    intros p navigations'. cbn [mutate storage].
    destruct (storage c !! q) as [navigations|] eqn:Hst; [|apply Hc].
    destruct (decide (p = q)) as [->|Hne];
      rewrite ?lookup_insert_eq, ?lookup_insert_ne by congruence; [|apply Hc].
    intros [= <-]. rewrite PageCollectorSpec.length_pushCurrent.
    apply (Hc q). exact Hst.
  - unfold deliver. destruct (cdpListeners c !! q) as [lq|]; [|exact Hc].
    unfold onFrameSent, onFrame. destruct (lookupConnection c lq id); [|exact Hc].
    apply Hsame. reflexivity.
  - unfold deliver. destruct (cdpListeners c !! q) as [lq|]; [|exact Hc].
    unfold onFrameReceived, onFrame. destruct (lookupConnection c lq id); [|exact Hc].
    apply Hsame. reflexivity.
  - unfold deliver. destruct (cdpListeners c !! q) as [lq|]; [|exact Hc].
    unfold onClosed. destruct (lookupConnection c lq id); [|exact Hc].
    apply Hsame. reflexivity.
  - generalize (default 0%nat (navListeners c !! q)). intros n.
    induction n as [|n IH]; [exact Hc|].
    cbn [Nat.iter nat_rect]. apply splitAfterNavigation_navigationsWithin. exact IH.
  - exact Hc.
  - unfold cleanupPage. intros p navigations. cbn [storage].
    rewrite lookup_delete. case_decide; [discriminate|]. apply Hc.
Qed.

Lemma websocket_retention_bound evs :
  navigationsWithin maxNavigationSaved (run empty evs).
Proof.
  unfold run.
  assert (H : navigationsWithin maxNavigationSaved empty).
  { intros page navigations. cbn. rewrite lookup_empty. discriminate. }
  revert H. generalize empty. induction evs as [|e evs IH]; intros c Hc; [exact Hc|].
  cbn [fold_left]. apply IH. apply step_navigationsWithin. exact Hc.
Qed.

(** ** Chronological order of the preserved data *)

(** C6. Chronological ordering of [allItems]. For a tracked page of a generic
    collector reached by any trace, and likewise of a WebSocket collector,
    [getData(page, true)] is the concatenation of all retained epochs, oldest
    first and current last; hence an item of an older epoch (larger index [j])
    comes before an item of a newer epoch (smaller index [i]) in the result. *)
Theorem allItems_chronological :
  (forall b evs page navigations,
      PageCollector.storage
        (PageCollector.run PageCollector.Generic b PageCollector.empty evs) !! page
      = Some navigations ->
      let data :=
        PageCollector.getData
          (PageCollector.run PageCollector.Generic b PageCollector.empty evs) page true in
      data = concat (reverse navigations)
      /\ forall i j older newer x y,
          (i < j)%nat ->
          navigations !! j = Some older -> navigations !! i = Some newer ->
          x ∈ older -> y ∈ newer ->
          PageCollector.appearsBefore x y data)
  /\ (forall evs page navigations,
        storage (run empty evs) !! page = Some navigations ->
        let data := getData (run empty evs) page true in
        data = concat (reverse navigations)
        /\ forall i j older newer x y,
            (i < j)%nat ->
            navigations !! j = Some older -> navigations !! i = Some newer ->
            x ∈ older -> y ∈ newer ->
            PageCollector.appearsBefore x y data).
Proof.
  split.
  - intros b evs page navigations Hst.
    pose proof (PageCollectorSpec.generic_retention_bound b evs page navigations Hst)
      as Hlen.
    unfold PageCollector.getData. rewrite Hst. cbn [negb].
    assert (Hall : PageCollector.getDataLoop navigations
                     PageCollector.maxNavigationSaved []
                   = concat (reverse navigations)).
    { apply PageCollectorSpec.getDataLoop_all.
      unfold PageCollector.maxNavigationSaved in *. lia. }
    cbv zeta. rewrite Hall. split; [reflexivity|].
    intros i j older newer x y Hij Hj Hi Hx Hy.
    apply (PageCollectorSpec.concat_reverse_chronological _ i j older newer);
      assumption.
  - intros evs page navigations Hst.
    pose proof (websocket_retention_bound evs page navigations Hst) as Hlen.
    unfold getData. rewrite Hst. cbn [negb].
    assert (Hall : PageCollector.getDataLoop navigations maxNavigationSaved []
                   = concat (reverse navigations)).
    { apply PageCollectorSpec.getDataLoop_all.
      unfold PageCollector.maxNavigationSaved, maxNavigationSaved in *. lia. }
    cbv zeta. rewrite Hall. split; [reflexivity|].
    intros i j older newer x y Hij Hj Hi Hx Hy.
    apply (PageCollectorSpec.concat_reverse_chronological _ i j older newer);
      assumption.
Qed.

(** C6 after four navigations, in both collectors: the item of the oldest
    retained epoch comes before the item of the current epoch. *)
Lemma allItems_chronological_witness :
  PageCollector.appearsBefore 3%nat 5%nat
    (PageCollector.getData
       (PageCollector.run PageCollector.Generic PageCollector.noNavigationBrowser
          PageCollector.empty PageCollector.fourNavigations) 0%nat true)
  /\ PageCollector.appearsBefore 2%nat 4%nat
       (getData (run empty fourNavigations) 0%nat true).
Proof.
  destruct allItems_chronological as [Hgeneric Hwebsocket].
  split.
  - destruct (Hgeneric PageCollector.noNavigationBrowser PageCollector.fourNavigations
                0%nat [[5]; [4]; [3]]%nat) as [_ Horder].
    + vm_compute. reflexivity.
    + apply (Horder 0%nat 2%nat [3%nat] [5%nat]).
      * lia.
      * reflexivity.
      * reflexivity.
      * apply list_elem_of_In. left. reflexivity.
      * apply list_elem_of_In. left. reflexivity.
  - destruct (Hwebsocket fourNavigations 0%nat [[4]; [3]; [2]]%nat) as [_ Horder].
    + vm_compute. reflexivity.
    + apply (Horder 0%nat 2%nat [2%nat] [4%nat]).
      * lia.
      * reflexivity.
      * reflexivity.
      * apply list_elem_of_In. left. reflexivity.
      * apply list_elem_of_In. left. reflexivity.
Defined.

(** ** Stable identifiers of connections *)

Lemma stableIdOf_mutate (f : WebSocketData -> WebSocketData) r c r' :
  (forall w, stableId (f w) = stableId w) ->
  stableIdOf (mutate r f c) r' = stableIdOf c r'.
Proof.
  intros Hf. unfold stableIdOf, mutate. cbn [objects].
  destruct (decide (r = r')) as [->|Hne].
  - rewrite lookup_alter_eq.
    destruct (objects c !! r') as [w|]; cbn; [apply Hf|reflexivity].
  - rewrite lookup_alter_ne by exact Hne. reflexivity.
Qed.

Lemma objects_mutate_is_Some (f : WebSocketData -> WebSocketData) r c r' :
  is_Some (objects (mutate r f c) !! r') <-> is_Some (objects c !! r').
Proof.
  unfold mutate. cbn [objects]. destruct (decide (r = r')) as [->|Hne].
  - rewrite lookup_alter_eq. rewrite fmap_is_Some. reflexivity.
  - rewrite lookup_alter_ne by exact Hne. reflexivity.
Qed.

Lemma iter_splitAfterNavigation_objects n page c :
  objects (Nat.iter n (splitAfterNavigation page) c) = objects c
  /\ nextRef (Nat.iter n (splitAfterNavigation page) c) = nextRef c.
Proof.
  induction n as [|n [IHo IHn]]; [split; reflexivity|].
  rewrite Nat.iter_succ. rewrite <- IHo, <- IHn.
  generalize (Nat.iter n (splitAfterNavigation page) c). intros c0.
  unfold splitAfterNavigation.
  destruct (storage c0 !! page); split; reflexivity.
Qed.

(** What one event does to the stored identifiers: those of the objects
    already allocated stay, and allocation stays ahead of the objects. *)
Lemma step_stableIdOf c e :
  objectsAllocated c ->
  objectsAllocated (step c e)
  /\ forall r, (r < nextRef c)%nat -> stableIdOf (step c e) r = stableIdOf c r.
Proof.
  intros Hc.
  assert (Hsame : forall c', objects c' = objects c -> nextRef c' = nextRef c ->
            objectsAllocated c'
            /\ forall r, (r < nextRef c)%nat -> stableIdOf c' r = stableIdOf c r).
  { intros c' Ho Hn. split.
    - intros r. rewrite Ho, Hn. apply Hc.
    - intros r _. unfold stableIdOf. rewrite Ho. reflexivity. }
  assert (Hmut : forall c0 r f,
            (forall w, stableId (f w) = stableId w) ->
            objectsAllocated c0 -> nextRef c0 = nextRef c ->
            (forall r', (r' < nextRef c)%nat -> stableIdOf c0 r' = stableIdOf c r') ->
            objectsAllocated (mutate r f c0)
            /\ forall r', (r' < nextRef c)%nat ->
                 stableIdOf (mutate r f c0) r' = stableIdOf c r').
  { intros c0 r f Hf H0 Hn Hid. split.
    - intros r'. rewrite objects_mutate_is_Some. apply H0.
    - intros r' Hr'. rewrite stableIdOf_mutate by exact Hf. apply Hid. exact Hr'. }
  destruct e as [q|q id u ini now|q id t op data|q id t op data|q id t|q [|]|q];
    cbn [step].
  - apply Hsame; unfold addPage; destruct (storage c !! q); reflexivity.
  - unfold deliver. destruct (cdpListeners c !! q) as [lq|]; [|apply Hsame; reflexivity].
    unfold onCreated. destruct (idGenerator (generator lq)) as [sid i'].
    split.
    + intros r. rewrite objects_mutate_is_Some. unfold mutate. cbn [objects nextRef].
      destruct (decide (r = nextRef c)) as [->|Hne]; [lia|].
      rewrite lookup_insert_ne by congruence. intros Hr. specialize (Hc r Hr). lia.
    + intros r Hr. rewrite stableIdOf_mutate by reflexivity.
      unfold stableIdOf. cbn [objects]. rewrite lookup_insert_ne by lia. reflexivity.
  - unfold deliver. destruct (cdpListeners c !! q) as [lq|]; [|apply Hsame; reflexivity].
    unfold onFrameSent, onFrame.
    destruct (lookupConnection c lq id); [|apply Hsame; reflexivity].
    apply Hmut; [reflexivity|exact Hc|reflexivity|reflexivity].
  - unfold deliver. destruct (cdpListeners c !! q) as [lq|]; [|apply Hsame; reflexivity].
    unfold onFrameReceived, onFrame.
    destruct (lookupConnection c lq id); [|apply Hsame; reflexivity].
    apply Hmut; [reflexivity|exact Hc|reflexivity|reflexivity].
  - unfold deliver. destruct (cdpListeners c !! q) as [lq|]; [|apply Hsame; reflexivity].
    unfold onClosed.
    destruct (lookupConnection c lq id) as [r|]; [|apply Hsame; reflexivity].
    destruct (Hmut c r (setStatus closed)) as [Ha Hid];
      [reflexivity|exact Hc|reflexivity|reflexivity|].
    apply Hmut; [reflexivity|exact Ha|reflexivity|exact Hid].
  - destruct (iter_splitAfterNavigation_objects
                (default 0%nat (navListeners c !! q)) q c) as [Ho Hn].
    apply Hsame; assumption.
  - apply Hsame; reflexivity.
  - apply Hsame; reflexivity.
Qed.

Lemma step_nextRef_mono c e : (nextRef c <= nextRef (step c e))%nat.
Proof.
  destruct e as [q|q id u ini now|q id t op data|q id t op data|q id t|q [|]|q];
    cbn [step]; unfold deliver.
  - unfold addPage. destruct (storage c !! q); cbn; lia.
  - destruct (cdpListeners c !! q) as [lq|]; [|lia].
    unfold onCreated. destruct (idGenerator (generator lq)). cbn. lia.
  - destruct (cdpListeners c !! q) as [lq|]; [|lia].
    unfold onFrameSent, onFrame. destruct (lookupConnection c lq id); cbn; lia.
  - destruct (cdpListeners c !! q) as [lq|]; [|lia].
    unfold onFrameReceived, onFrame. destruct (lookupConnection c lq id); cbn; lia.
  - destruct (cdpListeners c !! q) as [lq|]; [|lia].
    unfold onClosed. destruct (lookupConnection c lq id); cbn; lia.
  - destruct (iter_splitAfterNavigation_objects
                (default 0%nat (navListeners c !! q)) q c) as [_ ->]. lia.
  - lia.
  - cbn. lia.
Qed.

Lemma run_stableIdOf evs : forall c r,
  objectsAllocated c -> (r < nextRef c)%nat ->
  objectsAllocated (run c evs) /\ stableIdOf (run c evs) r = stableIdOf c r.
Proof.
  unfold run. induction evs as [|e evs IH]; intros c r Hc Hr;
    [split; [exact Hc|reflexivity]|].
  cbn [fold_left]. destruct (step_stableIdOf c e Hc) as [Ha Hid].
  destruct (IH (step c e) r Ha) as [Ha' Hid'].
  - pose proof (step_nextRef_mono c e). lia.
  - split; [exact Ha'|]. rewrite Hid'. apply Hid. exact Hr.
Qed.

Lemma run_objectsAllocated evs : forall c,
  objectsAllocated c -> objectsAllocated (run c evs).
Proof.
  unfold run. induction evs as [|e evs IH]; intros c Hc; [exact Hc|].
  cbn [fold_left]. apply IH. apply step_stableIdOf. exact Hc.
Qed.

Lemma objectsAllocated_empty : objectsAllocated empty.
Proof. intros r [w Hw]. cbn in Hw. rewrite lookup_empty in Hw. discriminate. Qed.

Lemma connections_idsFresh_mono page n n' c :
  n <= n' -> idsFresh page n c -> idsFresh page n' c.
Proof.
  intros Hle Hc navigations Hst.
  destruct (Hc navigations Hst) as (l & Hl & Hrange & Hids & Hinj).
  exists l. split; [exact Hl|]. split; [lia|]. split; assumption.
Qed.

(** An event that leaves the page's listeners alone, retains no new item for
    the page and rewrites no identifier of a retained item keeps the
    invariant. *)
Lemma idsFresh_transfer page n c c' :
  cdpListeners c' !! page = cdpListeners c !! page ->
  (forall navigations',
      storage c' !! page = Some navigations' ->
      exists navigations,
        storage c !! page = Some navigations
        /\ forall r, r ∈ concat navigations' ->
             r ∈ concat navigations /\ stableIdOf c' r = stableIdOf c r) ->
  idsFresh page n c -> idsFresh page n c'.
Proof.
  intros Hl Hst Hc navigations' Hst'.
  destruct (Hst navigations' Hst') as (navigations & Hnav & Hsub).
  destruct (Hc navigations Hnav) as (l & Hlc & Hrange & Hids & Hinj).
  exists l. split; [rewrite Hl; exact Hlc|]. split; [exact Hrange|]. split.
  - intros r Hr. destruct (Hsub r Hr) as [Hin ->]. apply Hids. exact Hin.
  - intros r r' Hr Hr'. destruct (Hsub r Hr) as [Hin ->].
    destruct (Hsub r' Hr') as [Hin' ->]. apply Hinj; assumption.
Qed.

Lemma iter_splitAfterNavigation_storage n q c page navigations' :
  storage (Nat.iter n (splitAfterNavigation q) c) !! page = Some navigations' ->
  exists navigations,
    storage c !! page = Some navigations
    /\ forall r, r ∈ concat navigations' -> r ∈ concat navigations.
Proof.
  revert navigations'. induction n as [|n IH]; intros navigations'.
  - intros H. exists navigations'. split; [exact H|tauto].
  - rewrite Nat.iter_succ.
    generalize dependent (Nat.iter n (splitAfterNavigation q) c). intros c0 IH.
    unfold splitAfterNavigation.
    destruct (storage c0 !! q) as [navigations0|] eqn:Hq; [|apply IH].
    cbn [storage]. destruct (decide (page = q)) as [->|Hne];
      rewrite ?lookup_insert_eq, ?lookup_insert_ne by congruence; [|apply IH].
    intros [= <-]. destruct (IH navigations0 Hq) as (navigations & Hnav & Hsub).
    exists navigations. split; [exact Hnav|].
    intros r Hr. apply Hsub.
    apply PageCollectorSpec.elem_of_concat_take in Hr. exact Hr.
Qed.

Lemma iter_splitAfterNavigation_cdpListeners n q c :
  cdpListeners (Nat.iter n (splitAfterNavigation q) c) = cdpListeners c.
Proof.
  induction n as [|n IH]; [reflexivity|].
  rewrite Nat.iter_succ, <- IH.
  generalize (Nat.iter n (splitAfterNavigation q) c). intros c0.
  unfold splitAfterNavigation. destruct (storage c0 !! q); reflexivity.
Qed.

Lemma onCreated_effect page l id u ini now c :
  let c' := onCreated page l id u ini now c in
  storage c'
  = match storage c !! page with
    | Some navigations =>
        <[page := PageCollector.pushCurrent (nextRef c) navigations]> (storage c)
    | None => storage c
    end
  /\ cdpListeners c'
     = <[page := {| capturedConnectionMap := capturedConnectionMap l;
                    generator := snd (idGenerator (generator l)) |}]> (cdpListeners c)
  /\ stableIdOf c' (nextRef c) = Some (fst (idGenerator (generator l))).
Proof.
  unfold onCreated. destruct (idGenerator (generator l)) as [sid i'].
  cbn [fst snd]. split; [reflexivity|]. split; [reflexivity|].
  rewrite stableIdOf_mutate by reflexivity.
  unfold stableIdOf. cbn [objects]. rewrite lookup_insert_eq. reflexivity.
Qed.

Lemma step_connections_idsFresh page n c e :
  0 <= n ->
  objectsAllocated c ->
  idsFresh page n c ->
  n + (if isCreatedOn page e then 1 else 0) < MAX_SAFE_INTEGER ->
  idsFresh page (n + (if isCreatedOn page e then 1 else 0)) (step c e).
Proof.
  intros Hn Halloc Hc Hbound.
  assert (Hitems : forall navigations r,
             storage c !! page = Some navigations -> r ∈ concat navigations ->
             (r < nextRef c)%nat).
  { intros navigations r Hst Hr.
    destruct (Hc navigations Hst) as (l & _ & _ & Hids & _).
    destruct (Hids r Hr) as (id & Hid & _). apply Halloc.
    unfold stableIdOf in Hid. apply bind_Some in Hid as (w & Hw & _).
    exists w. exact Hw. }
  assert (Hquiet : forall c',
             cdpListeners c' !! page = cdpListeners c !! page ->
             storage c' !! page = storage c !! page ->
             (forall r, (r < nextRef c)%nat -> stableIdOf c' r = stableIdOf c r) ->
             idsFresh page n c').
  { intros c' Hl Hst Hid. apply (idsFresh_transfer page n c c' Hl); [|exact Hc].
    intros navigations'. rewrite Hst. intros Hnav. exists navigations'.
    split; [exact Hnav|]. intros r Hr. split; [exact Hr|].
    apply Hid. eapply Hitems; eassumption. }
  destruct (step_stableIdOf c e Halloc) as [_ Hstable].
  destruct e as [q|q id u ini now|q id t op data|q id t op data|q id t|q [|]|q];
    cbn [step isCreatedOn] in *; rewrite ?Z.add_0_r.
  - (* TargetCreated *)
    unfold addPage in *. destruct (storage c !! q) as [navigations|] eqn:Hq; [exact Hc|].
    destruct (decide (q = page)) as [->|Hne].
    + intros navigations'. cbn [storage cdpListeners].
      rewrite !lookup_insert_eq. intros [= <-].
      eexists. split; [reflexivity|]. cbn [generator]. unfold createIdGenerator.
      split; [lia|]. cbn [concat].
      split; [intros r Hr|intros r r' Hr]; apply elem_of_nil in Hr; destruct Hr.
    + apply Hquiet; [apply lookup_insert_ne; congruence
                    |apply lookup_insert_ne; congruence|exact Hstable].
  - (* WebSocketCreated *)
    unfold deliver in *.
    destruct (cdpListeners c !! q) as [lq|] eqn:Hlq;
      [|apply (connections_idsFresh_mono page n);
        [destruct (bool_decide (q = page)); lia|exact Hc]].
    destruct (decide (q = page)) as [->|Hne].
    + rewrite bool_decide_eq_true_2 in * by reflexivity.
      destruct (onCreated_effect page lq id u ini now c) as (Hst' & Hl' & Hnew).
      intros navigations'. rewrite Hst', Hl', lookup_insert_eq.
      destruct (storage c !! page) as [navigations|] eqn:Hst;
        [|rewrite Hst; discriminate].
      rewrite lookup_insert_eq. intros [= <-].
      destruct (Hc navigations Hst) as (l & Hl & Hrange & Hids & Hinj).
      assert (l = lq) as -> by congruence.
      rewrite IdGeneratorSpec.idGenerator_below in Hnew |- * by lia.
      cbn [fst snd] in *.
      eexists. split; [reflexivity|]. cbn [generator]. split; [lia|].
      split.
      * intros r Hr. apply PageCollectorSpec.elem_of_concat_pushCurrent in Hr.
        destruct (decide (r = nextRef c)) as [->|Hrn].
        -- exists (generator lq). split; [exact Hnew|lia].
        -- destruct Hr as [->|Hr]; [congruence|].
           rewrite Hstable by (eapply Hitems; [reflexivity|eassumption]).
           destruct (Hids r Hr) as (sid & Hsid & Hr'). exists sid.
           split; [exact Hsid|lia].
      * intros r r' Hr Hr'.
        apply PageCollectorSpec.elem_of_concat_pushCurrent in Hr, Hr'.
        destruct (decide (r = nextRef c)) as [->|Hrn],
                 (decide (r' = nextRef c)) as [->|Hrn'].
        -- reflexivity.
        -- destruct Hr' as [->|Hr']; [congruence|].
           rewrite Hnew, (Hstable r') by (eapply Hitems; [reflexivity|eassumption]).
           destruct (Hids r' Hr') as (sid & -> & Hrange'). intros [= <-]. lia.
        -- destruct Hr as [->|Hr]; [congruence|].
           rewrite Hnew, (Hstable r) by (eapply Hitems; [reflexivity|eassumption]).
           destruct (Hids r Hr) as (sid & -> & Hrange'). intros [= ->]. lia.
        -- destruct Hr as [->|Hr]; [congruence|].
           destruct Hr' as [->|Hr']; [congruence|].
           rewrite (Hstable r), (Hstable r')
             by (eapply Hitems; [reflexivity|eassumption]).
           apply Hinj; assumption.
    + rewrite bool_decide_eq_false_2 by exact Hne. rewrite Z.add_0_r.
      destruct (onCreated_effect q lq id u ini now c) as (Hst' & Hl' & _).
      apply Hquiet; [| |exact Hstable].
      * rewrite Hl'. apply lookup_insert_ne. exact Hne.
      * rewrite Hst'.
        destruct (storage c !! q); [apply lookup_insert_ne; exact Hne|reflexivity].
  - (* WebSocketFrameSent *)
    apply Hquiet; [| |exact Hstable]; unfold deliver;
      (destruct (cdpListeners c !! q) as [lq|]; [|reflexivity]);
      unfold onFrameSent, onFrame; destruct (lookupConnection c lq id); reflexivity.
  - (* WebSocketFrameReceived *)
    apply Hquiet; [| |exact Hstable]; unfold deliver;
      (destruct (cdpListeners c !! q) as [lq|]; [|reflexivity]);
      unfold onFrameReceived, onFrame; destruct (lookupConnection c lq id); reflexivity.
  - (* WebSocketClosed *)
    apply Hquiet; [| |exact Hstable]; unfold deliver;
      (destruct (cdpListeners c !! q) as [lq|]; [|reflexivity]);
      unfold onClosed; destruct (lookupConnection c lq id); reflexivity.
  - (* main-frame navigation *)
    apply (idsFresh_transfer page n c); [|  |exact Hc].
    + rewrite iter_splitAfterNavigation_cdpListeners. reflexivity.
    + intros navigations' Hst'.
      destruct (iter_splitAfterNavigation_storage _ _ _ _ _ Hst')
        as (navigations & Hnav & Hsub).
      exists navigations. split; [exact Hnav|]. intros r Hr.
      split; [apply Hsub; exact Hr|]. apply Hstable.
      eapply Hitems; [exact Hnav|]. apply Hsub. exact Hr.
  - exact Hc.
  - (* TargetDestroyed *)
    unfold cleanupPage. destruct (decide (q = page)) as [->|Hne].
    + intros navigations. cbn [storage]. rewrite lookup_delete_eq. discriminate.
    + apply Hquiet; [apply lookup_delete_ne; exact Hne
                    |apply lookup_delete_ne; exact Hne|exact Hstable].
Qed.

Lemma createdCount_cons page e evs :
  Z.of_nat (createdCount page (e :: evs))
  = (if isCreatedOn page e then 1 else 0) + Z.of_nat (createdCount page evs).
Proof.
  unfold createdCount. cbn [List.filter].
  destruct (isCreatedOn page e); cbn [length]; lia.
Qed.

Lemma run_connections_idsFresh page evs : forall n c,
  0 <= n ->
  objectsAllocated c ->
  idsFresh page n c ->
  n + Z.of_nat (createdCount page evs) < MAX_SAFE_INTEGER ->
  idsFresh page (n + Z.of_nat (createdCount page evs)) (run c evs).
Proof.
  unfold run. induction evs as [|e evs IH]; intros n c Hn Halloc Hc Hbound.
  - cbn. rewrite Z.add_0_r. exact Hc.
  - rewrite createdCount_cons in *. cbn [fold_left].
    rewrite Z.add_assoc. apply IH.
    + destruct (isCreatedOn page e); lia.
    + apply step_stableIdOf. exact Halloc.
    + apply step_connections_idsFresh; [exact Hn|exact Halloc|exact Hc|].
      destruct (isCreatedOn page e); lia.
    + lia.
Qed.

Lemma connections_idsFresh_empty page : idsFresh page 0 empty.
Proof. intros navigations. cbn. rewrite lookup_empty. discriminate. Qed.

End WebSocketCollectorSpec.

(* ===================================================================== *)
(** * Properties of the traffic fingerprint engine *)
(* ===================================================================== *)

Module TrafficSpec.

Import WebSocketCollector Traffic.

(** ** Group identifiers *)

Lemma generateGroupIdLoop_unfold (n : Z) (id : string) :
  generateGroupIdLoop n id
  = if decide (0 <= n / 26 - 1)
    then generateGroupIdLoop (n / 26 - 1) (String (fromCharCode (65 + Z.rem n 26)) id)
    else String (fromCharCode (65 + Z.rem n 26)) id.
Proof.
  rewrite generateGroupIdLoop_equation_1.
  destruct (decide (0 <= n / 26 - 1)); reflexivity.
Qed.

Lemma append_assoc_snoc (s : string) (c : ascii) (t : string) :
  (s +:+ String c "") +:+ t = s +:+ String c t.
Proof.
  induction s as [|a s IH]; [reflexivity|].
  change (String a ((s +:+ String c "") +:+ t) = String a (s +:+ String c t)).
  rewrite IH. reflexivity.
Qed.

(** The loop prepends: its accumulator stays a suffix of the result. *)
Lemma generateGroupIdLoop_acc (n : Z) : forall id,
  generateGroupIdLoop n id = generateGroupIdLoop n "" +:+ id.
Proof.
  induction n as [n IH] using (well_founded_induction (Z.lt_wf 0)).
  intros id. rewrite (generateGroupIdLoop_unfold n id), (generateGroupIdLoop_unfold n "").
  destruct (decide (0 <= n / 26 - 1)) as [Hge|Hlt]; [|reflexivity].
  assert (Hdec : 0 <= n / 26 - 1 < n) by (Z.div_mod_to_equations; lia).
  rewrite (IH _ Hdec (String _ id)), (IH _ Hdec (String _ "")).
  rewrite append_assoc_snoc. reflexivity.
Qed.

(** The bijective base-26 recurrence: the last letter is the digit
    [n mod 26], the letters before it encode [n / 26 - 1]. *)
Lemma generateGroupId_digit (n : Z) :
  0 <= n < 26 -> generateGroupId n = String (fromCharCode (65 + n)) "".
Proof.
  intros Hn. unfold generateGroupId. rewrite generateGroupIdLoop_unfold.
  destruct (decide (0 <= n / 26 - 1)) as [Hge|_];
    [exfalso; Z.div_mod_to_equations; lia|].
  rewrite Z.rem_small by lia. reflexivity.
Qed.

Lemma generateGroupId_step (n : Z) :
  26 <= n ->
  generateGroupId n
  = generateGroupId (n / 26 - 1) +:+ String (fromCharCode (65 + n mod 26)) "".
Proof.
  intros Hn. unfold generateGroupId. rewrite generateGroupIdLoop_unfold.
  destruct (decide (0 <= n / 26 - 1)) as [_|Hlt];
    [|exfalso; Z.div_mod_to_equations; lia].
  rewrite generateGroupIdLoop_acc. rewrite Z.rem_mod_nonneg by lia. reflexivity.
Qed.

Lemma generateGroupId_nonempty (n : Z) : generateGroupId n ≠ ""%string.
Proof.
  unfold generateGroupId. rewrite generateGroupIdLoop_unfold.
  destruct (decide (0 <= n / 26 - 1)); [|discriminate].
  rewrite generateGroupIdLoop_acc.
  destruct (generateGroupIdLoop (n / 26 - 1) ""); discriminate.
Qed.

Lemma append_snoc_inj (s1 s2 : string) (c1 c2 : ascii) :
  s1 +:+ String c1 "" = s2 +:+ String c2 "" -> s1 = s2 /\ c1 = c2.
Proof.
  revert s2. induction s1 as [|a s1 IH]; intros [|b s2]; cbn.
  - intros [= ->]. split; reflexivity.
  - intros [= -> H]. destruct s2; discriminate H.
  - intros [= -> H]. destruct s1; discriminate H.
  - intros [= -> H]. destruct (IH _ H) as [-> ->]. split; reflexivity.
Qed.

Lemma fromCharCode_letter_inj (a b : Z) :
  0 <= a < 26 -> 0 <= b < 26 ->
  fromCharCode (65 + a) = fromCharCode (65 + b) -> a = b.
Proof.
  intros Ha Hb Heq. unfold fromCharCode in Heq.
  apply (f_equal N_of_ascii) in Heq.
  rewrite !N_ascii_embedding in Heq by lia. lia.
Qed.

(** Distinct ranks get distinct identifiers. *)
Lemma generateGroupId_inj (n : Z) : forall m,
  0 <= n -> 0 <= m -> generateGroupId n = generateGroupId m -> n = m.
Proof.
  induction n as [n IH] using (well_founded_induction (Z.lt_wf 0)).
  intros m Hn Hm Heq.
  destruct (Z_lt_le_dec n 26) as [Hn26|Hn26], (Z_lt_le_dec m 26) as [Hm26|Hm26].
  - rewrite !generateGroupId_digit in Heq by lia.
    injection Heq as Heq. apply fromCharCode_letter_inj in Heq; lia.
  - rewrite generateGroupId_digit in Heq by lia.
    rewrite (generateGroupId_step m) in Heq by lia.
    pose proof (generateGroupId_nonempty (m / 26 - 1)) as Hne.
    destruct (generateGroupId (m / 26 - 1)) as [|a [|b s]]; cbn in Heq;
      [congruence|discriminate|discriminate].
  - rewrite (generateGroupId_digit m) in Heq by lia.
    rewrite (generateGroupId_step n) in Heq by lia.
    pose proof (generateGroupId_nonempty (n / 26 - 1)) as Hne.
    destruct (generateGroupId (n / 26 - 1)) as [|a [|b s]]; cbn in Heq;
      [congruence|discriminate|discriminate].
  - rewrite (generateGroupId_step n), (generateGroupId_step m) in Heq by lia.
    apply append_snoc_inj in Heq as [Hhead Hlast].
    apply fromCharCode_letter_inj in Hlast;
      [|apply Z.mod_pos_bound; lia|apply Z.mod_pos_bound; lia].
    apply IH in Hhead; [|Z.div_mod_to_equations; lia..].
    Z.div_mod_to_equations. lia.
Qed.

Lemma generateGroupId_values :
  generateGroupId 0 = "A"%string /\ generateGroupId 25 = "Z"%string
  /\ generateGroupId 26 = "AA"%string /\ generateGroupId 27 = "AB"%string.
Proof. vm_compute. repeat split; reflexivity. Qed.

(** ** The insertion-ordered map *)

Lemma get_None_not_in {V} (k : string) (m : list (string * V)) :
  JsMap.get k m = None <-> k ∉ map fst m.
Proof.
  induction m as [|[k' v] m IH]; cbn [JsMap.get map fst].
  - split; [intros _ H; apply elem_of_nil in H; destruct H|reflexivity].
  - rewrite not_elem_of_cons. destruct (decide (k' = k)) as [->|Hne].
    + split; [discriminate|]. intros [H _]. congruence.
    + rewrite IH. split; [intros H; split; [congruence|exact H]|tauto].
Qed.

Lemma set_fresh {V} (k : string) (v : V) (m : list (string * V)) :
  JsMap.get k m = None -> JsMap.set k v m = m ++ [(k, v)].
Proof.
  induction m as [|[k' v'] m IH]; cbn [JsMap.get JsMap.set app]; [reflexivity|].
  destruct (decide (k' = k)); [discriminate|]. intros H. rewrite IH by exact H.
  reflexivity.
Qed.

Lemma update_fresh_last {V} (k : string) (f : V -> V) (v : V) (m : list (string * V)) :
  JsMap.get k m = None ->
  JsMap.update k f (m ++ [(k, v)]) = m ++ [(k, f v)].
Proof.
  induction m as [|[k' v'] m IH]; cbn [JsMap.get JsMap.update app].
  - intros _. destruct (decide (k = k)); [reflexivity|congruence].
  - destruct (decide (k' = k)); [discriminate|]. intros H. rewrite IH by exact H.
    reflexivity.
Qed.

Lemma update_present {V} (k : string) (f : V -> V) (v : V) (m : list (string * V)) :
  JsMap.get k m = Some v ->
  exists m1 m2, m = m1 ++ (k, v) :: m2 /\ JsMap.update k f m = m1 ++ (k, f v) :: m2.
Proof.
  induction m as [|[k' v'] m IH]; cbn [JsMap.get JsMap.update]; [discriminate|].
  destruct (decide (k' = k)) as [->|Hne].
  - intros [= ->]. exists [], m. split; reflexivity.
  - intros H. destruct (IH H) as (m1 & m2 & -> & ->).
    exists ((k', v') :: m1), m2. split; reflexivity.
Qed.

(** ** Grouping *)

(** What [addFrame] does to the group map: either the group of the frame's
    key exists and receives the index in place, or a new group holding just
    this index is added behind all others. *)
Lemma addFrame_cases (frame : WebSocketFrame) (index : nat)
    (groupMap : list (string * Group)) :
  (exists m1 g m2,
      groupMap = m1 ++ (frameKey frame, g) :: m2
      /\ addFrame frame index groupMap
         = m1 ++ (frameKey frame, recordFrame index (payloadSize frame) g) :: m2)
  \/ ((frameKey frame ∉ map fst groupMap)
      /\ addFrame frame index groupMap
         = groupMap ++ [(frameKey frame,
                         recordFrame index (payloadSize frame) (newGroup frame))]).
Proof.
  unfold addFrame. fold (frameKey frame). unfold JsMap.has.
  destruct (JsMap.get (frameKey frame) groupMap) as [g|] eqn:Hget.
  - left. destruct (update_present _ (recordFrame index (payloadSize frame)) _ _ Hget)
      as (m1 & m2 & Hm & Hupd).
    exists m1, g, m2. split; assumption.
  - right. split; [apply get_None_not_in; exact Hget|].
    rewrite set_fresh by exact Hget. apply update_fresh_last. exact Hget.
Qed.

Lemma StronglySorted_snoc (l : list nat) (n : nat) :
  StronglySorted lt l -> (forall i, i ∈ l -> (i < n)%nat) ->
  StronglySorted lt (l ++ [n]).
Proof.
  induction 1 as [|a l Hl IH Ha]; intros Hlt; cbn [app].
  - constructor; constructor.
  - constructor.
    + apply IH. intros i Hi. apply Hlt. right. exact Hi.
    + apply Forall_app. split; [exact Ha|].
      constructor; [|constructor]. apply Hlt. left.
Qed.

Lemma addFrame_partition (frame : WebSocketFrame) (n : nat)
    (groupMap : list (string * Group)) :
  groupsPartition n groupMap -> groupsPartition (S n) (addFrame frame n groupMap).
Proof.
  intros (Hkeys & Hperm & Hsorted).
  assert (Hseq : seq 0 (S n) = seq 0 n ++ [n]) by (rewrite seq_S; reflexivity).
  destruct (addFrame_cases frame n groupMap)
    as [(m1 & g & m2 & -> & ->)|(Hfresh & ->)]; unfold groupsPartition.
  - rewrite !map_app in *. cbn [map fst snd concat recordFrame indices] in *.
    rewrite !concat_app in *. cbn [concat] in *.
    split; [exact Hkeys|]. split.
    + rewrite Hseq, <- Hperm. rewrite <- !app_assoc.
      apply Permutation_app_head. rewrite !app_assoc.
      rewrite <- (app_assoc (indices g)).
      rewrite (Permutation_app_comm [n]). rewrite !app_assoc. reflexivity.
    + apply Forall_app in Hsorted as [Hs1 Hs2].
      apply Forall_cons in Hs2 as [Hg Hs2]. cbn [snd] in Hg.
      apply Forall_app. split; [exact Hs1|]. constructor; [|exact Hs2].
      cbn [snd indices]. apply StronglySorted_snoc; [exact Hg|].
      intros i Hi.
      assert (Hin : i ∈ seq 0 n).
      { rewrite <- Hperm. rewrite !elem_of_app. tauto. }
      apply elem_of_seq in Hin. lia.
  - rewrite !map_app. cbn [map fst snd concat recordFrame newGroup indices app].
    rewrite concat_app. cbn [concat app].
    split; [|split].
    + apply NoDup_app. split; [exact Hkeys|]. split.
      * intros k Hk Hk'. apply list_elem_of_singleton in Hk'. congruence.
      * apply NoDup_singleton.
    + rewrite Hseq. apply Permutation_app_tail. exact Hperm.
    + apply Forall_app. split; [exact Hsorted|].
      constructor; [|constructor]. cbn. repeat constructor.
Qed.

Lemma addFrame_keyed (frames : list WebSocketFrame) (frame : WebSocketFrame)
    (n : nat) (groupMap : list (string * Group)) :
  frames !! n = Some frame ->
  groupsKeyed frames groupMap -> groupsKeyed frames (addFrame frame n groupMap).
Proof.
  intros Hn Hkeyed. unfold groupsKeyed in *.
  destruct (addFrame_cases frame n groupMap)
    as [(m1 & g & m2 & -> & ->)|(Hfresh & ->)].
  - apply Forall_app in Hkeyed as [H1 H2].
    apply Forall_cons in H2 as [[Hkey Hidx] H2]. cbn [fst snd] in Hkey, Hidx.
    apply Forall_app. split; [exact H1|]. constructor; [|exact H2].
    cbn [fst snd recordFrame gDirection gHead4B gSizeCategory indices].
    split; [exact Hkey|].
    intros i Hi. apply elem_of_app in Hi as [Hi|Hi]; [apply Hidx; exact Hi|].
    apply list_elem_of_singleton in Hi as ->. exists frame. split; [exact Hn|reflexivity].
  - apply Forall_app. split; [exact Hkeyed|]. constructor; [|constructor].
    cbn [fst snd recordFrame newGroup gDirection gHead4B gSizeCategory indices app].
    split; [reflexivity|].
    intros i Hi. apply list_elem_of_singleton in Hi as ->.
    exists frame. split; [exact Hn|reflexivity].
Qed.

Lemma groupFrames_invariant (frames : list WebSocketFrame) :
  forall rest done groupMap,
    frames = done ++ rest ->
    groupsPartition (length done) groupMap ->
    groupsKeyed frames groupMap ->
    groupsPartition (length frames) (groupFrames rest (length done) groupMap)
    /\ groupsKeyed frames (groupFrames rest (length done) groupMap).
Proof.
  induction rest as [|frame rest IH]; intros done groupMap Hframes Hpart Hkeyed.
  - cbn [groupFrames]. rewrite Hframes, app_nil_r. split; [exact Hpart|].
    rewrite Hframes, app_nil_r in Hkeyed. exact Hkeyed.
  - cbn [groupFrames].
    assert (Hlen : S (length done) = length (done ++ [frame]))
      by (rewrite length_app; cbn; lia).
    rewrite Hlen. apply IH.
    + rewrite Hframes, <- app_assoc. reflexivity.
    + rewrite <- Hlen. apply addFrame_partition. exact Hpart.
    + apply addFrame_keyed; [|exact Hkeyed].
      rewrite Hframes. apply list_lookup_middle. reflexivity.
Qed.

Lemma groupFrames_partition (frames : list WebSocketFrame) :
  groupsPartition (length frames) (groupFrames frames 0 [])
  /\ groupsKeyed frames (groupFrames frames 0 []).
Proof.
  apply (groupFrames_invariant frames frames [] []).
  - reflexivity.
  - split; [constructor|]. split; [reflexivity|constructor].
  - constructor.
Qed.

(** ** Sorting by descending count *)

Lemma sortInsert_Permutation {A} (compare : A -> A -> Z) (x : A) (l : list A) :
  Permutation (sortInsert compare x l) (x :: l).
Proof.
  induction l as [|y l IH]; cbn [sortInsert]; [reflexivity|].
  destruct (0 <? compare x y); [|reflexivity].
  rewrite IH. apply perm_swap.
Qed.

Lemma sort_Permutation {A} (compare : A -> A -> Z) (l : list A) :
  Permutation (sort compare l) l.
Proof.
  induction l as [|x l IH]; cbn [sort]; [reflexivity|].
  rewrite sortInsert_Permutation. apply perm_skip. exact IH.
Qed.

Lemma sortInsert_sorted (x : string * Group) (l : list (string * Group)) :
  StronglySorted countDescending l ->
  StronglySorted countDescending (sortInsert byCountDescending x l).
Proof.
  induction 1 as [|y l Hl IH Hy]; cbn [sortInsert].
  - constructor; constructor.
  - destruct (0 <? byCountDescending x y) eqn:Hcmp.
    + apply Z.ltb_lt in Hcmp. unfold byCountDescending in Hcmp.
      constructor; [exact IH|].
      rewrite (sortInsert_Permutation byCountDescending x l).
      constructor; [unfold countDescending; lia|exact Hy].
    + apply Z.ltb_ge in Hcmp. unfold byCountDescending in Hcmp.
      constructor; [constructor; assumption|].
      constructor; [unfold countDescending; lia|].
      eapply Forall_impl; [exact Hy|].
      intros z Hz. unfold countDescending in *. lia.
Qed.

Lemma sort_sorted (l : list (string * Group)) :
  StronglySorted countDescending (sort byCountDescending l).
Proof.
  induction l as [|x l IH]; cbn [sort]; [constructor|].
  apply sortInsert_sorted. exact IH.
Qed.

(** ** Emitting the groups *)

Lemma generateGroupId_of_nat_inj (i j : nat) :
  generateGroupId (Z.of_nat i) = generateGroupId (Z.of_nat j) -> i = j.
Proof. intros H. apply generateGroupId_inj in H; lia. Qed.

Lemma emitGroups_spec (entries : list (string * Group)) : forall idx gs gti,
  map fst gti = map (fun k => generateGroupId (Z.of_nat k)) (seq 0 idx) ->
  emitGroups entries idx (gs, gti)
  = (gs ++ groupsFrom idx entries, gti ++ indexFrom idx entries).
Proof.
  induction entries as [|[k g] entries IH]; intros idx gs gti Hkeys;
    cbn [emitGroups groupsFrom indexFrom fst snd].
  - rewrite !app_nil_r. reflexivity.
  - assert (Hfresh : JsMap.get (generateGroupId (Z.of_nat idx)) gti = None).
    { apply get_None_not_in. rewrite Hkeys. intros Hin.
      apply list_elem_of_fmap in Hin as (j & Heq & Hj).
      apply generateGroupId_of_nat_inj in Heq. subst j.
      apply elem_of_seq in Hj. lia. }
    cbn [toMessageGroup id]. rewrite set_fresh by exact Hfresh.
    rewrite IH.
    + rewrite <- !app_assoc. reflexivity.
    + rewrite map_app, Hkeys, seq_S, map_app. reflexivity.
Qed.

Lemma analyze_tables (frames : list WebSocketFrame) (w : Z) (u : string) :
  let entries := sort byCountDescending (groupFrames frames 0 []) in
  groups (analyzeWebSocketFramesV2 frames w u) = groupsFrom 0 entries
  /\ groupToIndices (analyzeWebSocketFramesV2 frames w u) = indexFrom 0 entries
  /\ totalFrames (analyzeWebSocketFramesV2 frames w u) = length frames.
Proof.
  unfold analyzeWebSocketFramesV2.
  rewrite (emitGroups_spec _ 0 [] []) by reflexivity.
  cbn [app groups groupToIndices totalFrames]. repeat split; reflexivity.
Qed.

Lemma groupsFrom_lookup (entries : list (string * Group)) : forall idx k g,
  groupsFrom idx entries !! k = Some g ->
  exists e, entries !! k = Some e /\ g = toMessageGroup (idx + k) (snd e).
Proof.
  induction entries as [|e entries IH]; intros idx k g; cbn [groupsFrom];
    [discriminate|].
  destruct k as [|k]; cbn.
  - intros [= <-]. exists e. rewrite Nat.add_0_r. split; reflexivity.
  - intros H. destruct (IH (S idx) k g H) as (e' & He' & ->).
    exists e'. split; [exact He'|]. f_equal. lia.
Qed.

Lemma length_groupsFrom (entries : list (string * Group)) : forall idx,
  length (groupsFrom idx entries) = length entries.
Proof.
  induction entries as [|e entries IH]; intros idx; cbn; [reflexivity|].
  rewrite IH. reflexivity.
Qed.

Lemma indexFrom_snd (entries : list (string * Group)) : forall idx,
  map snd (indexFrom idx entries) = map (fun e => indices (snd e)) entries.
Proof.
  induction entries as [|e entries IH]; intros idx; cbn; [reflexivity|].
  rewrite IH. reflexivity.
Qed.

Lemma indexFrom_fst (entries : list (string * Group)) : forall idx,
  map fst (indexFrom idx entries)
  = map (fun k => generateGroupId (Z.of_nat k)) (seq idx (length entries)).
Proof.
  induction entries as [|e entries IH]; intros idx; cbn; [reflexivity|].
  rewrite IH. reflexivity.
Qed.

(** A group and its row in the index table describe the same entry. *)
Lemma groupsFrom_indexFrom (entries : list (string * Group)) : forall idx,
  Forall2 (fun g row =>
             id g = fst row
             /\ count g = length (snd row)
             /\ sampleIndices g = take (Nat.min 3 (count g)) (snd row))
    (groupsFrom idx entries) (indexFrom idx entries).
Proof.
  induction entries as [|e entries IH]; intros idx; cbn [groupsFrom indexFrom];
    constructor; [|apply IH].
  cbn [toMessageGroup id count sampleIndices fst snd].
  split; [reflexivity|]. split; [reflexivity|].
  destruct (Nat.min_spec 3 (length (indices (snd e)))) as [[Hlt ->]|[Hge ->]];
    [reflexivity|].
  rewrite !take_ge by lia. reflexivity.
Qed.

Lemma Permutation_concat_map {A B} (f : A -> list B) (l l' : list A) :
  Permutation l l' -> Permutation (concat (map f l)) (concat (map f l')).
Proof.
  induction 1 as [|x l l' _ IH|x y l|l l' l'' _ IH1 _ IH2]; cbn [map concat].
  - reflexivity.
  - apply Permutation_app_head. exact IH.
  - rewrite !app_assoc. apply Permutation_app_tail. apply Permutation_app_comm.
  - etransitivity; eassumption.
Qed.

Lemma NoDup_concat_disjoint {A} (ls : list (list A)) : forall k1 k2 l1 l2 x,
  NoDup (concat ls) -> k1 ≠ k2 ->
  ls !! k1 = Some l1 -> ls !! k2 = Some l2 ->
  x ∈ l1 -> x ∉ l2.
Proof.
  induction ls as [|l ls IH]; intros k1 k2 l1 l2 x Hnd Hne H1 H2 Hx1 Hx2;
    [discriminate|].
  cbn [concat] in Hnd. apply NoDup_app in Hnd as (Hl & Hdisj & Hrest).
  destruct k1 as [|k1], k2 as [|k2]; cbn in H1, H2.
  - congruence.
  - injection H1 as ->. apply (Hdisj x Hx1).
    apply PageCollectorSpec.elem_of_concat. exists l2. split; [exact Hx2|].
    eapply list_elem_of_lookup_2; exact H2.
  - injection H2 as ->. apply (Hdisj x Hx2).
    apply PageCollectorSpec.elem_of_concat. exists l1. split; [exact Hx1|].
    eapply list_elem_of_lookup_2; exact H1.
  - apply (IH k1 k2 l1 l2 x); try assumption. congruence.
Qed.

Lemma length_concat_sum {A} (ls : list (list A)) :
  length (concat ls) = sum_list (map length ls).
Proof.
  induction ls as [|l ls IH]; cbn; [reflexivity|].
  rewrite length_app, IH. reflexivity.
Qed.

(** ** The group key determines its three components *)

Lemma containsColon_append (a b : string) :
  containsColon (a +:+ String ":" b) = true.
Proof.
  induction a as [|c a IH]; [reflexivity|].
  change (containsColon (String c (a +:+ String ":" b)) = true).
  cbn [containsColon]. destruct (decide (c = ":"%char)); [reflexivity|exact IH].
Qed.

Lemma append_colon_inj (h h' n n' : string) :
  containsColon n = false -> containsColon n' = false ->
  h +:+ String ":" n = h' +:+ String ":" n' -> h = h' /\ n = n'.
Proof.
  intros Hn Hn'. revert h'. induction h as [|c h IH]; intros [|c' h'].
  - intros [= ->]. split; reflexivity.
  - change (String ":" n = String c' (h' +:+ String ":" n')
            -> "" = String c' h' /\ n = n')%string.
    intros [= <- ->]. rewrite containsColon_append in Hn. discriminate.
  - change (String c (h +:+ String ":" n) = String ":" n'
            -> String c h = "" /\ n = n')%string.
    intros [= -> <-]. rewrite containsColon_append in Hn'. discriminate.
  - change (String c (h +:+ String ":" n) = String c' (h' +:+ String ":" n')
            -> String c h = String c' h' /\ n = n').
    intros [= -> H]. destruct (IH h' H) as [-> ->]. split; reflexivity.
Qed.

Lemma groupKey_inj d h s d' h' s' :
  groupKey d h s = groupKey d' h' s' -> d = d' /\ h = h' /\ s = s'.
Proof.
  unfold groupKey. intros H.
  assert (Hd : d = d').
  { destruct d, d'; [reflexivity| | |reflexivity];
      cbv [directionName String.append] in H; discriminate H. }
  subst d'. split; [reflexivity|].
  assert (H' : h +:+ String ":" (sizeCategoryName s)
               = h' +:+ String ":" (sizeCategoryName s')).
  { destruct d; cbv [directionName String.append] in H;
      fold String.append in H; congruence. }
  apply append_colon_inj in H' as [-> Hs];
    [|destruct s; reflexivity|destruct s'; reflexivity].
  split; [reflexivity|]. destruct s, s'; (reflexivity || discriminate Hs).
Qed.

(** The frames a group lists are exactly keyed like the group: same
    direction, same first four bytes, same size bucket. *)
Lemma group_members_share_key (frames : list WebSocketFrame) (w : Z) (u : string)
    (k i : nat) (g : MessageGroupV2) (row : string * list nat) :
  groups (analyzeWebSocketFramesV2 frames w u) !! k = Some g ->
  groupToIndices (analyzeWebSocketFramesV2 frames w u) !! k = Some row ->
  i ∈ snd row ->
  exists frame,
    frames !! i = Some frame
    /\ mDirection g = direction frame
    /\ head4B g = getHead4B (payloadData frame) (opcode frame)
    /\ sizeCategory g = frameSizeCategory frame.
Proof.
  destruct (analyze_tables frames w u) as (-> & -> & _).
  set (entries := sort byCountDescending (groupFrames frames 0 [])).
  intros Hg Hrow Hi.
  apply groupsFrom_lookup in Hg as (e & He & ->).
  assert (Hrow' : map snd (indexFrom 0 entries) !! k = Some (snd row)).
  { rewrite list_lookup_fmap, Hrow. reflexivity. }
  rewrite indexFrom_snd, list_lookup_fmap, He in Hrow'. injection Hrow' as Hrow'.
  destruct (groupFrames_partition frames) as [_ Hkeyed].
  unfold groupsKeyed in Hkeyed.
  rewrite <- (sort_Permutation byCountDescending) in Hkeyed. fold entries in Hkeyed.
  rewrite Forall_forall in Hkeyed.
  destruct (Hkeyed e) as [Hkey Hidx].
  { eapply list_elem_of_lookup_2. exact He. }
  destruct (Hidx i) as (frame & Hframe & Hfk); [rewrite Hrow'; exact Hi|].
  exists frame. split; [exact Hframe|].
  unfold frameKey in Hfk. rewrite Hkey in Hfk.
  apply groupKey_inj in Hfk as (Hd & Hh & Hs).
  cbn [toMessageGroup mDirection head4B sizeCategory]. unfold frameSizeCategory.
  repeat split; congruence.
Qed.

(** ** The size bucket *)

Lemma getSizeCategory_thresholds (size : Z) :
  (size < 32 -> getSizeCategory size = tiny)
  /\ (32 <= size < 128 -> getSizeCategory size = small)
  /\ (128 <= size < 512 -> getSizeCategory size = medium)
  /\ (512 <= size < 2048 -> getSizeCategory size = large)
  /\ (2048 <= size -> getSizeCategory size = xlarge).
Proof.
  unfold getSizeCategory.
  destruct (Z.ltb_spec size 32), (Z.ltb_spec size 128), (Z.ltb_spec size 512),
    (Z.ltb_spec size 2048); repeat split; intros; (reflexivity || lia).
Qed.

(** C7 as stated fails: a binary frame of 24 bytes arrives as 32 characters
    of base64; its byte length is below 32 (bucket tiny), the engine files it
    under small. *)
Lemma size_bucket_not_from_byte_length :
  specPayloadByteLength binaryFrame24 = 24
  /\ specSizeBucket (specPayloadByteLength binaryFrame24) = tiny
  /\ frameSizeCategory binaryFrame24 = small
  /\ frameSizeCategory binaryFrame24
     ≠ specSizeBucket (specPayloadByteLength binaryFrame24).
Proof. vm_compute. repeat split; (reflexivity || discriminate). Qed.

(** C7, amended. The size bucket of every frame, text or binary, is computed
    from the length of its [payloadData] string as captured (the number of
    UTF-16 code units; for a binary frame, the length of the base64 text),
    with the fixed thresholds 32, 128, 512 and 2048; and every frame a group
    lists has the group's size bucket. *)
Theorem size_bucket_from_payload_length :
  (forall frame,
      let n := Z.of_nat (length (payloadData frame)) in
      (n < 32 -> frameSizeCategory frame = tiny)
      /\ (32 <= n < 128 -> frameSizeCategory frame = small)
      /\ (128 <= n < 512 -> frameSizeCategory frame = medium)
      /\ (512 <= n < 2048 -> frameSizeCategory frame = large)
      /\ (2048 <= n -> frameSizeCategory frame = xlarge))
  /\ (forall frames w u k i g row,
        groups (analyzeWebSocketFramesV2 frames w u) !! k = Some g ->
        groupToIndices (analyzeWebSocketFramesV2 frames w u) !! k = Some row ->
        i ∈ snd row ->
        exists frame,
          frames !! i = Some frame /\ sizeCategory g = frameSizeCategory frame).
Proof.
  split.
  - intros frame. apply getSizeCategory_thresholds.
  - intros frames w u k i g row Hg Hrow Hi.
    destruct (group_members_share_key frames w u k i g row Hg Hrow Hi)
      as (frame & Hframe & _ & _ & Hs).
    exists frame. split; assumption.
Qed.

(** C7 (amended) at the 32-character binary frame and at the gzip frames. *)
Lemma size_bucket_from_payload_length_witness :
  frameSizeCategory binaryFrame24 = small
  /\ exists frame,
       gzipFrames !! 4%nat = Some frame /\ tiny = frameSizeCategory frame.
Proof.
  destruct size_bucket_from_payload_length as [Hframe Hgroup].
  split.
  - destruct (Hframe binaryFrame24) as (_ & Hsmall & _).
    apply Hsmall. vm_compute. split; [discriminate|reflexivity].
  - apply (Hgroup gzipFrames 1 "u"%string 0%nat 4%nat
             {| id := "A"; mDirection := received; head4B := "1f8b0800";
                sizeCategory := tiny; count := 5; minSize := 12; maxSize := 12;
                hint := "Gzip"; sampleIndices := [0; 1; 2]%nat |}
             ("A"%string, [0; 1; 2; 3; 4]%nat)).
    + vm_compute. reflexivity.
    + vm_compute. reflexivity.
    + apply list_elem_of_In. cbn. tauto.
Defined.

(** ** Group identifiers of the summary *)

Lemma StronglySorted_lookup {A} (R : A -> A -> Prop) (l : list A) :
  StronglySorted R l ->
  forall i j x y, (i < j)%nat -> l !! i = Some x -> l !! j = Some y -> R x y.
Proof.
  induction 1 as [|a l Hl IH Ha]; intros i j x y Hlt Hi Hj; [discriminate|].
  destruct i as [|i], j as [|j]; cbn in Hi, Hj; try lia.
  - injection Hi as <-. rewrite Forall_forall in Ha. apply Ha.
    eapply list_elem_of_lookup_2. exact Hj.
  - apply (IH i j); [lia|assumption..].
Qed.

Lemma groups_ranked (frames : list WebSocketFrame) (w : Z) (u : string) :
  (forall k g,
      groups (analyzeWebSocketFramesV2 frames w u) !! k = Some g ->
      id g = generateGroupId (Z.of_nat k))
  /\ (forall k1 k2 g1 g2,
        (k1 < k2)%nat ->
        groups (analyzeWebSocketFramesV2 frames w u) !! k1 = Some g1 ->
        groups (analyzeWebSocketFramesV2 frames w u) !! k2 = Some g2 ->
        (count g2 <= count g1)%nat).
Proof.
  destruct (analyze_tables frames w u) as (-> & _ & _).
  set (entries := sort byCountDescending (groupFrames frames 0 [])).
  split.
  - intros k g Hg. apply groupsFrom_lookup in Hg as (e & _ & ->). reflexivity.
  - intros k1 k2 g1 g2 Hlt H1 H2.
    apply groupsFrom_lookup in H1 as (e1 & He1 & ->).
    apply groupsFrom_lookup in H2 as (e2 & He2 & ->).
    cbn [toMessageGroup count].
    pose proof (sort_sorted (groupFrames frames 0 [])) as Hsorted.
    fold entries in Hsorted.
    apply (StronglySorted_lookup _ _ Hsorted k1 k2 e1 e2); assumption.
Qed.

(** C8. Group ID sequence. [generateGroupId] is the bijective base-26
    numeration: ranks 0, 25, 26, 27 give "A", "Z", "AA", "AB"; a rank below 26
    gives one letter; a rank [n >= 26] gives the identifier of [n / 26 - 1]
    followed by the letter of [n mod 26]; distinct ranks give distinct
    identifiers. In every summary the group at rank [k] of the list sorted by
    descending count carries [generateGroupId k]; so with 27 groups the 27th
    is "AA". *)
Theorem group_id_sequence :
  (generateGroupId 0 = "A"%string /\ generateGroupId 25 = "Z"%string
   /\ generateGroupId 26 = "AA"%string /\ generateGroupId 27 = "AB"%string)
  /\ (forall n, 0 <= n < 26 ->
        generateGroupId n = String (fromCharCode (65 + n)) "")
  /\ (forall n, 26 <= n ->
        generateGroupId n
        = generateGroupId (n / 26 - 1) +:+ String (fromCharCode (65 + n mod 26)) "")
  /\ (forall n m, 0 <= n -> 0 <= m ->
        generateGroupId n = generateGroupId m -> n = m)
  /\ (forall frames w u,
        let s := analyzeWebSocketFramesV2 frames w u in
        (forall k g, groups s !! k = Some g -> id g = generateGroupId (Z.of_nat k))
        /\ (forall k1 k2 g1 g2,
              (k1 < k2)%nat ->
              groups s !! k1 = Some g1 -> groups s !! k2 = Some g2 ->
              (count g2 <= count g1)%nat)
        /\ (length (groups s) = 27%nat ->
            exists g, groups s !! 26%nat = Some g /\ id g = "AA"%string)).
Proof.
  split; [exact generateGroupId_values|].
  split; [exact generateGroupId_digit|].
  split; [exact generateGroupId_step|].
  split; [intros n m; apply generateGroupId_inj|].
  intros frames w u. cbv zeta.
  destruct (groups_ranked frames w u) as [Hid Hdesc].
  split; [exact Hid|]. split; [exact Hdesc|].
  intros Hlen.
  destruct (groups (analyzeWebSocketFramesV2 frames w u) !! 26%nat) as [g|] eqn:Hg.
  - exists g. split; [reflexivity|]. rewrite (Hid 26%nat g Hg). reflexivity.
  - apply lookup_ge_None in Hg. lia.
Qed.

(** C8 at 27 frames with 27 different heads. *)
Lemma group_id_sequence_witness :
  exists g,
    groups (analyzeWebSocketFramesV2 (distinctFrames 27) 1 "u") !! 26%nat = Some g
    /\ id g = "AA"%string.
Proof.
  destruct group_id_sequence as (_ & _ & _ & _ & Hsummary).
  destruct (Hsummary (distinctFrames 27) 1 "u"%string) as (_ & _ & H27).
  apply H27. vm_compute. reflexivity.
Defined.

(** ** The index lists partition the frames *)

Lemma groupsFrom_counts (entries : list (string * Group)) : forall idx,
  map count (groupsFrom idx entries)
  = map (fun e => length (indices (snd e))) entries.
Proof.
  induction entries as [|e entries IH]; intros idx; cbn; [reflexivity|].
  rewrite IH. reflexivity.
Qed.

(** C10. Group index lists partition the frame list. For the summary of [n]
    frames: the index lists of [groupToIndices], taken together, hold every
    index 0 .. n-1 exactly once (so they are pairwise disjoint and their
    union is that range); the table has one row per group, under distinct
    identifiers, and the row of a group has its identifier and as many
    indices as the group's [count]; the counts add up to [totalFrames = n];
    every index list is strictly increasing; and [sampleIndices] is the first
    [min 3 count] entries of the group's index list. *)
Theorem group_indices_partition (frames : list WebSocketFrame) (w : Z) (u : string) :
  let s := analyzeWebSocketFramesV2 frames w u in
  let lists := map snd (groupToIndices s) in
  Permutation (concat lists) (seq 0 (length frames))
  /\ (forall i, i ∈ concat lists <-> (i < length frames)%nat)
  /\ (forall k1 k2 l1 l2 i,
        k1 ≠ k2 -> lists !! k1 = Some l1 -> lists !! k2 = Some l2 ->
        i ∈ l1 -> i ∉ l2)
  /\ NoDup (map fst (groupToIndices s))
  /\ Forall2 (fun g row =>
                id g = fst row
                /\ count g = length (snd row)
                /\ sampleIndices g = take (Nat.min 3 (count g)) (snd row))
       (groups s) (groupToIndices s)
  /\ sum_list (map count (groups s)) = totalFrames s
  /\ totalFrames s = length frames
  /\ Forall (StronglySorted lt) lists.
Proof.
  cbv zeta.
  destruct (analyze_tables frames w u) as (-> & -> & ->).
  set (entries := sort byCountDescending (groupFrames frames 0 [])).
  destruct (groupFrames_partition frames) as [(Hkeys & Hperm & Hsorted) _].
  assert (Hentries : Permutation entries (groupFrames frames 0 []))
    by apply sort_Permutation.
  rewrite indexFrom_snd.
  assert (Hperm' : Permutation (concat (map (fun e => indices (snd e)) entries))
                     (seq 0 (length frames))).
  { rewrite (Permutation_concat_map _ _ _ Hentries). exact Hperm. }
  split; [exact Hperm'|]. split; [|split; [|split; [|split; [|split; [|split]]]]].
  - intros i. rewrite Hperm', elem_of_seq. lia.
  - intros k1 k2 l1 l2 i. apply NoDup_concat_disjoint.
    rewrite Hperm'. apply NoDup_seq.
  - rewrite indexFrom_fst. apply NoDup_fmap_2; [|apply NoDup_seq].
    intros i j. apply generateGroupId_of_nat_inj.
  - apply groupsFrom_indexFrom.
  - rewrite groupsFrom_counts.
    transitivity (length (concat (map (fun e => indices (snd e)) entries))).
    + rewrite length_concat_sum, map_map. reflexivity.
    + rewrite Hperm'. apply length_seq.
  - reflexivity.
  - apply Forall_fmap. rewrite Hentries. exact Hsorted.
Qed.

(** C10 at three frames with three different heads. *)
Lemma group_indices_partition_witness :
  Permutation
    (concat (map snd (groupToIndices (analyzeWebSocketFramesV2 (distinctFrames 3) 1 "u"))))
    [0; 1; 2]%nat
  /\ sum_list (map count (groups (analyzeWebSocketFramesV2 (distinctFrames 3) 1 "u")))
     = 3%nat.
Proof.
  destruct (group_indices_partition (distinctFrames 3) 1 "u"%string)
    as (Hperm & _ & _ & _ & _ & Hsum & Htotal & _).
  split; [exact Hperm|]. rewrite Hsum. exact Htotal.
Defined.

End TrafficSpec.

(* ===================================================================== *)
(** * Further properties of the generic collector and the Network rotation *)
(* ===================================================================== *)

Module PageCollectorFacts.

Import IdGenerator PageCollector PageCollectorMore.

(** ** Queries *)

Lemma find_first_match {A} (f : A -> bool) (l : list A) (x : A) :
  x ∈ l -> f x = true -> exists y, List.find f l = Some y /\ y ∈ l /\ f y = true.
Proof.
  intros Hin Hf. destruct (List.find f l) as [y|] eqn:Hfind.
  - exists y. apply find_some in Hfind as [Hy Hfy].
    split; [reflexivity|]. split; [apply list_elem_of_In; exact Hy|exact Hfy].
  - apply list_elem_of_In in Hin. pose proof (find_none f l Hfind x Hin). congruence.
Qed.

Lemma findIn_None (filter : Ref -> bool) (navigations : list (list Ref)) :
  findIn filter navigations = None
  <-> forall x, x ∈ concat navigations -> filter x = false.
Proof.
  induction navigations as [|navigation older IH]; cbn [findIn concat].
  - split; [intros _ x Hx; apply elem_of_nil in Hx; destruct Hx|reflexivity].
  - destruct (List.find filter navigation) as [item|] eqn:Hfind.
    + split; [discriminate|]. intros Hall. apply find_some in Hfind as [Hin Hf].
      rewrite Hall in Hf; [discriminate|].
      apply elem_of_app. left. apply list_elem_of_In. exact Hin.
    + rewrite IH. split.
      * intros Hall x Hx. apply elem_of_app in Hx as [Hx|Hx]; [|apply Hall; exact Hx].
        apply (find_none filter navigation Hfind). apply list_elem_of_In. exact Hx.
      * intros Hall x Hx. apply Hall. apply elem_of_app. right. exact Hx.
Qed.

Lemma findIn_only_match (filter : Ref -> bool) (navigations : list (list Ref)) (x : Ref) :
  x ∈ concat navigations -> filter x = true ->
  (forall y, y ∈ concat navigations -> filter y = true -> y = x) ->
  findIn filter navigations = Some x.
Proof.
  intros Hx Hf Honly. destruct (findIn filter navigations) as [y|] eqn:Hfind.
  - apply PageCollectorSpec.findIn_retained in Hfind as [Hy Hfy].
    rewrite (Honly y Hy Hfy). reflexivity.
  - rewrite findIn_None in Hfind. rewrite (Hfind x Hx) in Hf. discriminate.
Qed.

(** X1. Every answer of a query is an item of a retained epoch of the page,
    [find] answers only items that pass the filter, and [getById] answers only
    an item that carries the requested identifier. *)
Theorem queries_answer_retained_items c page navigations :
  storage c !! page = Some navigations ->
  (forall includePreservedData x,
      x ∈ getData c page includePreservedData -> x ∈ concat navigations)
  /\ (forall filter x,
        find c page filter = Some x -> x ∈ concat navigations /\ filter x = true)
  /\ (forall stableId x,
        getById c page stableId = inr x ->
        x ∈ concat navigations /\ getIdForResource c x = stableId).
Proof.
  intros Hst. split; [|split].
  - intros inc x. apply PageCollectorSpec.getData_retained. exact Hst.
  - intros filter x. unfold find. rewrite Hst.
    apply PageCollectorSpec.findIn_retained.
  - intros stableId x. unfold getById, find. rewrite Hst.
    destruct (findIn _ navigations) as [item|] eqn:Hfind; [|discriminate].
    intros [= ->]. apply PageCollectorSpec.findIn_retained in Hfind as [Hin Hf].
    split; [exact Hin|]. apply bool_decide_eq_true_1 in Hf.
    unfold getIdForResource. rewrite Hf. reflexivity.
Qed.

(** X1 on a concrete input. *)
Lemma queries_answer_retained_items_witness :
  4%nat ∈ concat [[5]; [4]; [3]]%nat /\ (4 =? 4)%nat = true.
Proof.
  destruct (queries_answer_retained_items
              (run Generic noNavigationBrowser empty fourNavigations) 0%nat
              [[5]; [4]; [3]]%nat) as (_ & Hfind & _).
  - vm_compute. reflexivity.
  - apply (Hfind (fun x => (x =? 4)%nat) 4%nat). vm_compute. reflexivity.
Defined.

(** X2. [getById] raises "No requests found for selected page" exactly on
    an untracked page, and on a tracked page it raises "Request not found for
    selected page" exactly when no retained item carries the identifier. *)
Theorem getById_errors c page stableId :
  (getById c page stableId = inl "No requests found for selected page"%string
   <-> storage c !! page = None)
  /\ (forall navigations,
        storage c !! page = Some navigations ->
        (getById c page stableId = inl "Request not found for selected page"%string
         <-> forall x, x ∈ concat navigations -> stableIds c !! x ≠ Some stableId)).
Proof.
  split.
  - unfold getById, find. destruct (storage c !! page) as [navigations|].
    + split; [|discriminate]. destruct (findIn _ navigations); discriminate.
    + split; reflexivity.
  - intros navigations Hst. unfold getById, find. rewrite Hst.
    destruct (findIn _ navigations) as [item|] eqn:Hfind.
    + split; [discriminate|]. intros Hall.
      apply PageCollectorSpec.findIn_retained in Hfind as [Hin Hf].
      apply bool_decide_eq_true_1 in Hf. destruct (Hall item Hin Hf).
    + split; [|reflexivity]. intros _ x Hx.
      rewrite findIn_None in Hfind. specialize (Hfind x Hx).
      apply bool_decide_eq_false_1 in Hfind. exact Hfind.
Qed.

(** X2 on a concrete input. *)
Lemma getById_errors_witness :
  getById (run Generic noNavigationBrowser empty fourNavigations) 0%nat 1
  = inl "Request not found for selected page"%string.
Proof.
  destruct (getById_errors (run Generic noNavigationBrowser empty fourNavigations)
              0%nat 1) as [_ Hnot].
  apply (Hnot [[5]; [4]; [3]]%nat).
  - vm_compute. reflexivity.
  - intros x Hx. apply list_elem_of_In in Hx.
    destruct Hx as [<-|[<-|[<-|[]]]]; vm_compute; discriminate.
Defined.

(** X3. Looking an item up by its own identifier gives the item back. In a
    trace of the generic or the Network collector where the objects produced
    on [page] are produced on no other page and fewer than [MAX_SAFE_INTEGER]
    of them are produced, [getById page (getIdForResource x)] answers [x] for
    every retained item [x]. *)
Theorem getById_getIdForResource k b page evs navigations x :
  (forall q z, Collected q z ∈ evs -> Collected page z ∈ evs -> q = page) ->
  Z.of_nat (collectedCount page evs) < MAX_SAFE_INTEGER ->
  storage (run k b empty evs) !! page = Some navigations ->
  x ∈ concat navigations ->
  getById (run k b empty evs) page (getIdForResource (run k b empty evs) x) = inr x.
Proof.
  intros Hpage Hbound Hst Hx.
  destruct (PageCollectorSpec.run_idsFresh k b (fun z => Collected page z ∈ evs)
              page evs 0 empty ltac:(lia) (PageCollectorSpec.idsFresh_empty _ page))
    with (navigations := navigations) as (i & Hi & Hrange & Hids & Hinj).
  - intros q z Hin. split; [intros <-; exact Hin|apply Hpage; exact Hin].
  - lia.
  - exact Hst.
  - destruct (Hids x Hx) as (_ & sid & Hid & _).
    unfold getById, find, getIdForResource. rewrite Hst, Hid. cbn [default from_option id].
    rewrite (findIn_only_match _ navigations x); [reflexivity|exact Hx| |].
    + apply bool_decide_eq_true_2. exact Hid.
    + intros y Hy Hfy. apply bool_decide_eq_true_1 in Hfy.
      apply Hinj; [exact Hy|exact Hx|congruence].
Qed.

(** X3 on a concrete input. *)
Lemma getById_getIdForResource_witness :
  getById (run Network sampleBrowser empty fiveRequests) 0%nat
    (getIdForResource (run Network sampleBrowser empty fiveRequests) 4%nat)
  = inr 4%nat.
Proof.
  apply (getById_getIdForResource Network sampleBrowser 0%nat fiveRequests
           [[1; 2; 3; 4; 5]]%nat 4%nat).
  - intros q z Hin _. apply list_elem_of_In in Hin.
    repeat (destruct Hin as [Hin|Hin]; [congruence|]). destruct Hin.
  - vm_compute. reflexivity.
  - vm_compute. reflexivity.
  - apply list_elem_of_In. cbn. tauto.
Defined.

(** ** Collection and rotation over traces *)

Lemma run_app k b c evs evs' :
  run k b c (evs ++ evs') = run k b (run k b c evs) evs'.
Proof. unfold run. apply fold_left_app. Qed.

Lemma concat_reverse_cons {A} (current : list A) (older : list (list A)) :
  concat (reverse (current :: older)) = concat (reverse older) ++ current.
Proof. rewrite reverse_cons, concat_app. cbn [concat]. rewrite app_nil_r. reflexivity. Qed.

(** X4. A collected item goes to the end of both views. When the listeners of
    [page] are installed after a trace, the next item collected on the page is
    appended to what [getData] answered before, with and without the preserved
    epochs, and it carries the value the page's generator yields. *)
Theorem collected_item_is_last k b evs page i x :
  listeners (run k b empty evs) !! page = Some i ->
  let c := run k b empty evs in
  let c' := run k b empty (evs ++ [Collected page x]) in
  (forall includePreservedData,
      getData c' page includePreservedData = getData c page includePreservedData ++ [x])
  /\ getIdForResource c' x = fst (idGenerator i).
Proof.
  intros Hl c c'. subst c'. rewrite run_app. fold c. fold c in Hl.
  cbn [run fold_left step]. rewrite Hl.
  destruct (PageCollectorSpec.run_wellTracked k b evs page) as [Htracked Hnonempty].
  fold c in Htracked, Hnonempty.
  destruct (storage c !! page) as [navigations|] eqn:Hst;
    [|destruct Htracked as [_ Hnone]; rewrite Hnone in Hl; [discriminate|reflexivity]].
  destruct navigations as [|current older]; [congruence|].
  unfold collect. destruct (idGenerator i) as [sid i'] eqn:Hgen. split.
  - intros inc. unfold getData. cbn [storage]. rewrite Hst, lookup_insert_eq.
    cbn [pushCurrent]. destruct inc; cbn [negb].
    + rewrite !PageCollectorSpec.getDataLoop_spec. cbn [app].
      unfold maxNavigationSaved. rewrite !firstn_cons, !concat_reverse_cons.
      rewrite app_assoc. reflexivity.
    + reflexivity.
  - unfold getIdForResource. cbn [stableIds]. rewrite lookup_insert_eq. reflexivity.
Qed.

(** X4 on a concrete input. *)
Lemma collected_item_is_last_witness :
  getData (run Generic noNavigationBrowser empty (fourNavigations ++ [Collected 0%nat 6%nat]))
    0%nat true
  = getData (run Generic noNavigationBrowser empty fourNavigations) 0%nat true ++ [6%nat].
Proof.
  apply (collected_item_is_last Generic noNavigationBrowser fourNavigations 0%nat 6 6%nat).
  vm_compute. reflexivity.
Defined.

(** X5. What a main-frame navigation does to the two views of the generic
    collector. After any trace the full view of a tracked page is the retained
    epochs, oldest first; the navigation empties the current view and leaves
    in the full view the items of the two newest epochs only. *)
Theorem generic_navigation_views b evs page navigations :
  storage (run Generic b empty evs) !! page = Some navigations ->
  let c := run Generic b empty evs in
  let c' := run Generic b empty (evs ++ [FrameNavigated page true]) in
  getData c page true = concat (reverse navigations)
  /\ getData c' page false = []
  /\ getData c' page true = concat (reverse (take 2 navigations)).
Proof.
  intros Hst c c'. subst c'. rewrite run_app. fold c. fold c in Hst.
  destruct (PageCollectorSpec.generic_retention_bound b evs page navigations Hst)
    as [_ Hlen]. unfold maxNavigationSaved in Hlen.
  destruct (PageCollectorSpec.run_wellTracked Generic b evs page) as [Htracked _].
  fold c in Htracked.
  destruct (listeners c !! page) as [i|] eqn:Hl;
    [|destruct Htracked as [Hnone _]; rewrite Hnone in Hst; [discriminate|reflexivity]].
  split.
  - unfold getData. rewrite Hst. cbn [negb].
    apply PageCollectorSpec.getDataLoop_all. unfold maxNavigationSaved. lia.
  - cbn [run fold_left step]. rewrite Hl. cbn [onFrameNavigated].
    unfold splitAfterNavigation, getData. rewrite Hst. cbn [storage].
    rewrite lookup_insert_eq. cbn [negb]. split; [reflexivity|].
    rewrite PageCollectorSpec.getDataLoop_all
      by (rewrite length_take; unfold maxNavigationSaved; cbn [length]; lia).
    unfold maxNavigationSaved. rewrite firstn_cons, concat_reverse_cons.
    apply app_nil_r.
Qed.

(** X5 on a concrete input. *)
Lemma generic_navigation_views_witness :
  getData (run Generic noNavigationBrowser empty (fourNavigations ++ [FrameNavigated 0%nat true]))
    0%nat true = [4; 5]%nat.
Proof.
  destruct (generic_navigation_views noNavigationBrowser fourNavigations 0%nat
              [[5]; [4]; [3]]%nat) as (_ & _ & Hfull).
  - vm_compute. reflexivity.
  - exact Hfull.
Defined.

Lemma collectedOn_single page e :
  collectedOn page [e]
  = match e with
    | Collected q x => if decide (q = page) then [x] else []
    | _ => []
    end.
Proof.
  destruct e; try reflexivity. unfold collectedOn. simpl.
  destruct (decide _); reflexivity.
Qed.

Lemma network_step_history b c e page navigations :
  wellTracked c ->
  storage c !! page = Some navigations ->
  e ≠ TargetDestroyed page ->
  exists navigations',
    storage (step Network b c e) !! page = Some navigations'
    /\ concat (reverse navigations')
       = concat (reverse navigations) ++ collectedOn page [e].
Proof.
  intros Hwt Hst He. destruct (Hwt page) as [Htracked Hnonempty].
  rewrite collectedOn_single.
  destruct e as [q|q x|q m|q|q rid ini]; cbn [step].
  - destruct (PageCollectorSpec.addPage_effect Network q c) as (_ & Hnew & Hold).
    destruct (storage c !! q) as [l|] eqn:Hq.
    + destruct Hold as [-> _]; [congruence|]. exists navigations.
      rewrite app_nil_r. split; [exact Hst|reflexivity].
    + destruct Hnew as [-> _]; [reflexivity|].
      assert (q ≠ page) by congruence.
      rewrite lookup_insert_ne by assumption. exists navigations.
      rewrite app_nil_r. split; [exact Hst|reflexivity].
  - destruct (decide (q = page)) as [->|Hq].
    + destruct (listeners c !! page) as [i|] eqn:Hl;
        [|destruct Htracked as [Hnone _]; rewrite Hnone in Hst; [discriminate|reflexivity]].
      destruct navigations as [|current older]; [congruence|].
      unfold collect. destruct (idGenerator i) as [sid i']. cbn [storage].
      rewrite Hst, lookup_insert_eq. cbn [pushCurrent]. eexists. split; [reflexivity|].
      rewrite !concat_reverse_cons.
      destruct (decide (page = page)) as [_|Hne]; [|congruence].
      rewrite app_assoc. reflexivity.
    + exists navigations. destruct (decide (q = page)) as [Heq|_]; [congruence|].
      rewrite app_nil_r. split; [|reflexivity].
      destruct (listeners c !! q) as [i|]; [|exact Hst].
      unfold collect. destruct (idGenerator i) as [sid i']. cbn [storage].
      destruct (storage c !! q); [rewrite lookup_insert_ne by assumption|]; exact Hst.
  - rewrite app_nil_r. destruct (listeners c !! q) as [i|]; [|eauto].
    destruct m; [|eauto]. destruct (decide (q = page)) as [->|Hq].
    + destruct navigations as [|requests older]; [congruence|].
      destruct (PageCollectorSpec.splitAfterNavigationNetwork_storage b page c
                  requests older Hst)
        as (c' & Hsplit & _ & _ & _ & n & _ & Hst' & _).
      unfold onFrameNavigated. rewrite Hsplit. cbn [default from_option].
      eexists. split; [exact Hst'|].
      rewrite !concat_reverse_cons, <- app_assoc, take_drop. reflexivity.
    + destruct (PageCollectorSpec.onFrameNavigated_effect Network b q c)
        as (_ & _ & Hother & _).
      rewrite Hother by congruence. eauto.
  - rewrite app_nil_r. cbn [cleanupPageDestroyed storage].
    rewrite lookup_delete_ne by congruence. eauto.
  - rewrite app_nil_r.
    destruct (PageCollectorSpec.onRequestWillBeSent_effect q rid ini c) as (-> & _).
    eauto.
Qed.

Lemma collectedOn_cons page e evs :
  collectedOn page (e :: evs) = collectedOn page [e] ++ collectedOn page evs.
Proof.
  rewrite collectedOn_single. unfold collectedOn.
  destruct e as [q|q x|q m|q|q rid ini]; try reflexivity.
  simpl. destruct (decide (q = page)); reflexivity.
Qed.

Lemma network_run_history b page evs' : forall c navigations,
  wellTracked c ->
  storage c !! page = Some navigations ->
  TargetDestroyed page ∉ evs' ->
  exists navigations',
    storage (run Network b c evs') !! page = Some navigations'
    /\ concat (reverse navigations')
       = concat (reverse navigations) ++ collectedOn page evs'.
Proof.
  induction evs' as [|e evs' IH]; intros c navigations Hwt Hst Hno.
  - exists navigations. rewrite app_nil_r. split; [exact Hst|reflexivity].
  - destruct (network_step_history b c e page navigations Hwt Hst)
      as (navigations1 & Hst1 & Hh1).
    { intros ->. apply Hno. apply list_elem_of_here. }
    destruct (IH (step Network b c e) navigations1) as (navigations' & Hst' & Hh').
    + apply PageCollectorSpec.step_wellTracked. exact Hwt.
    + exact Hst1.
    + intros Hin. apply Hno. apply list_elem_of_further. exact Hin.
    + exists navigations'. split; [exact Hst'|].
      rewrite Hh', Hh1, (collectedOn_cons page e evs'), app_assoc. reflexivity.
Qed.

(** X6. The Network collector forgets nothing while the page lives. From the
    moment a page is tracked until it is destroyed, the retained epochs read
    oldest first are exactly the requests collected on the page, in the order
    they were collected: navigations only move the epoch boundaries. *)
Theorem network_history_is_everything_collected b evs evs' page navigations :
  storage (run Network b empty evs) !! page = Some navigations ->
  TargetDestroyed page ∉ evs' ->
  exists navigations',
    storage (run Network b empty (evs ++ evs')) !! page = Some navigations'
    /\ concat (reverse navigations')
       = concat (reverse navigations) ++ collectedOn page evs'.
Proof.
  intros Hst Hno. rewrite run_app.
  apply network_run_history; [apply PageCollectorSpec.run_wellTracked|exact Hst|exact Hno].
Qed.

(** X6 on a concrete input. *)
Lemma network_history_is_everything_collected_witness :
  exists navigations',
    storage (run Network noNavigationBrowser empty
               ([TargetCreated 0%nat] ++ List.tl fourNavigations)) !! 0%nat
    = Some navigations'
    /\ concat (reverse navigations') = [1; 2; 3; 4; 5]%nat.
Proof.
  apply (network_history_is_everything_collected noNavigationBrowser
           [TargetCreated 0%nat] (List.tl fourNavigations) 0%nat [[]]).
  - vm_compute. reflexivity.
  - intros Hin. apply list_elem_of_In in Hin. cbn in Hin.
    repeat (destruct Hin as [Hin|Hin]; [discriminate|]). destruct Hin.
Defined.

(** ** The initiator table of the Network collector *)

Lemma step_initiatorsTracked b c e :
  wellTracked c -> initiatorsTracked c -> initiatorsTracked (step Network b c e).
Proof.
  intros Hwt Hc p. specialize (Hc p).
  destruct e as [q|q x|q m|q|q rid ini]; cbn [step].
  - unfold addPage, setupInitiatorCollection, initializePage.
    destruct (storage c !! q) as [l|] eqn:Hq.
    + destruct (initiators c !! q) as [im|] eqn:Hi; [exact Hc|].
      cbn [storage initiators]. destruct (decide (p = q)) as [->|Hp].
      * rewrite lookup_insert_eq, Hq. split; discriminate.
      * rewrite lookup_insert_ne by congruence. exact Hc.
    + cbn [initiators storage].
      destruct (initiators c !! q) as [im|] eqn:Hi; cbn [storage initiators];
        (destruct (decide (p = q)) as [->|Hp];
         [rewrite ?lookup_insert_eq, ?Hi; split; discriminate
         |rewrite ?lookup_insert_ne by congruence; exact Hc]).
  - destruct (listeners c !! q) as [i|]; [|exact Hc].
    unfold collect. destruct (idGenerator i) as [sid i']. cbn [storage initiators].
    destruct (storage c !! q) as [l|] eqn:Hq; [|exact Hc].
    destruct (decide (p = q)) as [->|Hp].
    + rewrite lookup_insert_eq. rewrite Hq in Hc. rewrite Hc. split; discriminate.
    + rewrite lookup_insert_ne by congruence. exact Hc.
  - destruct (listeners c !! q) as [i|]; [|exact Hc]. destruct m; [|exact Hc].
    unfold onFrameNavigated, splitAfterNavigationNetwork.
    destruct (storage c !! q) as [[|requests older]|] eqn:Hq;
      cbn [default from_option id]; try exact Hc.
    cbn [storage initiators]. destruct (decide (p = q)) as [->|Hp].
    + rewrite lookup_insert_eq. rewrite Hq in Hc.
      destruct (initiators c !! q) eqn:Hi; [|destruct Hc as [Hc _]; discriminate (Hc eq_refl)].
      rewrite lookup_insert_eq. split; discriminate.
    + rewrite lookup_insert_ne by congruence.
      destruct (initiators c !! q); [rewrite lookup_insert_ne by congruence|]; exact Hc.
  - cbn [cleanupPageDestroyed storage initiators].
    destruct (decide (p = q)) as [->|Hp].
    + rewrite !lookup_delete_eq. split; reflexivity.
    + rewrite !lookup_delete_ne by congruence. exact Hc.
  - unfold onRequestWillBeSent.
    destruct (initiators c !! q) as [im|] eqn:Hi; [|exact Hc].
    destruct ini as [ini|]; [|exact Hc]. cbn [storage initiators].
    destruct (decide (p = q)) as [->|Hp].
    + rewrite lookup_insert_eq. rewrite Hi in Hc. rewrite <- Hc. split; discriminate.
    + rewrite lookup_insert_ne by congruence. exact Hc.
Qed.

Lemma run_initiatorsTracked b evs : initiatorsTracked (run Network b empty evs).
Proof.
  assert (forall c, wellTracked c -> initiatorsTracked c ->
                    initiatorsTracked (run Network b c evs)) as H.
  { induction evs as [|e evs IH]; intros c Hwt Hc; [exact Hc|].
    cbn [run fold_left]. apply IH.
    - apply PageCollectorSpec.step_wellTracked. exact Hwt.
    - apply step_initiatorsTracked; assumption. }
  apply H.
  - intros p. cbn [empty listeners storage]. rewrite !lookup_empty.
    split; [split; reflexivity|discriminate].
  - intros p. cbn [empty initiators storage]. rewrite !lookup_empty. split; reflexivity.
Qed.

Lemma elem_of_concat_reverse {A} (x : A) (ls : list (list A)) :
  x ∈ concat (reverse ls) <-> x ∈ concat ls.
Proof.
  rewrite !PageCollectorSpec.elem_of_concat.
  split; intros (l & Hx & Hl); exists l; (split; [exact Hx|]).
  - rewrite elem_of_reverse in Hl. exact Hl.
  - rewrite elem_of_reverse. exact Hl.
Qed.

(** X7. Initiators are remembered per request ID until the next main-frame
    navigation. On a page tracked by the Network collector, reporting an
    initiator for a request ID makes [getInitiatorByRequestId] answer it for
    that ID and leaves every other ID as it was; a main-frame navigation
    forgets all initiators of the page, although the requests themselves are
    all kept. *)
Theorem initiators_kept_until_navigation b evs page navigations :
  storage (run Network b empty evs) !! page = Some navigations ->
  let c := run Network b empty evs in
  (forall requestId initiator other,
      getInitiatorByRequestId
        (run Network b empty (evs ++ [RequestWillBeSent page requestId (Some initiator)]))
        page other
      = if decide (other = requestId) then Some initiator
        else getInitiatorByRequestId c page other)
  /\ (forall requestId,
        getInitiatorByRequestId
          (run Network b empty (evs ++ [FrameNavigated page true])) page requestId
        = None)
  /\ (forall x, x ∈ concat navigations ->
        exists navigations',
          storage (run Network b empty (evs ++ [FrameNavigated page true])) !! page
          = Some navigations'
          /\ x ∈ concat navigations').
Proof.
  intros Hst c. fold c in Hst.
  pose proof (run_initiatorsTracked b evs page) as Hinit. fold c in Hinit.
  destruct (PageCollectorSpec.run_wellTracked Network b evs page) as [Htracked Hne].
  fold c in Htracked, Hne.
  destruct (initiators c !! page) as [im|] eqn:Hi;
    [|destruct Hinit as [Hnone _]; rewrite Hnone in Hst; [discriminate|reflexivity]].
  destruct (listeners c !! page) as [i|] eqn:Hl;
    [|destruct Htracked as [Hnone _]; rewrite Hnone in Hst; [discriminate|reflexivity]].
  destruct navigations as [|requests older]; [congruence|].
  split; [|split].
  - intros rid ini other. rewrite run_app. fold c. cbn [run fold_left step].
    unfold onRequestWillBeSent, getInitiatorByRequestId. rewrite Hi.
    cbn [initiators]. rewrite lookup_insert_eq. cbn [mbind option_bind].
    destruct (decide (other = rid)) as [->|Hother].
    + apply lookup_insert_eq.
    + apply lookup_insert_ne. congruence.
  - intros rid. rewrite run_app. fold c. cbn [run fold_left step]. rewrite Hl.
    unfold onFrameNavigated, splitAfterNavigationNetwork, getInitiatorByRequestId.
    rewrite Hst, Hi. cbn [default from_option id initiators].
    rewrite lookup_insert_eq. cbn [mbind option_bind]. apply lookup_empty.
  - intros x Hx. rewrite run_app. fold c.
    destruct (network_run_history b page [FrameNavigated page true] c
                (requests :: older)) as (navigations' & Hst' & Hh).
    + apply PageCollectorSpec.run_wellTracked.
    + exact Hst.
    + intros Hin. apply list_elem_of_In in Hin. destruct Hin as [Hin|[]]. discriminate.
    + exists navigations'. split; [exact Hst'|].
      rewrite app_nil_r in Hh.
      apply elem_of_concat_reverse. rewrite Hh. apply elem_of_concat_reverse. exact Hx.
Qed.

(** X7 on a concrete input. *)
Lemma initiators_kept_until_navigation_witness :
  getInitiatorByRequestId (run Network sampleBrowser empty twoInitiators) 0%nat "r-1"
  = Some {| initiatorType := "script"; initiatorUrl := None |}
  /\ getInitiatorByRequestId
       (run Network sampleBrowser empty (twoInitiators ++ [FrameNavigated 0%nat true]))
       0%nat "r-1" = None.
Proof.
  split; [vm_compute; reflexivity|].
  destruct (initiators_kept_until_navigation sampleBrowser twoInitiators 0%nat
              [[1; 2]]%nat) as (_ & Hnav & _).
  - vm_compute. reflexivity.
  - apply Hnav.
Defined.

(** ** Pages that are destroyed or announced again *)

Lemma step_untracked k b c e page :
  untracked page c -> e ≠ TargetCreated page ->
  untracked page (step k b c e)
  /\ (initiators c !! page = None -> initiators (step k b c e) !! page = None).
Proof.
  intros [Hst Hl] He. unfold untracked.
  destruct e as [q|q x|q m|q|q rid ini]; cbn [step].
  - assert (q ≠ page) as Hq by congruence.
    unfold addPage, setupInitiatorCollection, initializePage.
    destruct k; destruct (storage c !! q) eqn:Hsq; cbn [storage listeners initiators];
      try (destruct (initiators c !! q) eqn:Hiq; cbn [storage listeners initiators]);
      rewrite ?lookup_insert_ne by congruence; auto.
  - destruct (listeners c !! q) as [i|] eqn:Hlq; [|auto].
    assert (q ≠ page) as Hq by congruence.
    unfold collect. destruct (idGenerator i) as [sid i']. cbn [storage listeners initiators].
    destruct (storage c !! q); rewrite ?lookup_insert_ne by congruence; auto.
  - destruct (listeners c !! q) as [i|] eqn:Hlq; [|auto]. destruct m; [|auto].
    assert (q ≠ page) as Hq by congruence.
    destruct (PageCollectorSpec.onFrameNavigated_effect k b q c) as (Hl' & _ & Hother & _).
    rewrite Hl', Hother by congruence. split; [auto|].
    destruct k; cbn [onFrameNavigated].
    + unfold splitAfterNavigation. destruct (storage c !! q); auto.
    + unfold splitAfterNavigationNetwork.
      destruct (default [] (storage c !! q)); cbn [default from_option id initiators]; [auto|].
      destruct (initiators c !! q); rewrite ?lookup_insert_ne by congruence; auto.
  - unfold cleanupPageDestroyed. cbn [storage listeners initiators].
    destruct (decide (q = page)) as [->|Hq].
    + rewrite !lookup_delete_eq. destruct k; rewrite ?lookup_delete_eq; auto.
    + rewrite !lookup_delete_ne by congruence.
      destruct k; rewrite ?lookup_delete_ne by congruence; auto.
  - unfold onRequestWillBeSent.
    destruct (initiators c !! q) as [im|] eqn:Hiq; [|auto].
    destruct ini as [ini|]; [|auto]. cbn [storage listeners initiators].
    split; [auto|]. intros Hi. rewrite lookup_insert_ne by congruence. exact Hi.
Qed.

Lemma run_untracked k b page evs : forall c,
  untracked page c -> initiators c !! page = None ->
  TargetCreated page ∉ evs ->
  untracked page (run k b c evs) /\ initiators (run k b c evs) !! page = None.
Proof.
  induction evs as [|e evs IH]; intros c Hc Hi Hno; [auto|].
  cbn [run fold_left]. destruct (step_untracked k b c e page Hc) as [Hc' Hi'].
  { intros ->. apply Hno. apply list_elem_of_here. }
  apply IH; [exact Hc'|exact (Hi' Hi)|].
  intros Hin. apply Hno. apply list_elem_of_further. exact Hin.
Qed.

(** X8. A destroyed page stays forgotten. After the target of a page is
    destroyed, and whatever events follow as long as the page is not announced
    again, the Network collector answers no data, no item and no initiator for
    the page and [getById] raises "No requests found for selected page": the
    requests and navigations of a destroyed page are ignored. *)
Theorem destroyed_page_forgotten b evs evs' page :
  TargetCreated page ∉ evs' ->
  let c := run Network b empty (evs ++ TargetDestroyed page :: evs') in
  (forall includePreservedData, getData c page includePreservedData = [])
  /\ (forall filter, find c page filter = None)
  /\ (forall stableId,
        getById c page stableId = inl "No requests found for selected page"%string)
  /\ (forall requestId, getInitiatorByRequestId c page requestId = None).
Proof.
  intros Hno c. subst c. rewrite run_app.
  change (run Network b (run Network b empty evs) (TargetDestroyed page :: evs'))
    with (run Network b (cleanupPageDestroyed Network page (run Network b empty evs)) evs').
  destruct (run_untracked Network b page evs'
              (cleanupPageDestroyed Network page (run Network b empty evs)))
    as [[Hst Hl] Hi].
  - split; cbn [cleanupPageDestroyed storage listeners]; apply lookup_delete_eq.
  - cbn [cleanupPageDestroyed initiators]. apply lookup_delete_eq.
  - exact Hno.
  - unfold getData, find, getById, getInitiatorByRequestId. rewrite Hst, Hi.
    repeat split.
Qed.

(** X8 on a concrete input. *)
Lemma destroyed_page_forgotten_witness :
  getData (run Network sampleBrowser empty
             (fiveRequests ++ TargetDestroyed 0%nat :: [Collected 0%nat 6%nat]))
    0%nat true = [].
Proof.
  destruct (destroyed_page_forgotten sampleBrowser fiveRequests [Collected 0%nat 6%nat]
              0%nat) as [Hdata _].
  - intros Hin. apply list_elem_of_In in Hin. destruct Hin as [Hin|[]]. discriminate.
  - apply Hdata.
Defined.

(** X9. Announcing a page that is already tracked changes nothing, in the
    generic and in the Network collector: the retained items, the state of the
    page's ID generator and the initiators all stay as they are. *)
Theorem tracked_page_announced_again k b evs page :
  storage (run k b empty evs) !! page ≠ None ->
  run k b empty (evs ++ [TargetCreated page]) = run k b empty evs.
Proof.
  intros Hst. rewrite run_app. cbn [run fold_left step].
  fold (run k b empty evs). set (c := run k b empty evs) in *.
  unfold addPage, initializePage.
  destruct (storage c !! page) as [navigations|] eqn:Hs; [|congruence].
  destruct k; [reflexivity|].
  unfold setupInitiatorCollection.
  destruct (initiators c !! page) as [im|] eqn:Hi; [reflexivity|].
  apply (run_initiatorsTracked b evs page) in Hi. fold c in Hi. congruence.
Qed.

(** X9 on a concrete input. *)
Lemma tracked_page_announced_again_witness :
  run Network sampleBrowser empty (fiveRequests ++ [TargetCreated 0%nat])
  = run Network sampleBrowser empty fiveRequests.
Proof.
  apply (tracked_page_announced_again Network sampleBrowser fiveRequests 0%nat).
  vm_compute. discriminate.
Defined.

(** X10. Identifiers start over when a destroyed page is tracked again. Whatever
    happened before, after the page is destroyed and announced again the first
    item collected on it gets the identifier 1 and is the only item the page
    answers, so identifiers are unique within one lifetime of a page only. *)
Theorem retracked_page_starts_over k b evs page x :
  let c := run k b empty
             (evs ++ [TargetDestroyed page; TargetCreated page; Collected page x]) in
  getIdForResource c x = 1
  /\ getData c page true = [x]
  /\ getById c page 1 = inr x.
Proof.
  intros c. subst c. rewrite run_app. set (c := run k b empty evs).
  change (run k b c [TargetDestroyed page; TargetCreated page; Collected page x])
    with (step k b (addPage k page (cleanupPageDestroyed k page c)) (Collected page x)).
  assert (storage (addPage k page (cleanupPageDestroyed k page c)) !! page = Some [[]]
          /\ listeners (addPage k page (cleanupPageDestroyed k page c)) !! page
             = Some createIdGenerator) as [Hst Hl].
  { destruct (PageCollectorSpec.addPage_effect k page (cleanupPageDestroyed k page c))
      as (_ & Hnew & _).
    destruct Hnew as [-> ->].
    - cbn [cleanupPageDestroyed storage]. apply lookup_delete_eq.
    - rewrite !lookup_insert_eq. split; reflexivity. }
  set (c1 := addPage k page (cleanupPageDestroyed k page c)) in *.
  cbn [step]. rewrite Hl.
  unfold collect, createIdGenerator, idGenerator.
  destruct (decide (1 = MAX_SAFE_INTEGER)) as [Heq|_]; [discriminate Heq|].
  unfold getIdForResource, getData, getById, find. cbn [storage stableIds].
  rewrite Hst, !lookup_insert_eq. cbn [pushCurrent app negb default from_option id].
  split; [reflexivity|]. split; [reflexivity|].
  cbn [findIn List.find]. rewrite bool_decide_eq_true_2 by apply lookup_insert_eq.
  reflexivity.
Qed.

(** ** Identifiers in collection order *)

Lemma allCollected_cons e evs :
  allCollected (e :: evs)
  = match e with Collected _ x => [x] | _ => [] end ++ allCollected evs.
Proof. destruct e; reflexivity. Qed.

Lemma allCollected_elem p x evs : Collected p x ∈ evs -> x ∈ allCollected evs.
Proof.
  induction evs as [|e evs IH]; intros Hin; [apply elem_of_nil in Hin; destruct Hin|].
  rewrite allCollected_cons. apply elem_of_app.
  apply list_elem_of_In in Hin. destruct Hin as [->|Hin].
  - left. left.
  - right. apply IH. apply list_elem_of_In. exact Hin.
Qed.

Lemma step_listeners_kept k b c e page i :
  wellTracked c ->
  listeners c !! page = Some i ->
  e ≠ TargetDestroyed page ->
  (forall x, e ≠ Collected page x) ->
  listeners (step k b c e) !! page = Some i.
Proof.
  intros Hwt Hl Hdestroyed Hcollected.
  destruct e as [q|q x|q m|q|q rid ini]; cbn [step].
  - destruct (PageCollectorSpec.addPage_effect k q c) as (_ & Hnew & Hold).
    destruct (storage c !! q) eqn:Hq.
    + destruct Hold as [_ ->]; [congruence|exact Hl].
    + destruct Hnew as [_ ->]; [reflexivity|].
      rewrite lookup_insert_ne; [exact Hl|]. intros ->.
      destruct (Hwt page) as [[_ Hnone] _]. rewrite (Hnone Hq) in Hl. discriminate.
  - destruct (listeners c !! q) as [j|] eqn:Hq; [|exact Hl].
    unfold collect. destruct (idGenerator j) as [sid j']. cbn [listeners].
    rewrite lookup_insert_ne; [exact Hl|]. intros ->. destruct (Hcollected x). reflexivity.
  - destruct (listeners c !! q); [|exact Hl]. destruct m; [|exact Hl].
    destruct (PageCollectorSpec.onFrameNavigated_effect k b q c) as (-> & _). exact Hl.
  - cbn [cleanupPageDestroyed listeners]. rewrite lookup_delete_ne; [exact Hl|].
    intros ->. destruct Hdestroyed. reflexivity.
  - destruct (PageCollectorSpec.onRequestWillBeSent_effect q rid ini c) as (_ & -> & _).
    exact Hl.
Qed.

Lemma run_ids_in_order k b page evs : forall c i,
  wellTracked c ->
  listeners c !! page = Some i ->
  1 <= i ->
  i + Z.of_nat (length (collectedOn page evs)) <= MAX_SAFE_INTEGER ->
  NoDup (allCollected evs) ->
  TargetDestroyed page ∉ evs ->
  forall n x,
    collectedOn page evs !! n = Some x ->
    stableIds (run k b c evs) !! x = Some (i + Z.of_nat n).
Proof.
  induction evs as [|e evs IH]; intros c i Hwt Hl Hi Hbound Hnd Hdestroyed n x Hx;
    [discriminate|].
  rewrite collectedOn_cons, collectedOn_single in Hx, Hbound.
  rewrite allCollected_cons in Hnd.
  assert (Hdestroyed' : TargetDestroyed page ∉ evs)
    by (intros Hin; apply Hdestroyed; right; exact Hin).
  assert (He : e ≠ TargetDestroyed page)
    by (intros ->; apply Hdestroyed; left).
  pose proof (PageCollectorSpec.step_wellTracked k b c e Hwt) as Hwt'.
  cbn [run fold_left]. fold (run k b (step k b c e) evs).
  assert (Hcases : (exists y, e = Collected page y) \/ ~ (exists y, e = Collected page y)).
  { destruct e as [q|q y|q m|q|q rid ini];
      try (right; intros [y' [=]]; fail).
    destruct (decide (q = page)) as [->|Hq]; [left; eauto|].
    right. intros [y' [= -> _]]. congruence. }
  destruct Hcases as [[y ->]|Hother].
  - destruct (decide (page = page)) as [_|Hne]; [|congruence].
    cbn [app length] in Hbound. apply NoDup_cons in Hnd as [Hy Hnd].
    assert (Hstep : listeners (step k b c (Collected page y)) !! page = Some (i + 1)
                    /\ stableIds (step k b c (Collected page y)) !! y = Some i).
    { cbn [step]. rewrite Hl. unfold collect, idGenerator.
      destruct (decide (i = MAX_SAFE_INTEGER)) as [->|_]; [lia|].
      cbn [listeners stableIds]. rewrite !lookup_insert_eq. split; reflexivity. }
    destruct Hstep as [Hl' Hid]. destruct n as [|n]; cbn in Hx.
    + injection Hx as <-. rewrite PageCollectorSpec.run_stableIds_other.
      * rewrite Hid. f_equal. lia.
      * intros p Hin. apply Hy. apply (allCollected_elem p). exact Hin.
    + rewrite (IH (step k b c (Collected page y)) (i + 1) Hwt' Hl') with (n := n) (x := x);
        [f_equal; lia|lia|lia|exact Hnd|exact Hdestroyed'|exact Hx].
  - assert (Hsame : collectedOn page evs !! n = Some x /\ NoDup (allCollected evs)
                    /\ i + Z.of_nat (length (collectedOn page evs)) <= MAX_SAFE_INTEGER).
    { destruct e as [q|q y|q m|q|q rid ini]; cbn [app] in Hx, Hnd, Hbound;
        try (split; [exact Hx|split; [exact Hnd|exact Hbound]]).
      destruct (decide (q = page)) as [->|Hq]; [destruct Hother; eauto|].
      apply NoDup_cons in Hnd as [_ Hnd]. cbn [app] in Hx, Hbound.
      split; [exact Hx|split; [exact Hnd|exact Hbound]]. }
    destruct Hsame as (Hx' & Hnd' & Hbound').
    apply (IH (step k b c e) i Hwt'); try assumption.
    apply step_listeners_kept; try assumption.
    intros y ->. apply Hother. eauto.
Qed.

(** X23. Identifiers count the items of a page in the order they are collected.
    From the moment a page is first tracked or tracked again, and until it is
    destroyed, the item collected [n]-th on the page (counting from 0) carries
    the stable ID [n + 1], whether or not it is still retained, provided no
    object is handed to the collector twice and fewer than [MAX_SAFE_INTEGER]
    items are collected on the page. *)
Theorem ids_count_collected_items k b pre evs page n x :
  storage (run k b empty pre) !! page = None ->
  TargetDestroyed page ∉ evs ->
  NoDup (allCollected evs) ->
  Z.of_nat (length (collectedOn page evs)) < MAX_SAFE_INTEGER ->
  collectedOn page evs !! n = Some x ->
  getIdForResource (run k b empty (pre ++ TargetCreated page :: evs)) x
  = Z.of_nat n + 1.
Proof.
  intros Hst Hdestroyed Hnd Hbound Hx. rewrite run_app.
  set (c := run k b empty pre) in *.
  change (run k b c (TargetCreated page :: evs))
    with (run k b (step k b c (TargetCreated page)) evs).
  unfold getIdForResource.
  rewrite (run_ids_in_order k b page evs (step k b c (TargetCreated page)) 1)
    with (n := n) (x := x); try assumption.
  - cbn [default from_option id]. lia.
  - apply PageCollectorSpec.step_wellTracked, PageCollectorSpec.run_wellTracked.
  - cbn [step]. destruct (PageCollectorSpec.addPage_effect k page c) as (_ & Hnew & _).
    destruct (Hnew Hst) as [_ ->]. apply lookup_insert_eq.
  - lia.
  - lia.
Qed.

(** X23 on a concrete input. *)
Lemma ids_count_collected_items_witness :
  getIdForResource
    (run Generic noNavigationBrowser empty ([] ++ TargetCreated 0%nat :: List.tl fourNavigations))
    4%nat = 4.
Proof.
  apply (ids_count_collected_items Generic noNavigationBrowser [] (List.tl fourNavigations)
           0%nat 3%nat 4%nat).
  - reflexivity.
  - intros Hin. apply list_elem_of_In in Hin. cbn in Hin.
    repeat (destruct Hin as [Hin|Hin]; [discriminate|]). destruct Hin.
  - apply NoDup_ListNoDup. vm_compute.
    repeat (constructor; [cbn; intuition discriminate|]). constructor.
  - vm_compute. reflexivity.
  - reflexivity.
Defined.

(** ** Identifiers of all the items of one lifetime of a page *)

Lemma idsDistinct_weaken (seen seen' : Ref -> Prop) page n n' c :
  (forall x, seen' x -> seen x) -> n <= n' ->
  idsDistinct seen page n c -> idsDistinct seen' page n' c.
Proof.
  intros Hsub Hle (i & Hl & Hi & Hids & Hinj). exists i.
  split; [exact Hl|]. split; [lia|]. split.
  - intros x Hx. apply Hids, Hsub, Hx.
  - intros x y Hx Hy. apply Hinj; apply Hsub; assumption.
Qed.

(** One event: an item collected on the page takes the generator's next
    value, above every identifier handed out before; any other event leaves
    the identifiers of the page's items as they are. *)
Lemma step_idsDistinct k b page (owned seen : Ref -> Prop) n c e :
  wellTracked c ->
  idsDistinct seen page n c ->
  n + (if isCollectedOn page e then 1 else 0) < MAX_SAFE_INTEGER ->
  e ≠ TargetDestroyed page ->
  (forall x, seen x -> owned x) ->
  (forall q z, e = Collected q z -> owned z -> q = page) ->
  idsDistinct (fun x => seen x \/ e = Collected page x) page
    (n + (if isCollectedOn page e then 1 else 0)) (step k b c e).
Proof.
  intros Hwt (i & Hl & Hi & Hids & Hinj) Hbound Hdestroyed Hseen Howned.
  assert (Hcases : (exists z, e = Collected page z) \/ (forall z, e ≠ Collected page z)).
  { destruct e as [q|q z|q m|q|q rid ini]; try (right; intros z' [=]; fail).
    destruct (decide (q = page)) as [->|Hq]; [left; eauto|].
    right. intros z' [= -> _]. congruence. }
  destruct Hcases as [[z ->]|Hother].
  - cbn [isCollectedOn step] in *. rewrite bool_decide_eq_true_2 in * by reflexivity.
    rewrite Hl. unfold collect, idGenerator.
    destruct (decide (i = MAX_SAFE_INTEGER)) as [->|_]; [lia|].
    exists (i + 1). cbn [listeners stableIds].
    split; [apply lookup_insert_eq|]. split; [lia|]. split.
    + intros x Hx. destruct (decide (x = z)) as [->|Hne].
      * exists i. split; [apply lookup_insert_eq|lia].
      * destruct Hx as [Hx|[= Hx]]; [|congruence].
        destruct (Hids x Hx) as (sid & Hsid & Hrange). exists sid.
        rewrite lookup_insert_ne by congruence. split; [exact Hsid|lia].
    + intros x y Hx Hy.
      assert (Hold : forall w, seen w \/ Collected page z = Collected page w ->
                w ≠ z -> exists sid, stableIds c !! w = Some sid /\ sid < i /\ seen w).
      { intros w [Hw|[= Hw]] Hne; [|congruence].
        destruct (Hids w Hw) as (sid & Hsid & Hrange). exists sid.
        split; [exact Hsid|]. split; [lia|exact Hw]. }
      destruct (decide (x = z)) as [->|Hxz], (decide (y = z)) as [->|Hyz];
        rewrite ?lookup_insert_eq, ?lookup_insert_ne by congruence.
      * reflexivity.
      * destruct (Hold y Hy Hyz) as (sid & -> & Hlt & _). intros [= <-]. lia.
      * destruct (Hold x Hx Hxz) as (sid & -> & Hlt & _). intros [= ->]. lia.
      * destruct (Hold x Hx Hxz) as (_ & _ & _ & Hsx).
        destruct (Hold y Hy Hyz) as (_ & _ & _ & Hsy). apply Hinj; assumption.
  - assert (isCollectedOn page e = false) as ->.
    { destruct e as [q|q z|q m|q|q rid ini]; try reflexivity.
      cbn. apply bool_decide_eq_false_2. intros ->. exact (Hother z eq_refl). }
    rewrite Z.add_0_r.
    assert (Hsame : forall x, seen x -> stableIds (step k b c e) !! x = stableIds c !! x).
    { intros x Hx. apply PageCollectorSpec.step_stableIds_other. intros p ->.
      apply (Hother x). rewrite (Howned p x eq_refl (Hseen x Hx)). reflexivity. }
    exists i. split; [apply step_listeners_kept; assumption|]. split; [lia|]. split.
    + intros x [Hx|Hx]; [|destruct (Hother x Hx)].
      rewrite (Hsame x Hx). apply Hids. exact Hx.
    + intros x y [Hx|Hx] [Hy|Hy];
        [|destruct (Hother y Hy)|destruct (Hother x Hx)|destruct (Hother x Hx)].
      rewrite (Hsame x Hx), (Hsame y Hy). apply Hinj; assumption.
Qed.

Lemma run_idsDistinct k b page (owned : Ref -> Prop) evs : forall seen n c,
  wellTracked c ->
  idsDistinct seen page n c ->
  n + Z.of_nat (collectedCount page evs) < MAX_SAFE_INTEGER ->
  TargetDestroyed page ∉ evs ->
  (forall x, seen x -> owned x) ->
  (forall z, Collected page z ∈ evs -> owned z) ->
  (forall q z, Collected q z ∈ evs -> owned z -> q = page) ->
  idsDistinct (fun x => seen x \/ Collected page x ∈ evs) page
    (n + Z.of_nat (collectedCount page evs)) (run k b c evs).
Proof.
  induction evs as [|e evs IH];
    intros seen n c Hwt Hc Hbound Hdestroyed Hseen Hmine Howned.
  - apply (idsDistinct_weaken seen _ page n); [|cbn; lia|exact Hc].
    intros x [Hx|Hx]; [exact Hx|apply elem_of_nil in Hx; destruct Hx].
  - rewrite PageCollectorSpec.collectedCount_cons in *.
    cbn [run fold_left]. fold (run k b (step k b c e) evs).
    apply (idsDistinct_weaken
             (fun x => (seen x \/ e = Collected page x) \/ Collected page x ∈ evs) _ page
             (n + (if isCollectedOn page e then 1 else 0)
              + Z.of_nat (collectedCount page evs))); [|lia|].
    { intros x [Hx|Hx]; [left; left; exact Hx|].
      apply list_elem_of_In in Hx. destruct Hx as [->|Hx].
      - left. right. reflexivity.
      - right. apply list_elem_of_In. exact Hx. }
    apply (IH (fun x => seen x \/ e = Collected page x)
              (n + (if isCollectedOn page e then 1 else 0)) (step k b c e)).
    + apply PageCollectorSpec.step_wellTracked. exact Hwt.
    + apply (step_idsDistinct k b page owned seen n c e Hwt Hc).
      * lia.
      * intros ->. apply Hdestroyed. left.
      * exact Hseen.
      * intros q z ->. apply Howned. left.
    + lia.
    + intros Hin. apply Hdestroyed. right. exact Hin.
    + intros x [Hx| ->]; [apply Hseen; exact Hx|apply Hmine; left].
    + intros z Hz. apply Hmine. right. exact Hz.
    + intros q z Hz. apply Howned. right. exact Hz.
Qed.

(** From the moment a page is tracked until it is destroyed, the items
    collected on it carry identifiers from 1 on, no two the same, whether
    they are still retained or were dropped by a navigation. *)
Lemma lifetime_ids_distinct k b pre evs page :
  storage (run k b empty pre) !! page = None ->
  TargetDestroyed page ∉ evs ->
  (forall q z, Collected q z ∈ evs -> Collected page z ∈ evs -> q = page) ->
  Z.of_nat (collectedCount page evs) < MAX_SAFE_INTEGER ->
  idsDistinct (fun x => Collected page x ∈ evs) page
    (Z.of_nat (collectedCount page evs))
    (run k b empty (pre ++ TargetCreated page :: evs)).
Proof.
  intros Hst Hdestroyed Howned Hbound. rewrite run_app.
  set (c := run k b empty pre) in *.
  change (run k b c (TargetCreated page :: evs))
    with (run k b (step k b c (TargetCreated page)) evs).
  apply (idsDistinct_weaken (fun x => False \/ Collected page x ∈ evs) _ page
           (0 + Z.of_nat (collectedCount page evs))); [tauto|lia|].
  apply (run_idsDistinct k b page (fun x => Collected page x ∈ evs)).
  - apply PageCollectorSpec.step_wellTracked, PageCollectorSpec.run_wellTracked.
  - exists 1. cbn [step].
    destruct (PageCollectorSpec.addPage_effect k page c) as (_ & Hnew & _).
    destruct (Hnew Hst) as [_ ->]. split; [apply lookup_insert_eq|].
    split; [lia|]. split; intros; tauto.
  - lia.
  - exact Hdestroyed.
  - tauto.
  - tauto.
  - exact Howned.
Qed.

End PageCollectorFacts.

(* ===================================================================== *)
(** * Further properties of the WebSocket collector *)
(* ===================================================================== *)

Module WebSocketCollectorFacts.

Import IdGenerator WebSocketCollector WebSocketCollectorMore.

Lemma ws_run_app c evs evs' : run c (evs ++ evs') = run (run c evs) evs'.
Proof. unfold run. apply fold_left_app. Qed.

(** ** How the handler tables evolve *)

Lemma iter_splitAfterNavigation_maps n page c mref :
  (mref < nextMap c)%nat ->
  maps (Nat.iter n (splitAfterNavigation page) c) !! mref = maps c !! mref
  /\ (nextMap c <= nextMap (Nat.iter n (splitAfterNavigation page) c))%nat.
Proof.
  intros Hm. induction n as [|n [IHm IHn]]; [split; [reflexivity|apply le_n]|].
  rewrite Nat.iter_succ.
  set (c0 := Nat.iter n (splitAfterNavigation page) c) in *. clearbody c0.
  unfold splitAfterNavigation.
  destruct (storage c0 !! page); [|split; [exact IHm|exact IHn]].
  cbn [maps nextMap]. rewrite lookup_insert_ne by lia. split; [exact IHm|lia].
Qed.

Lemma iter_splitAfterNavigation_tracked n page c q :
  storage (Nat.iter n (splitAfterNavigation page) c) !! q = None
  <-> storage c !! q = None.
Proof.
  induction n as [|n IH]; [reflexivity|].
  rewrite Nat.iter_succ, <- IH.
  generalize (Nat.iter n (splitAfterNavigation page) c). intros c0.
  unfold splitAfterNavigation. destruct (storage c0 !! page) eqn:Hp; [|reflexivity].
  cbn [storage]. destruct (decide (q = page)) as [->|Hq].
  - rewrite lookup_insert_eq, Hp. split; discriminate.
  - rewrite lookup_insert_ne by congruence. reflexivity.
Qed.

(** The handlers' view of the connections changes only when a page is first
    tracked or destroyed and when a connection is announced; a navigation
    leaves it as it is. *)
Lemma step_reached announced c e q id' :
  tablesOwned announced c ->
  reached (step c e) q id'
  = match e with
    | TargetCreated p =>
        if decide (p = q /\ storage c !! p = None) then None else reached c q id'
    | WebSocketCreated p i _ _ _ =>
        if decide (p = q /\ i = id' /\ is_Some (handlerTable c p))
        then Some (nextRef c) else reached c q id'
    | TargetDestroyed p => if decide (p = q) then None else reached c q id'
    | _ => reached c q id'
    end.
Proof.
  intros (H1 & H2 & _). unfold reached, handlerTable.
  destruct e as [p|p i u ini now|p i t op data|p i t op data|p i t|p [|]|p];
    cbn [step]; unfold deliver.
  - unfold addPage. destruct (storage c !! p) as [navigations|] eqn:Hp.
    + rewrite decide_False by (intros [_ [=]]). reflexivity.
    + cbn [cdpListeners maps]. destruct (decide (p = q)) as [->|Hq].
      * rewrite decide_True by (split; reflexivity).
        rewrite lookup_insert_eq. cbn. rewrite lookup_insert_eq. cbn.
        apply lookup_empty.
      * rewrite decide_False by (intros [? _]; congruence).
        rewrite lookup_insert_ne by congruence.
        destruct (cdpListeners c !! q) as [lq|] eqn:Hlq; [|reflexivity]. cbn.
        specialize (H1 q lq Hlq). rewrite lookup_insert_ne by lia. reflexivity.
  - destruct (cdpListeners c !! p) as [lp|] eqn:Hlp.
    + unfold onCreated. destruct (idGenerator (generator lp)) as [sid i'].
      cbn [mutate cdpListeners maps]. destruct (decide (p = q)) as [->|Hq].
      * rewrite lookup_insert_eq, Hlp. cbn. rewrite lookup_alter_eq.
        destruct (maps c !! capturedConnectionMap lp) as [m|] eqn:Hm; cbn.
        -- destruct (decide (i = id')) as [->|Hi].
           ++ rewrite decide_True by (repeat split; eauto). apply lookup_insert_eq.
           ++ rewrite decide_False by (intros (_ & ? & _); congruence).
              apply lookup_insert_ne. exact Hi.
        -- rewrite decide_False; [reflexivity|]. intros (_ & _ & [x Hx]). discriminate.
      * rewrite decide_False by (intros [? _]; congruence).
        rewrite lookup_insert_ne by congruence.
        destruct (cdpListeners c !! q) as [lq|] eqn:Hlq; [|reflexivity]. cbn.
        rewrite lookup_alter_ne; [reflexivity|].
        apply (H2 p q lp lq Hq Hlp Hlq).
    + rewrite decide_False; [reflexivity|].
      intros (_ & _ & [x Hx]). discriminate.
  - destruct (cdpListeners c !! p) as [lp|]; [|reflexivity].
    unfold onFrameSent, onFrame. destruct (lookupConnection c lp i); reflexivity.
  - destruct (cdpListeners c !! p) as [lp|]; [|reflexivity].
    unfold onFrameReceived, onFrame. destruct (lookupConnection c lp i); reflexivity.
  - destruct (cdpListeners c !! p) as [lp|]; [|reflexivity].
    unfold onClosed. destruct (lookupConnection c lp i); reflexivity.
  - rewrite WebSocketCollectorSpec.iter_splitAfterNavigation_cdpListeners.
    destruct (cdpListeners c !! q) as [lq|] eqn:Hlq; [|reflexivity].
    cbn [mbind option_bind].
    destruct (iter_splitAfterNavigation_maps (default 0%nat (navListeners c !! p)) p c
                (capturedConnectionMap lq) (H1 q lq Hlq)) as [Hm _].
    f_equal. exact Hm.
  - reflexivity.
  - cbn [cleanupPage cdpListeners maps]. destruct (decide (p = q)) as [->|Hq].
    + rewrite lookup_delete_eq. reflexivity.
    + rewrite lookup_delete_ne by congruence. reflexivity.
Qed.

Lemma step_objects_kept c e r :
  objectsAllocated c ->
  is_Some (objects c !! r) -> is_Some (objects (step c e) !! r).
Proof.
  intros Halloc Hr. pose proof (Halloc r Hr) as Hlt.
  destruct e as [p|p i u ini now|p i t op data|p i t op data|p i t|p [|]|p];
    cbn [step]; unfold deliver.
  - unfold addPage. destruct (storage c !! p); exact Hr.
  - destruct (cdpListeners c !! p) as [lp|]; [|exact Hr].
    unfold onCreated. destruct (idGenerator (generator lp)) as [sid i'].
    apply WebSocketCollectorSpec.objects_mutate_is_Some. cbn [objects].
    rewrite lookup_insert_ne by lia. exact Hr.
  - destruct (cdpListeners c !! p) as [lp|]; [|exact Hr].
    unfold onFrameSent, onFrame. destruct (lookupConnection c lp i); [|exact Hr].
    apply WebSocketCollectorSpec.objects_mutate_is_Some. exact Hr.
  - destruct (cdpListeners c !! p) as [lp|]; [|exact Hr].
    unfold onFrameReceived, onFrame. destruct (lookupConnection c lp i); [|exact Hr].
    apply WebSocketCollectorSpec.objects_mutate_is_Some. exact Hr.
  - destruct (cdpListeners c !! p) as [lp|]; [|exact Hr].
    unfold onClosed. destruct (lookupConnection c lp i); [|exact Hr].
    do 2 apply WebSocketCollectorSpec.objects_mutate_is_Some. exact Hr.
  - destruct (WebSocketCollectorSpec.iter_splitAfterNavigation_objects
                (default 0%nat (navListeners c !! p)) p c) as [-> _]. exact Hr.
  - exact Hr.
  - exact Hr.
Qed.

Lemma step_tablesLive announced c e :
  tablesOwned announced c -> objectsAllocated c ->
  tablesLive c -> tablesLive (step c e).
Proof.
  intros Hown Halloc (Hnone & Hsome & Hreach).
  assert (Hlisten : forall q, storage c !! q ≠ None -> is_Some (cdpListeners c !! q)).
  { intros q Hq. destruct (Hsome q Hq) as [m Hm]. unfold handlerTable in Hm.
    destruct (cdpListeners c !! q); [eauto|discriminate]. }
  split; [|split].
  - intros q.
    destruct e as [p|p i u ini now|p i t op data|p i t op data|p i t|p [|]|p];
      cbn [step]; unfold deliver.
    + unfold addPage. destruct (storage c !! p) eqn:Hp; [apply Hnone|].
      cbn [storage cdpListeners]. destruct (decide (q = p)) as [->|Hq].
      * rewrite lookup_insert_eq. discriminate.
      * rewrite !lookup_insert_ne by congruence. apply Hnone.
    + destruct (cdpListeners c !! p) as [lp|] eqn:Hlp; [|apply Hnone].
      destruct (WebSocketCollectorSpec.onCreated_effect p lp i u ini now c)
        as (-> & -> & _).
      destruct (storage c !! p) eqn:Hp;
        [|specialize (Hnone p Hp); congruence].
      destruct (decide (q = p)) as [->|Hq].
      * rewrite lookup_insert_eq. discriminate.
      * rewrite !lookup_insert_ne by congruence. apply Hnone.
    + destruct (cdpListeners c !! p) as [lp|]; [|apply Hnone].
      unfold onFrameSent, onFrame. destruct (lookupConnection c lp i); apply Hnone.
    + destruct (cdpListeners c !! p) as [lp|]; [|apply Hnone].
      unfold onFrameReceived, onFrame. destruct (lookupConnection c lp i); apply Hnone.
    + destruct (cdpListeners c !! p) as [lp|]; [|apply Hnone].
      unfold onClosed. destruct (lookupConnection c lp i); apply Hnone.
    + rewrite iter_splitAfterNavigation_tracked,
        WebSocketCollectorSpec.iter_splitAfterNavigation_cdpListeners. apply Hnone.
    + apply Hnone.
    + cbn [cleanupPage storage cdpListeners]. destruct (decide (q = p)) as [->|Hq].
      * rewrite !lookup_delete_eq. reflexivity.
      * rewrite !lookup_delete_ne by congruence. apply Hnone.
  - intros q Hq.
    assert (is_Some (cdpListeners (step c e) !! q)
            /\ forall l, cdpListeners (step c e) !! q = Some l ->
                 is_Some (maps (step c e) !! capturedConnectionMap l)) as [[l Hl] Hm].
    2:{ unfold handlerTable. rewrite Hl. cbn. apply Hm. exact Hl. }
    assert (Hold : forall l, cdpListeners c !! q = Some l ->
                     is_Some (maps c !! capturedConnectionMap l)).
    { intros l Hl. assert (storage c !! q ≠ None) as Hs.
      { intros Hs. rewrite (Hnone q Hs) in Hl. discriminate. }
      destruct (Hsome q Hs) as [m Hm]. unfold handlerTable in Hm.
      rewrite Hl in Hm. cbn in Hm. eauto. }
    destruct Hown as (H1 & _ & _).
    assert (Hsame : storage c !! q ≠ None ->
              is_Some (cdpListeners c !! q)
              /\ forall l, cdpListeners c !! q = Some l ->
                   is_Some (maps c !! capturedConnectionMap l))
      by (intros Hs; split; [apply Hlisten; exact Hs|exact Hold]).
    destruct e as [p|p i u ini now|p i t op data|p i t op data|p i t|p [|]|p];
      cbn [step] in *; unfold deliver in *.
    + unfold addPage in *. destruct (storage c !! p) eqn:Hp; [apply Hsame; exact Hq|].
      cbn [storage cdpListeners maps] in *. destruct (decide (q = p)) as [->|Hqp].
      * rewrite lookup_insert_eq. split; [eauto|]. intros l [= <-]. cbn.
        rewrite lookup_insert_eq. eauto.
      * rewrite lookup_insert_ne in Hq by congruence.
        rewrite lookup_insert_ne by congruence.
        split; [apply Hlisten; exact Hq|].
        intros l Hl. specialize (H1 q l Hl).
        rewrite lookup_insert_ne by lia. apply Hold. exact Hl.
    + destruct (cdpListeners c !! p) as [lp|] eqn:Hlp; [|apply Hsame; exact Hq].
      destruct (WebSocketCollectorSpec.onCreated_effect p lp i u ini now c)
        as (Hst' & Hl' & _). rewrite Hl'. rewrite Hst' in Hq.
      assert (maps (onCreated p lp i u ini now c)
              = alter (fun m => <[i := nextRef c]> m) (capturedConnectionMap lp) (maps c))
        as -> by (unfold onCreated; destruct (idGenerator (generator lp)); reflexivity).
      destruct (decide (q = p)) as [->|Hqp].
      * rewrite lookup_insert_eq. split; [eauto|]. intros l [= <-]. cbn.
        rewrite lookup_alter_eq. apply fmap_is_Some. apply Hold. exact Hlp.
      * rewrite lookup_insert_ne by congruence.
        assert (storage c !! q ≠ None) as Hs.
        { destruct (storage c !! p); [rewrite lookup_insert_ne in Hq by congruence|];
            exact Hq. }
        split; [apply Hlisten; exact Hs|]. intros l Hl.
        destruct (decide (capturedConnectionMap lp = capturedConnectionMap l)) as [He|He].
        -- rewrite He, lookup_alter_eq. apply fmap_is_Some. apply Hold. exact Hl.
        -- rewrite lookup_alter_ne by exact He. apply Hold. exact Hl.
    + destruct (cdpListeners c !! p) as [lp|]; [|apply Hsame; exact Hq].
      unfold onFrameSent, onFrame in *.
      destruct (lookupConnection c lp i); apply Hsame; exact Hq.
    + destruct (cdpListeners c !! p) as [lp|]; [|apply Hsame; exact Hq].
      unfold onFrameReceived, onFrame in *.
      destruct (lookupConnection c lp i); apply Hsame; exact Hq.
    + destruct (cdpListeners c !! p) as [lp|]; [|apply Hsame; exact Hq].
      unfold onClosed in *. destruct (lookupConnection c lp i); apply Hsame; exact Hq.
    + rewrite WebSocketCollectorSpec.iter_splitAfterNavigation_cdpListeners.
      assert (storage c !! q ≠ None) as Hs
        by (intros Hs; apply Hq; apply iter_splitAfterNavigation_tracked; exact Hs).
      split; [apply Hlisten; exact Hs|]. intros l Hl.
      destruct (iter_splitAfterNavigation_maps (default 0%nat (navListeners c !! p)) p c
                  (capturedConnectionMap l) (H1 q l Hl)) as [Hm _].
      destruct (Hold l Hl) as [m Hm']. exists m. etransitivity; [exact Hm|exact Hm'].
    + apply Hsame; exact Hq.
    + cbn [cleanupPage storage cdpListeners maps] in *.
      destruct (decide (q = p)) as [->|Hqp].
      * rewrite lookup_delete_eq in Hq. congruence.
      * rewrite lookup_delete_ne in Hq by congruence.
        rewrite lookup_delete_ne by congruence. apply Hsame; exact Hq.
  - intros q id' r Hr. rewrite (step_reached announced c e q id' Hown) in Hr.
    pose proof (WebSocketCollectorSpec.step_nextRef_mono c e) as Hmono.
    assert (Hold : reached c q id' = Some r ->
                   (r < nextRef (step c e))%nat /\ is_Some (objects (step c e) !! r)).
    { intros H. destruct (Hreach q id' r H) as [Hlt Hobj].
      split; [lia|]. apply step_objects_kept; assumption. }
    destruct e as [p|p i u ini now|p i t op data|p i t op data|p i t|p [|]|p]; auto.
    + destruct (decide _); [discriminate|auto].
    + destruct (decide _) as [(-> & -> & [m Hm])|]; [|auto].
      injection Hr as <-. cbn [step]. unfold deliver.
      unfold handlerTable in Hm.
      destruct (cdpListeners c !! q) as [lq|]; [|discriminate].
      unfold onCreated. destruct (idGenerator (generator lq)) as [sid i'].
      split; [cbn; lia|].
      apply WebSocketCollectorSpec.objects_mutate_is_Some. cbn [objects].
      rewrite lookup_insert_eq. eauto.
    + destruct (decide _); [discriminate|auto].
Qed.

Lemma tablesLive_empty : tablesLive empty.
Proof.
  split; [|split].
  - intros page _. apply lookup_empty.
  - intros page H. exfalso. apply H. apply lookup_empty.
  - intros page id r H. unfold reached, handlerTable in H. cbn in H.
    rewrite lookup_empty in H. discriminate.
Qed.

(** The invariants of the collectors a trace can reach. *)
Lemma run_invariants evs :
  tablesOwned (concat (map announcedBy evs)) (run empty evs)
  /\ objectsAllocated (run empty evs)
  /\ tablesLive (run empty evs).
Proof.
  assert (forall announced c,
             tablesOwned announced c -> objectsAllocated c -> tablesLive c ->
             tablesLive (run c evs)) as H.
  { induction evs as [|e evs IH]; intros announced c Hown Halloc Hlive; [exact Hlive|].
    cbn [run fold_left]. apply (IH (announced ++ announcedBy e)).
    - apply WebSocketCollectorSpec.step_tablesOwned. exact Hown.
    - apply WebSocketCollectorSpec.step_stableIdOf. exact Halloc.
    - apply (step_tablesLive announced); assumption. }
  split; [|split].
  - apply (WebSocketCollectorSpec.run_tablesOwned evs [] empty
             WebSocketCollectorSpec.tablesOwned_empty).
  - apply WebSocketCollectorSpec.run_objectsAllocated,
      WebSocketCollectorSpec.objectsAllocated_empty.
  - apply (H [] empty WebSocketCollectorSpec.tablesOwned_empty
             WebSocketCollectorSpec.objectsAllocated_empty tablesLive_empty).
Qed.

(** ** What events do to a connection record *)

Lemma lookupConnection_reached c q lq i :
  cdpListeners c !! q = Some lq -> lookupConnection c lq i = reached c q i.
Proof.
  intros Hl. unfold reached, handlerTable, lookupConnection. rewrite Hl. reflexivity.
Qed.

Lemma reached_unlistened c q i :
  cdpListeners c !! q = None -> reached c q i = None.
Proof. intros Hl. unfold reached, handlerTable. rewrite Hl. reflexivity. Qed.

Lemma objects_mutate c r r' f w :
  objects c !! r = Some w ->
  objects (mutate r' f c) !! r = Some (if decide (r' = r) then f w else w).
Proof.
  intros Hw. unfold mutate. cbn [objects]. destruct (decide (r' = r)) as [->|Hne].
  - rewrite lookup_alter_eq, Hw. reflexivity.
  - rewrite lookup_alter_ne by exact Hne. exact Hw.
Qed.

Lemma step_object c e r w :
  objectsAllocated c ->
  objects c !! r = Some w ->
  objects (step c e) !! r = Some (applyTo c r e w).
Proof.
  intros Halloc Hw. assert (r < nextRef c)%nat as Hlt by (apply Halloc; eauto).
  destruct e as [p|p i u ini now|p i t op data|p i t op data|p i t|p [|]|p];
    cbn [step applyTo]; unfold deliver.
  - unfold addPage. destruct (storage c !! p); exact Hw.
  - destruct (cdpListeners c !! p) as [lp|]; [|exact Hw].
    unfold onCreated. destruct (idGenerator (generator lp)) as [sid i'].
    unfold mutate. cbn [objects].
    rewrite lookup_alter_ne, lookup_insert_ne by lia. exact Hw.
  - destruct (cdpListeners c !! p) as [lp|] eqn:Hlp.
    + unfold onFrameSent, onFrame. rewrite (lookupConnection_reached c p lp i Hlp).
      destruct (reached c p i) as [r'|].
      * rewrite (objects_mutate c r r' _ w Hw).
        destruct (decide (r' = r)) as [->|Hne].
        -- rewrite decide_True by reflexivity. reflexivity.
        -- rewrite decide_False by congruence. reflexivity.
      * rewrite decide_False by discriminate. exact Hw.
    + rewrite (reached_unlistened c p i Hlp), decide_False by discriminate. exact Hw.
  - destruct (cdpListeners c !! p) as [lp|] eqn:Hlp.
    + unfold onFrameReceived, onFrame. rewrite (lookupConnection_reached c p lp i Hlp).
      destruct (reached c p i) as [r'|].
      * rewrite (objects_mutate c r r' _ w Hw).
        destruct (decide (r' = r)) as [->|Hne].
        -- rewrite decide_True by reflexivity. reflexivity.
        -- rewrite decide_False by congruence. reflexivity.
      * rewrite decide_False by discriminate. exact Hw.
    + rewrite (reached_unlistened c p i Hlp), decide_False by discriminate. exact Hw.
  - destruct (cdpListeners c !! p) as [lp|] eqn:Hlp.
    + unfold onClosed. rewrite (lookupConnection_reached c p lp i Hlp).
      destruct (reached c p i) as [r'|].
      * rewrite (objects_mutate (mutate r' (setStatus closed) c) r r' _
                   (if decide (r' = r) then setStatus closed w else w))
          by (apply objects_mutate; exact Hw).
        destruct (decide (r' = r)) as [->|Hne].
        -- rewrite decide_True by reflexivity. reflexivity.
        -- rewrite decide_False by congruence. reflexivity.
      * rewrite decide_False by discriminate. exact Hw.
    + rewrite (reached_unlistened c p i Hlp), decide_False by discriminate. exact Hw.
  - destruct (WebSocketCollectorSpec.iter_splitAfterNavigation_objects
                (default 0%nat (navListeners c !! p)) p c) as [-> _]. exact Hw.
  - exact Hw.
  - exact Hw.
Qed.

Lemma extends_refl w : extends w w.
Proof. repeat split; try reflexivity. tauto. Qed.

Lemma extends_trans w1 w2 w3 : extends w1 w2 -> extends w2 w3 -> extends w1 w3.
Proof.
  intros (A1 & A2 & A3 & A4 & A5 & A6 & A7) (B1 & B2 & B3 & B4 & B5 & B6 & B7).
  repeat split; try congruence.
  - etransitivity; eassumption.
  - tauto.
Qed.

Lemma applyTo_extends c r e w :
  settled w -> extends w (applyTo c r e w) /\ settled (applyTo c r e w).
Proof.
  intros Hs. assert (Hsame : extends w w /\ settled w) by (split; [apply extends_refl|exact Hs]).
  destruct e as [p|p i u ini now|p i t op data|p i t op data|p i t|p m|p];
    cbn [applyTo]; try exact Hsame; destruct (decide _); try exact Hsame.
  - split; [|exact Hs]. repeat split; try reflexivity; [|tauto].
    cbn [pushFrame frames]. apply prefix_app_r. reflexivity.
  - split; [|exact Hs]. repeat split; try reflexivity; [|tauto].
    cbn [pushFrame frames]. apply prefix_app_r. reflexivity.
  - split; [repeat split; reflexivity|]. right. split; [reflexivity|]. cbn. eauto.
Qed.

Lemma step_recordsSettled c e :
  objectsAllocated c -> recordsSettled c -> recordsSettled (step c e).
Proof.
  intros Halloc Hc r w' Hw'.
  destruct (objects c !! r) as [w|] eqn:Hw.
  - rewrite (step_object c e r w Halloc Hw) in Hw'. injection Hw' as <-.
    apply applyTo_extends. apply (Hc r w Hw).
  - destruct e as [p|p i u ini now|p i t op data|p i t op data|p i t|p [|]|p];
      cbn [step] in Hw'; unfold deliver in Hw'.
    + unfold addPage in Hw'. destruct (storage c !! p); cbn in Hw'; congruence.
    + destruct (cdpListeners c !! p) as [lp|]; [|congruence].
      unfold onCreated in Hw'. destruct (idGenerator (generator lp)) as [sid i'].
      unfold mutate in Hw'. cbn [objects] in Hw'.
      destruct (decide (nextRef c = r)) as [<-|Hne].
      * rewrite lookup_alter_eq, lookup_insert_eq in Hw'. injection Hw' as <-.
        left. split; reflexivity.
      * rewrite lookup_alter_ne, lookup_insert_ne in Hw' by congruence. congruence.
    + destruct (cdpListeners c !! p) as [lp|]; [|congruence].
      unfold onFrameSent, onFrame in Hw'. destruct (lookupConnection c lp i) as [r'|];
        [|congruence].
      assert (is_Some (objects c !! r)) as [w Hw2]
        by (eapply (proj1 (WebSocketCollectorSpec.objects_mutate_is_Some _ _ _ _));
            eexists; exact Hw').
      congruence.
    + destruct (cdpListeners c !! p) as [lp|]; [|congruence].
      unfold onFrameReceived, onFrame in Hw'. destruct (lookupConnection c lp i) as [r'|];
        [|congruence].
      assert (is_Some (objects c !! r)) as [w Hw2]
        by (eapply (proj1 (WebSocketCollectorSpec.objects_mutate_is_Some _ _ _ _));
            eexists; exact Hw').
      congruence.
    + destruct (cdpListeners c !! p) as [lp|]; [|congruence].
      unfold onClosed in Hw'. destruct (lookupConnection c lp i) as [r'|];
        [|congruence].
      assert (is_Some (objects c !! r)) as [w Hw2].
      { eapply (proj1 (WebSocketCollectorSpec.objects_mutate_is_Some _ _ _ _)).
        eapply (proj1 (WebSocketCollectorSpec.objects_mutate_is_Some _ _ _ _)).
        eexists. exact Hw'. }
      congruence.
    + destruct (WebSocketCollectorSpec.iter_splitAfterNavigation_objects
                  (default 0%nat (navListeners c !! p)) p c) as [Ho _].
      rewrite Ho in Hw'. congruence.
    + congruence.
    + cbn in Hw'. congruence.
Qed.

Lemma run_recordsSettled evs : forall c,
  objectsAllocated c -> recordsSettled c -> recordsSettled (run c evs).
Proof.
  induction evs as [|e evs IH]; intros c Halloc Hc; [exact Hc|].
  cbn [run fold_left]. apply IH.
  - apply WebSocketCollectorSpec.step_stableIdOf. exact Halloc.
  - apply step_recordsSettled; assumption.
Qed.

Lemma run_extends evs : forall c r w,
  objectsAllocated c -> settled w ->
  objects c !! r = Some w ->
  exists w', objects (run c evs) !! r = Some w' /\ extends w w' /\ settled w'.
Proof.
  induction evs as [|e evs IH]; intros c r w Halloc Hs Hw.
  - exists w. split; [exact Hw|]. split; [apply extends_refl|exact Hs].
  - cbn [run fold_left]. destruct (applyTo_extends c r e w Hs) as [He Hs1].
    destruct (IH (step c e) r (applyTo c r e w)) as (w' & Hw' & He' & Hs').
    + apply WebSocketCollectorSpec.step_stableIdOf. exact Halloc.
    + exact Hs1.
    + apply step_object; assumption.
    + exists w'. split; [exact Hw'|]. split; [|exact Hs'].
      eapply extends_trans; eassumption.
Qed.

(** X11. A connection record is append-only. Once a record is stored, whatever
    events follow (frames, closings, navigations, the destruction of its
    page), it stays stored with the same request ID, URL, initiator, creation
    time and stable ID; its frames are only ever appended to; it is never
    seen in the status "connecting"; it is closed exactly when it has a
    closing time; and once closed it stays closed. *)
Theorem connection_record_append_only evs evs' r w :
  objects (run empty evs) !! r = Some w ->
  settled w
  /\ exists w',
      objects (run empty (evs ++ evs')) !! r = Some w'
      /\ extends w w' /\ settled w'.
Proof.
  intros Hw. destruct (run_invariants evs) as (_ & Halloc & _).
  assert (settled w) as Hs.
  { apply (run_recordsSettled evs empty WebSocketCollectorSpec.objectsAllocated_empty)
      with (r := r); [|exact Hw].
    intros r0 w0 H0. cbn in H0. rewrite lookup_empty in H0. discriminate. }
  split; [exact Hs|]. rewrite ws_run_app.
  apply run_extends; assumption.
Qed.

(** X11 on a concrete input. *)
Lemma connection_record_append_only_witness :
  exists w',
    objects (run empty (frameAfterNavigation ++ chatter)) !! 0%nat = Some w'
    /\ url (connection w') = "wss://example.test/socket"%string.
Proof.
  destruct (connection_record_append_only frameAfterNavigation chatter 0%nat
              {| connection :=
                   {| requestId := "ws-1"; url := "wss://example.test/socket";
                      initiator := None; status := open; createdAt := 1000;
                      closedAt := None |};
                 frames := [recordedFrame sent "ws-1" 5%float 1 (js "hello")];
                 stableId := Some 1 |})
    as (_ & w' & Hw' & (_ & Hurl & _) & _).
  - vm_compute. reflexivity.
  - exists w'. split; [exact Hw'|exact Hurl].
Defined.

(** ** A connection and the events that name it *)

Lemma step_connectionBound announced page id r c e :
  tablesOwned announced c -> tablesLive c ->
  connectionBound page id r c ->
  e ≠ TargetDestroyed page ->
  (forall u ini now, e ≠ WebSocketCreated page id u ini now) ->
  connectionBound page id r (step c e).
Proof.
  intros Hown (Hnone & _ & Hreach) [Hr Honly] Hdestroyed Hcreated.
  destruct (Hreach page id r Hr) as [Hlt _].
  split.
  - rewrite (step_reached announced c e page id Hown).
    destruct e as [p|p i u ini now|p i t op data|p i t op data|p i t|p m|p];
      try exact Hr; destruct (decide _) as [Hd|_]; try exact Hr.
    + destruct Hd as [-> Hp]. unfold reached, handlerTable in Hr.
      rewrite (Hnone page Hp) in Hr. discriminate.
    + destruct Hd as (-> & -> & _). destruct (Hcreated u ini now). reflexivity.
    + subst p. destruct Hdestroyed. reflexivity.
  - intros q id' Hq. rewrite (step_reached announced c e q id' Hown) in Hq.
    destruct e as [p|p i u ini now|p i t op data|p i t op data|p i t|p m|p];
      try (apply Honly; exact Hq); destruct (decide _) as [Hd|_];
      try (apply Honly; exact Hq); try discriminate.
    injection Hq as <-. lia.
Qed.

Lemma applyTo_bound page id r c e w :
  connectionBound page id r c ->
  applyTo c r e w
  = match e with
    | WebSocketFrameSent q i t op data =>
        if decide (q = page /\ i = id)
        then pushFrame (recordedFrame sent i t op data) w else w
    | WebSocketFrameReceived q i t op data =>
        if decide (q = page /\ i = id)
        then pushFrame (recordedFrame received i t op data) w else w
    | WebSocketClosed q i t =>
        if decide (q = page /\ i = id)
        then setClosedAt (t * 1000)%float (setStatus closed w) else w
    | _ => w
    end.
Proof.
  intros [Hr Honly].
  assert (forall q i, reached c q i = Some r <-> q = page /\ i = id) as Hiff.
  { intros q i. split; [apply Honly|]. intros [-> ->]. exact Hr. }
  destruct e as [p|p i u ini now|p i t op data|p i t op data|p i t|p m|p];
    cbn [applyTo]; try reflexivity;
    destruct (decide (reached c p i = Some r)) as [Hd|Hd];
    destruct (decide (p = page /\ i = id)) as [Hd'|Hd'];
    try reflexivity; rewrite Hiff in Hd; tauto.
Qed.

Lemma framesFor_cons page id e evs :
  framesFor page id (e :: evs)
  = match e with
    | WebSocketFrameSent q i t op data =>
        if decide (q = page /\ i = id) then [recordedFrame sent i t op data] else []
    | WebSocketFrameReceived q i t op data =>
        if decide (q = page /\ i = id) then [recordedFrame received i t op data] else []
    | _ => []
    end ++ framesFor page id evs.
Proof.
  unfold framesFor. destruct e as [p|p i u ini now|p i t op data|p i t op data|p i t|p m|p];
    try reflexivity; simpl; destruct (decide (p = page /\ i = id)); reflexivity.
Qed.

Lemma closingsFor_cons page id e evs :
  closingsFor page id (e :: evs)
  = match e with
    | WebSocketClosed q i t =>
        if decide (q = page /\ i = id) then [(t * 1000)%float] else []
    | _ => []
    end ++ closingsFor page id evs.
Proof.
  unfold closingsFor. destruct e as [p|p i u ini now|p i t op data|p i t op data|p i t|p m|p];
    try reflexivity; simpl; destruct (decide (p = page /\ i = id)); reflexivity.
Qed.

Lemma run_bound_record page id r evs : forall announced c w,
  tablesOwned announced c -> objectsAllocated c -> tablesLive c ->
  connectionBound page id r c ->
  objects c !! r = Some w ->
  TargetDestroyed page ∉ evs ->
  (forall u ini now, WebSocketCreated page id u ini now ∉ evs) ->
  exists w',
    objects (run c evs) !! r = Some w'
    /\ frames w' = frames w ++ framesFor page id evs
    /\ closedAt (connection w')
       = from_option Some (closedAt (connection w)) (last (closingsFor page id evs))
    /\ status (connection w')
       = (if closingsFor page id evs is [] then status (connection w) else closed).
Proof.
  induction evs as [|e evs IH];
    intros announced c w Hown Halloc Hlive Hbound Hw Hdestroyed Hcreated.
  - exists w. split; [exact Hw|]. cbn. rewrite app_nil_r. repeat split.
  - destruct (IH (announced ++ announcedBy e) (step c e) (applyTo c r e w))
      as (w' & Hw' & Hframes & Hclosed & Hstatus).
    + apply WebSocketCollectorSpec.step_tablesOwned. exact Hown.
    + apply WebSocketCollectorSpec.step_stableIdOf. exact Halloc.
    + apply (step_tablesLive announced); assumption.
    + apply (step_connectionBound announced); try assumption.
      * intros ->. apply Hdestroyed. apply list_elem_of_here.
      * intros u ini now ->. apply (Hcreated u ini now). apply list_elem_of_here.
    + apply step_object; assumption.
    + intros Hin. apply Hdestroyed. apply list_elem_of_further. exact Hin.
    + intros u ini now Hin. apply (Hcreated u ini now).
      apply list_elem_of_further. exact Hin.
    + exists w'. split; [exact Hw'|].
      rewrite Hframes, Hclosed, Hstatus, (applyTo_bound page id r c e w Hbound).
      rewrite framesFor_cons, closingsFor_cons.
      destruct e as [p|p i u ini now|p i t op data|p i t op data|p i t|p m|p];
        try (repeat split; reflexivity);
        destruct (decide (p = page /\ i = id));
        try (repeat split; reflexivity).
      * cbn [pushFrame frames connection app]. rewrite <- app_assoc.
        repeat split; reflexivity.
      * cbn [pushFrame frames connection app]. rewrite <- app_assoc.
        repeat split; reflexivity.
      * cbn [setClosedAt setStatus frames connection closedAt status app].
        split; [reflexivity|].
        destruct (closingsFor page id evs) as [|t0 l]; [split; reflexivity|].
        rewrite last_cons_cons. split; [|reflexivity].
        destruct (last (t0 :: l)) eqn:E; [reflexivity|].
        apply last_None in E. discriminate.
Qed.

(** X12. The frames of a connection are exactly the frame events that name it.
    When a connection is announced on a tracked page, then as long as the page
    is not destroyed and the identifier is not announced again, the record
    created for it holds one frame per frame event naming the connection of
    that page, in order of arrival, with the event's direction, opcode,
    payload and timestamp in milliseconds. Frames of other connections and
    other pages never reach it; navigations of the page do not interrupt it;
    frames keep being recorded after the connection is closed. The record is
    closed exactly when a [closed] event named it, with the time of the last
    such event. *)
Theorem frames_are_the_events_delivered pre post page id u ini now :
  storage (run empty pre) !! page ≠ None ->
  TargetDestroyed page ∉ post ->
  (forall u' ini' now', WebSocketCreated page id u' ini' now' ∉ post) ->
  let r := nextRef (run empty pre) in
  exists w,
    objects (run empty (pre ++ WebSocketCreated page id u ini now :: post)) !! r = Some w
    /\ requestId (connection w) = id
    /\ url (connection w) = u
    /\ initiator (connection w) = ini
    /\ createdAt (connection w) = now
    /\ frames w = framesFor page id post
    /\ closedAt (connection w) = last (closingsFor page id post)
    /\ status (connection w) = (if closingsFor page id post is [] then open else closed).
Proof.
  intros Htracked Hdestroyed Hcreated r. rewrite ws_run_app.
  destruct (run_invariants pre) as (Hown & Halloc & Hlive).
  set (c := run empty pre) in *. set (e := WebSocketCreated page id u ini now).
  change (run c (e :: post)) with (run (step c e) post).
  pose proof Hlive as (Hnone & Hsome & Hreach).
  destruct (Hsome page Htracked) as [m Hm].
  assert (exists l, cdpListeners c !! page = Some l) as [l Hl].
  { unfold handlerTable in Hm. destruct (cdpListeners c !! page); [eauto|discriminate]. }
  set (w0 := {| connection :=
                  {| requestId := id; url := u; initiator := ini; status := open;
                     createdAt := now; closedAt := None |};
                frames := []; stableId := Some (fst (idGenerator (generator l))) |}).
  assert (objects (step c e) !! r = Some w0) as Hw0.
  { subst e. cbn [step]. unfold deliver. rewrite Hl.
    unfold onCreated. destruct (idGenerator (generator l)) as [sid i'].
    unfold mutate. cbn [objects]. fold r.
    rewrite lookup_alter_eq, lookup_insert_eq. reflexivity. }
  assert (connectionBound page id r (step c e)) as Hbound.
  { split.
    - rewrite (step_reached _ c e page id Hown). subst e. cbn.
      rewrite decide_True by (repeat split; eauto). reflexivity.
    - intros q id' Hq. rewrite (step_reached _ c e q id' Hown) in Hq. subst e. cbn in Hq.
      destruct (decide _) as [(-> & -> & _)|_]; [split; reflexivity|].
      destruct (Hreach q id' r Hq) as [Hlt _]. subst r. lia. }
  destruct (run_bound_record page id r post
              (concat (map announcedBy pre) ++ announcedBy e) (step c e) w0)
    as (w & Hw & Hf & Hc & Hs).
  - apply WebSocketCollectorSpec.step_tablesOwned. exact Hown.
  - apply WebSocketCollectorSpec.step_stableIdOf. exact Halloc.
  - apply (step_tablesLive _ c e Hown Halloc Hlive).
  - exact Hbound.
  - exact Hw0.
  - exact Hdestroyed.
  - exact Hcreated.
  - destruct (run_extends post (step c e) r w0) as (w' & Hw' & He & _).
    + apply WebSocketCollectorSpec.step_stableIdOf. exact Halloc.
    + left. split; reflexivity.
    + exact Hw0.
    + rewrite Hw in Hw'. injection Hw' as <-.
      destruct He as (E1 & E2 & E3 & E4 & _).
      exists w. split; [exact Hw|]. rewrite E1, E2, E3, E4, Hf, Hc, Hs.
      cbn. destruct (last (closingsFor page id post)); repeat split; reflexivity.
Qed.

(** X12 on a concrete input: the frame sent at 1.005 s is stored with the
    timestamp 1004.9999999999999, the double product of 1.005 and 1000. *)
Lemma frames_are_the_events_delivered_witness :
  exists w,
    objects (run empty ([TargetCreated 0%nat]
                        ++ WebSocketCreated 0%nat "ws-1" "wss://example.test/socket" None 1000
                        :: chatter)) !! 0%nat = Some w
    /\ frames w = [recordedFrame sent "ws-1" 0x1.0147ae147ae14p+0%float 1 (js "ping");
                   recordedFrame received "ws-1" 3%float 1 (js "pong");
                   recordedFrame received "ws-1" 6%float 1 (js "late")]
    /\ map timestamp (frames w) = [0x1.f67ffffffffffp+9; 3000; 6000]%float
    /\ status (connection w) = closed.
Proof.
  destruct (frames_are_the_events_delivered [TargetCreated 0%nat] chatter 0%nat
              "ws-1" "wss://example.test/socket" None 1000)
    as (w & Hw & _ & _ & _ & _ & Hf & _ & Hs).
  - vm_compute. discriminate.
  - intros Hin. apply list_elem_of_In in Hin. cbn in Hin.
    repeat (destruct Hin as [Hin|Hin]; [discriminate|]). destruct Hin.
  - intros u' ini' now' Hin. apply list_elem_of_In in Hin. cbn in Hin.
    repeat (destruct Hin as [Hin|Hin]; [discriminate|]). destruct Hin.
  - exists w. split; [exact Hw|]. split; [exact Hf|]. split; [|exact Hs].
    rewrite Hf. vm_compute. reflexivity.
Defined.

Lemma run_connectionBound page id r evs : forall announced c,
  tablesOwned announced c -> objectsAllocated c -> tablesLive c ->
  connectionBound page id r c ->
  TargetDestroyed page ∉ evs ->
  (forall u ini now, WebSocketCreated page id u ini now ∉ evs) ->
  exists announced',
    tablesOwned announced' (run c evs)
    /\ objectsAllocated (run c evs)
    /\ tablesLive (run c evs)
    /\ connectionBound page id r (run c evs).
Proof.
  induction evs as [|e evs IH];
    intros announced c Hown Halloc Hlive Hbound Hdestroyed Hcreated.
  - exists announced. split; [|split; [|split]]; assumption.
  - cbn [run fold_left]. apply (IH (announced ++ announcedBy e)).
    + apply WebSocketCollectorSpec.step_tablesOwned. exact Hown.
    + apply WebSocketCollectorSpec.step_stableIdOf. exact Halloc.
    + apply (step_tablesLive announced); assumption.
    + apply (step_connectionBound announced); try assumption.
      * intros ->. apply Hdestroyed. apply list_elem_of_here.
      * intros u ini now ->. apply (Hcreated u ini now). apply list_elem_of_here.
    + intros Hin. apply Hdestroyed. apply list_elem_of_further. exact Hin.
    + intros u ini now Hin. apply (Hcreated u ini now).
      apply list_elem_of_further. exact Hin.
Qed.

Lemma run_unreached r evs : forall announced c w,
  tablesOwned announced c -> objectsAllocated c ->
  objects c !! r = Some w ->
  (forall q id', reached c q id' ≠ Some r) ->
  objects (run c evs) !! r = Some w.
Proof.
  induction evs as [|e evs IH]; intros announced c w Hown Halloc Hw Hun; [exact Hw|].
  cbn [run fold_left]. apply (IH (announced ++ announcedBy e)).
  - apply WebSocketCollectorSpec.step_tablesOwned. exact Hown.
  - apply WebSocketCollectorSpec.step_stableIdOf. exact Halloc.
  - rewrite (step_object c e r w Halloc Hw). f_equal.
    destruct e as [p|p i u ini now|p i t op data|p i t op data|p i t|p m|p];
      cbn [applyTo]; try reflexivity;
      (rewrite decide_False; [reflexivity|apply Hun]).
  - intros q id'. rewrite (step_reached announced c e q id' Hown).
    assert (r < nextRef c)%nat as Hlt by (apply Halloc; eauto).
    destruct e as [p|p i u ini now|p i t op data|p i t op data|p i t|p m|p];
      try apply Hun; destruct (decide _); try apply Hun; try discriminate.
    intros [= Heq]. lia.
Qed.

(** X13. The record of a connection is final once its page is destroyed. After
    the page of an announced connection is destroyed, no later event changes
    the record: frame and [closed] events naming the connection are ignored,
    even if the page is tracked again and the identifier is announced again. *)
Theorem record_final_after_destroy pre post post' page id u ini now :
  storage (run empty pre) !! page ≠ None ->
  TargetDestroyed page ∉ post ->
  (forall u' ini' now', WebSocketCreated page id u' ini' now' ∉ post) ->
  let r := nextRef (run empty pre) in
  let lived := pre ++ WebSocketCreated page id u ini now :: post in
  is_Some (objects (run empty lived) !! r)
  /\ objects (run empty (lived ++ TargetDestroyed page :: post')) !! r
     = objects (run empty lived) !! r.
Proof.
  intros Htracked Hdestroyed Hcreated r lived.
  destruct (run_invariants pre) as (Hown & Halloc & Hlive).
  set (c := run empty pre) in *. set (e := WebSocketCreated page id u ini now).
  assert (run empty lived = run (step c e) post) as Hlived.
  { subst lived. rewrite ws_run_app. reflexivity. }
  pose proof Hlive as (_ & Hsome & Hreach).
  destruct (Hsome page Htracked) as [m Hm].
  assert (connectionBound page id r (step c e)) as Hbound.
  { split.
    - rewrite (step_reached _ c e page id Hown). subst e. cbn.
      rewrite decide_True by (repeat split; eauto). reflexivity.
    - intros q id' Hq. rewrite (step_reached _ c e q id' Hown) in Hq. subst e. cbn in Hq.
      destruct (decide _) as [(-> & -> & _)|_]; [split; reflexivity|].
      destruct (Hreach q id' r Hq) as [Hlt _]. subst r. lia. }
  destruct (run_connectionBound page id r post
              (concat (map announcedBy pre) ++ announcedBy e) (step c e))
    as (announced' & Hown' & Halloc' & Hlive' & [Hr Honly]).
  - apply WebSocketCollectorSpec.step_tablesOwned. exact Hown.
  - apply WebSocketCollectorSpec.step_stableIdOf. exact Halloc.
  - apply (step_tablesLive _ c e Hown Halloc Hlive).
  - exact Hbound.
  - exact Hdestroyed.
  - exact Hcreated.
  - rewrite <- Hlived in *. set (c1 := run empty lived) in *.
    destruct Hlive' as (_ & _ & Hreach').
    destruct (Hreach' page id r Hr) as [_ [w Hw]].
    split; [eauto|]. rewrite ws_run_app. fold c1.
    change (run c1 (TargetDestroyed page :: post'))
      with (run (step c1 (TargetDestroyed page)) post').
    rewrite Hw.
    apply (run_unreached r post' (announced' ++ announcedBy (TargetDestroyed page))).
    + apply WebSocketCollectorSpec.step_tablesOwned. exact Hown'.
    + apply WebSocketCollectorSpec.step_stableIdOf. exact Halloc'.
    + rewrite (step_object c1 _ r w Halloc' Hw). reflexivity.
    + intros q id' Hq.
      rewrite (step_reached announced' c1 _ q id' Hown') in Hq.
      destruct (decide (page = q)) as [<-|Hne]; [discriminate|].
      destruct (Honly q id' Hq) as [-> _]. congruence.
Qed.

(** X13 on a concrete input. *)
Lemma record_final_after_destroy_witness :
  objects (run empty
             (([TargetCreated 0%nat]
               ++ WebSocketCreated 0%nat "ws-1" "wss://example.test/socket" None 1000
               :: chatter)
              ++ TargetDestroyed 0%nat
              :: [TargetCreated 0%nat;
                  WebSocketFrameSent 0%nat "ws-1" 9%float 1 (js "lost")])) !! 0%nat
  = objects (run empty
               ([TargetCreated 0%nat]
                ++ WebSocketCreated 0%nat "ws-1" "wss://example.test/socket" None 1000
                :: chatter)) !! 0%nat.
Proof.
  apply (record_final_after_destroy [TargetCreated 0%nat] chatter
           [TargetCreated 0%nat; WebSocketFrameSent 0%nat "ws-1" 9%float 1 (js "lost")]
           0%nat "ws-1" "wss://example.test/socket" None 1000).
  - vm_compute. discriminate.
  - intros Hin. apply list_elem_of_In in Hin. cbn in Hin.
    repeat (destruct Hin as [Hin|Hin]; [discriminate|]). destruct Hin.
  - intros u' ini' now' Hin. apply list_elem_of_In in Hin. cbn in Hin.
    repeat (destruct Hin as [Hin|Hin]; [discriminate|]). destruct Hin.
Defined.

(** X14. An announced connection becomes the last item of both views of its
    page, and from then on the handlers of the page reach the new record under
    the announced identifier, in place of any record announced earlier under
    the same identifier. *)
Theorem announced_connection_is_last pre page id u ini now :
  storage (run empty pre) !! page ≠ None ->
  let c := run empty pre in
  let c' := run empty (pre ++ [WebSocketCreated page id u ini now]) in
  (forall includePreservedData,
      getData c' page includePreservedData
      = getData c page includePreservedData ++ [nextRef c])
  /\ reached c' page id = Some (nextRef c)
  /\ (forall other, other ≠ id -> reached c' page other = reached c page other).
Proof.
  intros Htracked c c'. subst c'. rewrite ws_run_app. fold c. fold c in Htracked.
  destruct (run_invariants pre) as (Hown & Halloc & (Hnone & Hsome & Hreach)).
  fold c in Hown, Halloc, Hnone, Hsome, Hreach.
  change (run c [WebSocketCreated page id u ini now])
    with (step c (WebSocketCreated page id u ini now)).
  split; [|split].
  - intros inc. destruct (Hsome page Htracked) as [m Hm].
    assert (exists l, cdpListeners c !! page = Some l) as [l Hl].
    { unfold handlerTable in Hm. destruct (cdpListeners c !! page); [eauto|discriminate]. }
    cbn [step]. unfold deliver. rewrite Hl.
    destruct (WebSocketCollectorSpec.onCreated_effect page l id u ini now c)
      as (Hst & _ & _).
    unfold getData. rewrite Hst.
    destruct (storage c !! page) as [navigations|] eqn:Hs; [|congruence].
    destruct (WebSocketCollectorSpec.websocket_retention_bound pre page navigations Hs)
      as [Hlen _].
    destruct navigations as [|current older]; [cbn in Hlen; lia|].
    rewrite lookup_insert_eq. cbn [PageCollector.pushCurrent]. destruct inc; cbn [negb].
    + rewrite !PageCollectorSpec.getDataLoop_spec. cbn [app].
      unfold maxNavigationSaved. rewrite !firstn_cons.
      rewrite !reverse_cons, !concat_app. cbn [concat].
      rewrite !app_nil_r, app_assoc. reflexivity.
    + reflexivity.
  - rewrite (step_reached _ c _ page id Hown).
    rewrite decide_True by (repeat split; auto). reflexivity.
  - intros other Hother. rewrite (step_reached _ c _ page other Hown).
    rewrite decide_False by (intros (_ & ? & _); congruence). reflexivity.
Qed.

(** X14 on a concrete input. *)
Lemma announced_connection_is_last_witness :
  getData (run empty (fourNavigations
                      ++ [WebSocketCreated 0%nat "f" "wss://example.test/f" None 6]))
    0%nat true
  = getData (run empty fourNavigations) 0%nat true ++ [5%nat].
Proof.
  destruct (announced_connection_is_last fourNavigations 0%nat "f"
              "wss://example.test/f" None 6) as [Hdata _].
  - vm_compute. discriminate.
  - apply (Hdata true).
Defined.

(** X15. Lookup of a connection by its stable ID. For a tracked page after any
    trace in which fewer than [MAX_SAFE_INTEGER] connections were announced on
    the page, [getById] with the stable ID of a retained connection answers
    that connection; and [getById] raises "WebSocket connection not found for
    selected page" exactly when no retained connection carries the ID, and
    "No WebSocket connections found for selected page" exactly when the page
    is not tracked. *)
Theorem connection_getById page evs navigations :
  Z.of_nat (createdCount page evs) < MAX_SAFE_INTEGER ->
  storage (run empty evs) !! page = Some navigations ->
  let c := run empty evs in
  (forall r, r ∈ concat navigations -> getById c page (getIdForResource c r) = inr r)
  /\ (forall id,
        getById c page id = inl "WebSocket connection not found for selected page"%string
        <-> forall r, r ∈ concat navigations -> stableIdOf c r ≠ Some id)
  /\ (forall q id,
        getById c q id = inl "No WebSocket connections found for selected page"%string
        <-> storage c !! q = None).
Proof.
  intros Hbound Hst c. fold c in Hst.
  destruct (WebSocketCollectorSpec.run_connections_idsFresh page evs 0 empty ltac:(lia)
              WebSocketCollectorSpec.objectsAllocated_empty
              (WebSocketCollectorSpec.connections_idsFresh_empty page) ltac:(lia)
              navigations Hst) as (l & Hl & Hrange & Hids & Hinj).
  fold c in Hl, Hids, Hinj.
  assert (Hfilter : forall id r,
             match objects c !! r with
             | Some w => bool_decide (stableId w = Some id)
             | None => false
             end = true <-> stableIdOf c r = Some id).
  { intros id r. unfold stableIdOf. destruct (objects c !! r) as [w|]; cbn.
    - rewrite bool_decide_eq_true. reflexivity.
    - split; discriminate. }
  split; [|split].
  - intros r Hr. destruct (Hids r Hr) as (sid & Hsid & _).
    unfold getById, find, getIdForResource. rewrite Hst.
    fold (stableIdOf c r). rewrite Hsid. cbn [default from_option id].
    rewrite (PageCollectorFacts.findIn_only_match _ navigations r); [reflexivity|exact Hr| |].
    + apply Hfilter. exact Hsid.
    + intros y Hy Hfy. apply Hfilter in Hfy.
      apply Hinj; [exact Hy|exact Hr|congruence].
  - intros id. unfold getById, find. rewrite Hst.
    destruct (PageCollector.findIn _ navigations) as [item|] eqn:Hfind.
    + split; [discriminate|]. intros Hall.
      apply PageCollectorSpec.findIn_retained in Hfind as [Hin Hf].
      apply Hfilter in Hf. destruct (Hall item Hin Hf).
    + split; [|reflexivity]. intros _ r Hr Hid.
      rewrite PageCollectorFacts.findIn_None in Hfind. specialize (Hfind r Hr).
      cbv beta in Hfind. apply Hfilter in Hid. rewrite Hid in Hfind. discriminate.
  - intros q id. unfold getById, find.
    destruct (storage c !! q) as [navs|].
    + split; [|discriminate]. destruct (PageCollector.findIn _ navs); discriminate.
    + split; reflexivity.
Qed.

(** X15 on a concrete input. *)
Lemma connection_getById_witness :
  getById (run empty fourNavigations) 0%nat
    (getIdForResource (run empty fourNavigations) 3%nat) = inr 3%nat.
Proof.
  destruct (connection_getById 0%nat fourNavigations [[4]; [3]; [2]]%nat)
    as [Hround _].
  - vm_compute. reflexivity.
  - vm_compute. reflexivity.
  - apply Hround. apply list_elem_of_In. cbn. tauto.
Defined.

(** ** Identifiers of all the connections of one lifetime of a page *)

Lemma step_cdpListeners_kept c e page l :
  tablesLive c ->
  cdpListeners c !! page = Some l ->
  e ≠ TargetDestroyed page ->
  (forall id u ini now, e ≠ WebSocketCreated page id u ini now) ->
  cdpListeners (step c e) !! page = Some l.
Proof.
  intros (Hnone & _ & _) Hl Hdestroyed Hcreated.
  destruct e as [p|p i u ini now|p i t op data|p i t op data|p i t|p [|]|p];
    cbn [step]; unfold deliver.
  - unfold addPage. destruct (storage c !! p) eqn:Hp; [exact Hl|].
    cbn [cdpListeners]. rewrite lookup_insert_ne; [exact Hl|].
    intros ->. rewrite (Hnone page Hp) in Hl. discriminate.
  - destruct (cdpListeners c !! p) as [lp|] eqn:Hlp; [|exact Hl].
    destruct (WebSocketCollectorSpec.onCreated_effect p lp i u ini now c)
      as (_ & -> & _).
    rewrite lookup_insert_ne; [exact Hl|].
    intros ->. exact (Hcreated i u ini now eq_refl).
  - destruct (cdpListeners c !! p) as [lp|]; [|exact Hl].
    unfold onFrameSent, onFrame. destruct (lookupConnection c lp i); exact Hl.
  - destruct (cdpListeners c !! p) as [lp|]; [|exact Hl].
    unfold onFrameReceived, onFrame. destruct (lookupConnection c lp i); exact Hl.
  - destruct (cdpListeners c !! p) as [lp|]; [|exact Hl].
    unfold onClosed. destruct (lookupConnection c lp i); exact Hl.
  - rewrite WebSocketCollectorSpec.iter_splitAfterNavigation_cdpListeners. exact Hl.
  - exact Hl.
  - cbn [cleanupPage cdpListeners]. rewrite lookup_delete_ne; [exact Hl|].
    intros ->. exact (Hdestroyed eq_refl).
Qed.

Lemma createdRefs_cons page c e evs :
  createdRefs page c (e :: evs)
  = (if isCreatedOn page e
     then match cdpListeners c !! page with
          | Some _ => [nextRef c]
          | None => []
          end
     else []) ++ createdRefs page (step c e) evs.
Proof.
  cbn [createdRefs]. f_equal.
  destruct e as [p|p i u ini now|p i t op data|p i t op data|p i t|p m|p];
    try reflexivity.
  cbn [isCreatedOn]. destruct (decide (p = page)) as [->|Hp].
  - rewrite bool_decide_eq_true_2 by reflexivity. reflexivity.
  - rewrite bool_decide_eq_false_2 by exact Hp. reflexivity.
Qed.

(** While the listeners of a page stay installed, the [n]-th connection
    announced on it gets the [n]-th value of the page's generator, and keeps
    it. *)
Lemma run_created_ids page evs : forall announced c l,
  tablesOwned announced c -> objectsAllocated c -> tablesLive c ->
  cdpListeners c !! page = Some l ->
  1 <= generator l ->
  generator l + Z.of_nat (createdCount page evs) <= MAX_SAFE_INTEGER ->
  TargetDestroyed page ∉ evs ->
  forall n r,
    createdRefs page c evs !! n = Some r ->
    stableIdOf (run c evs) r = Some (generator l + Z.of_nat n).
Proof.
  induction evs as [|e evs IH];
    intros announced c l Hown Halloc Hlive Hl Hgen Hbound Hdestroyed n r Hr;
    [discriminate|].
  rewrite createdRefs_cons, Hl in Hr.
  rewrite WebSocketCollectorSpec.createdCount_cons in Hbound.
  pose proof (WebSocketCollectorSpec.step_tablesOwned announced c e Hown) as Hown'.
  destruct (WebSocketCollectorSpec.step_stableIdOf c e Halloc) as [Halloc' _].
  pose proof (step_tablesLive announced c e Hown Halloc Hlive) as Hlive'.
  assert (Hdestroyed' : TargetDestroyed page ∉ evs)
    by (intros Hin; apply Hdestroyed; right; exact Hin).
  cbn [run fold_left]. fold (run (step c e) evs).
  destruct (isCreatedOn page e) eqn:He.
  - destruct e as [p|p i u ini now|p i t op data|p i t op data|p i t|p m|p];
      try discriminate.
    cbn [isCreatedOn] in He. apply bool_decide_eq_true_1 in He. subst p.
    destruct (WebSocketCollectorSpec.onCreated_effect page l i u ini now c)
      as (_ & Hl' & Hid).
    assert (Hstep : step c (WebSocketCreated page i u ini now)
                    = onCreated page l i u ini now c)
      by (cbn [step]; unfold deliver; rewrite Hl; reflexivity).
    assert (Hnowrap : idGenerator (generator l) = (generator l, generator l + 1)).
    { unfold idGenerator.
      destruct (decide (generator l = MAX_SAFE_INTEGER)) as [Heq|_]; [lia|reflexivity]. }
    rewrite Hnowrap in Hl', Hid. cbn [fst snd] in Hl', Hid.
    destruct n as [|n]; cbn [app lookup list_lookup] in Hr.
    + injection Hr as <-.
      destruct (WebSocketCollectorSpec.run_stableIdOf evs
                  (step c (WebSocketCreated page i u ini now)) (nextRef c) Halloc')
        as [_ ->].
      * rewrite Hstep. unfold onCreated. rewrite Hnowrap. cbn. lia.
      * rewrite Hstep, Hid. f_equal. lia.
    + rewrite (IH _ _ {| capturedConnectionMap := capturedConnectionMap l;
                         generator := generator l + 1 |} Hown' Halloc' Hlive')
        with (n := n) (r := r); cbn [generator]; try assumption.
      * f_equal. lia.
      * rewrite Hstep, Hl'. apply lookup_insert_eq.
      * lia.
      * lia.
  - cbn [app] in Hr.
    apply (IH _ _ l Hown' Halloc' Hlive'); try assumption; try lia.
    apply step_cdpListeners_kept; try assumption.
    + intros ->. apply Hdestroyed. left.
    + intros i u ini now ->. cbn [isCreatedOn] in He.
      apply bool_decide_eq_false_1 in He. congruence.
Qed.

(** From the moment a page is tracked until it is destroyed, the [n]-th
    connection announced on it carries the stable ID [n + 1], whether its
    epoch is still retained or not. *)
Lemma lifetime_connection_ids pre evs page n r :
  storage (run empty pre) !! page = None ->
  TargetDestroyed page ∉ evs ->
  Z.of_nat (createdCount page evs) < MAX_SAFE_INTEGER ->
  createdRefs page (run empty (pre ++ [TargetCreated page])) evs !! n = Some r ->
  getIdForResource (run (run empty (pre ++ [TargetCreated page])) evs) r
  = Z.of_nat n + 1.
Proof.
  intros Hst Hdestroyed Hbound Hr.
  destruct (run_invariants (pre ++ [TargetCreated page])) as (Hown & Halloc & Hlive).
  set (c1 := run empty (pre ++ [TargetCreated page])) in *.
  assert (exists l, cdpListeners c1 !! page = Some l /\ generator l = 1) as (l & Hl & Hgen).
  { subst c1. rewrite ws_run_app.
    change (run (run empty pre) [TargetCreated page]) with (addPage page (run empty pre)).
    unfold addPage. rewrite Hst. cbn [cdpListeners]. rewrite lookup_insert_eq.
    eexists. split; reflexivity. }
  unfold getIdForResource. fold (stableIdOf (run c1 evs) r).
  rewrite (run_created_ids page evs _ c1 l Hown Halloc Hlive Hl) with (n := n) (r := r);
    try assumption; rewrite ?Hgen; [cbn; lia|lia|lia].
Qed.

End WebSocketCollectorFacts.

(* ===================================================================== *)
(** * Further properties of the traffic analysis *)
(* ===================================================================== *)

Module TrafficFacts.

Import WebSocketCollector Traffic TrafficMore.

(** ** The size range of a group *)

Lemma groupMeasured_recordFrame frames frame n g :
  frames !! n = Some frame ->
  (indices g = [] -> gMinSize g = payloadSize frame /\ gMaxSize g = payloadSize frame) ->
  (indices g ≠ [] -> groupMeasured frames g) ->
  groupMeasured frames (recordFrame n (payloadSize frame) g).
Proof.
  intros Hn Hnew Hold. unfold groupMeasured.
  cbn [recordFrame indices gMinSize gMaxSize].
  split; [destruct (indices g); discriminate|].
  destruct (indices g) as [|i0 l] eqn:Hi.
  - destruct Hnew as [-> ->]; [reflexivity|]. cbn [app].
    rewrite Z.min_id, Z.max_id. split; [|split].
    + intros i Hin. apply list_elem_of_singleton in Hin as ->.
      exists frame. split; [exact Hn|lia].
    + exists n, frame. split; [apply list_elem_of_singleton; reflexivity|].
      split; [exact Hn|reflexivity].
    + exists n, frame. split; [apply list_elem_of_singleton; reflexivity|].
      split; [exact Hn|reflexivity].
  - destruct Hold as (_ & Hall & (imin & fmin & Himin & Hfmin & Hmin)
                      & (imax & fmax & Himax & Hfmax & Hmax)); [discriminate|].
    rewrite Hi in *. split; [|split].
    + intros i Hin. apply elem_of_app in Hin as [Hin|Hin].
      * destruct (Hall i Hin) as (f & Hf & Hrange). exists f. split; [exact Hf|lia].
      * apply list_elem_of_singleton in Hin as ->. exists frame. split; [exact Hn|lia].
    + destruct (Z.le_gt_cases (gMinSize g) (payloadSize frame)) as [Hle|Hgt].
      * exists imin, fmin. split; [apply elem_of_app; left; exact Himin|].
        split; [exact Hfmin|lia].
      * exists n, frame. split; [apply elem_of_app; right; apply list_elem_of_singleton;
                                   reflexivity|].
        split; [exact Hn|lia].
    + destruct (Z.le_gt_cases (payloadSize frame) (gMaxSize g)) as [Hle|Hgt].
      * exists imax, fmax. split; [apply elem_of_app; left; exact Himax|].
        split; [exact Hfmax|lia].
      * exists n, frame. split; [apply elem_of_app; right; apply list_elem_of_singleton;
                                   reflexivity|].
        split; [exact Hn|lia].
Qed.

Lemma addFrame_measured frames frame n groupMap :
  frames !! n = Some frame ->
  Forall (fun e => groupMeasured frames (snd e)) groupMap ->
  Forall (fun e => groupMeasured frames (snd e)) (addFrame frame n groupMap).
Proof.
  intros Hn Hall.
  destruct (TrafficSpec.addFrame_cases frame n groupMap)
    as [(m1 & g & m2 & -> & ->)|(Hfresh & ->)].
  - apply Forall_app in Hall as [H1 H2]. apply Forall_cons in H2 as [Hg H2].
    apply Forall_app. split; [exact H1|]. constructor; [|exact H2].
    cbn [snd] in *. apply groupMeasured_recordFrame; [exact Hn| |intros _; exact Hg].
    intros Hnil. destruct Hg as [Hne _]. contradiction.
  - apply Forall_app. split; [exact Hall|]. constructor; [|constructor].
    cbn [snd]. apply groupMeasured_recordFrame; [exact Hn| |].
    + intros _. split; reflexivity.
    + intros Hne. destruct Hne. reflexivity.
Qed.

Lemma groupFrames_measured frames : forall rest done groupMap,
  frames = done ++ rest ->
  Forall (fun e => groupMeasured frames (snd e)) groupMap ->
  Forall (fun e => groupMeasured frames (snd e))
    (groupFrames rest (length done) groupMap).
Proof.
  induction rest as [|frame rest IH]; intros done groupMap Hframes Hall; [exact Hall|].
  cbn [groupFrames].
  assert (Hlen : S (length done) = length (done ++ [frame]))
    by (rewrite length_app; cbn; lia).
  rewrite Hlen. apply IH.
  - rewrite Hframes, <- app_assoc. reflexivity.
  - apply addFrame_measured; [|exact Hall].
    rewrite Hframes. apply list_lookup_middle. reflexivity.
Qed.

Lemma indexFrom_lookup (entries : list (string * Group)) : forall idx k row,
  indexFrom idx entries !! k = Some row ->
  exists e,
    entries !! k = Some e
    /\ row = (generateGroupId (Z.of_nat (idx + k)), indices (snd e)).
Proof.
  induction entries as [|e0 entries IH]; intros idx k row Hrow; [discriminate|].
  destruct k as [|k]; cbn in Hrow.
  - injection Hrow as <-. exists e0. split; [reflexivity|].
    rewrite Nat.add_0_r. reflexivity.
  - destruct (IH (S idx) k row Hrow) as (e & He & ->). exists e.
    split; [exact He|].
    replace (idx + S k)%nat with (S idx + k)%nat by lia. reflexivity.
Qed.

(** The ranked entries and the two tables the analysis emits, rank by rank. *)
Lemma analyze_rank frames w u k g row :
  groups (analyzeWebSocketFramesV2 frames w u) !! k = Some g ->
  groupToIndices (analyzeWebSocketFramesV2 frames w u) !! k = Some row ->
  exists e,
    sort byCountDescending (groupFrames frames 0 []) !! k = Some e
    /\ g = toMessageGroup k (snd e)
    /\ row = (generateGroupId (Z.of_nat k), indices (snd e)).
Proof.
  destruct (TrafficSpec.analyze_tables frames w u) as (-> & -> & _).
  intros Hg Hrow.
  destruct (TrafficSpec.groupsFrom_lookup _ 0 k g Hg) as (e & He & ->).
  destruct (indexFrom_lookup _ 0 k row Hrow) as (e' & He' & ->).
  rewrite He in He'. injection He' as <-.
  exists e. split; [exact He|]. split; reflexivity.
Qed.

Lemma analyze_measured frames :
  Forall (fun e => groupMeasured frames (snd e))
    (sort byCountDescending (groupFrames frames 0 [])).
Proof.
  rewrite (TrafficSpec.sort_Permutation byCountDescending (groupFrames frames 0 [])).
  apply (groupFrames_measured frames frames [] []); [reflexivity|constructor].
Qed.

(** X16. The size range shown for a group is the range of its members. Every
    group has at least one member; the payload length of every member lies
    between the group's [minSize] and [maxSize]; both bounds are the payload
    length of some member; and both fall in the group's size bucket. *)
Theorem group_size_range frames w u k g row :
  groups (analyzeWebSocketFramesV2 frames w u) !! k = Some g ->
  groupToIndices (analyzeWebSocketFramesV2 frames w u) !! k = Some row ->
  (1 <= count g)%nat
  /\ (forall i, i ∈ snd row ->
        exists f, frames !! i = Some f /\ minSize g <= payloadSize f <= maxSize g)
  /\ (exists i f, i ∈ snd row /\ frames !! i = Some f /\ payloadSize f = minSize g)
  /\ (exists i f, i ∈ snd row /\ frames !! i = Some f /\ payloadSize f = maxSize g)
  /\ getSizeCategory (minSize g) = sizeCategory g
  /\ getSizeCategory (maxSize g) = sizeCategory g.
Proof.
  intros Hg Hrow.
  destruct (analyze_rank frames w u k g row Hg Hrow) as (e & He & Heg & Her).
  pose proof (analyze_measured frames) as Hall.
  rewrite Forall_lookup in Hall. specialize (Hall k e He).
  destruct Hall as (Hne & Hin & (imin & fmin & Himin & Hfmin & Hmin)
                    & (imax & fmax & Himax & Hfmax & Hmax)).
  assert (Hbucket : forall i f, i ∈ snd row -> frames !! i = Some f ->
                      sizeCategory g = getSizeCategory (payloadSize f)).
  { intros i f Hi Hf.
    destruct (TrafficSpec.group_members_share_key frames w u k i g row Hg Hrow Hi)
      as (f' & Hf' & _ & _ & Hcat). rewrite Hf in Hf'. injection Hf' as <-. exact Hcat. }
  subst g row. cbn [snd toMessageGroup count minSize maxSize sizeCategory] in *.
  split; [destruct (indices (snd e)); [congruence|cbn; lia]|].
  split; [exact Hin|].
  split; [exists imin, fmin; auto|].
  split; [exists imax, fmax; auto|].
  split.
  - rewrite <- Hmin. symmetry. apply (Hbucket imin fmin Himin Hfmin).
  - rewrite <- Hmax. symmetry. apply (Hbucket imax fmax Himax Hfmax).
Qed.

(** X16 on a concrete input. *)
Lemma group_size_range_witness :
  exists g,
    groups (analyzeWebSocketFramesV2 mixedFrames 1 "wss://example.test/socket")
      !! 0%nat = Some g
    /\ (forall i, i ∈ [0; 2]%nat ->
          exists f, mixedFrames !! i = Some f /\ minSize g <= payloadSize f <= maxSize g).
Proof.
  eexists. split; [vm_compute; reflexivity|].
  apply (group_size_range mixedFrames 1 "wss://example.test/socket" 0%nat _
           ("A"%string, [0; 2]%nat)).
  - vm_compute. reflexivity.
  - vm_compute. reflexivity.
Defined.

(** ** Groups as the classes of the grouping key *)

Lemma groupsFrom_lookup_Some (entries : list (string * Group)) : forall idx k e,
  entries !! k = Some e ->
  groupsFrom idx entries !! k = Some (toMessageGroup (idx + k) (snd e))
  /\ indexFrom idx entries !! k
     = Some (generateGroupId (Z.of_nat (idx + k)), indices (snd e)).
Proof.
  induction entries as [|e0 entries IH]; intros idx k e He; [discriminate|].
  destruct k as [|k]; cbn in He.
  - injection He as <-. rewrite Nat.add_0_r. split; reflexivity.
  - destruct (IH (S idx) k e He) as [Hg Hi]. cbn.
    replace (idx + S k)%nat with (S idx + k)%nat by lia. split; assumption.
Qed.

(** The ranked entries have distinct keys, each the key of its own fields and
    of every frame it lists, and together they list every frame index. *)
Lemma analyze_entries frames :
  let entries := sort byCountDescending (groupFrames frames 0 []) in
  NoDup (map fst entries)
  /\ groupsKeyed frames entries
  /\ Permutation (concat (map (fun e => indices (snd e)) entries))
       (seq 0 (length frames)).
Proof.
  intros entries.
  destruct (TrafficSpec.groupFrames_partition frames) as [(Hkeys & Hperm & _) Hkeyed].
  assert (Hentries : Permutation entries (groupFrames frames 0 []))
    by apply TrafficSpec.sort_Permutation.
  split; [|split].
  - rewrite Hentries. exact Hkeys.
  - unfold groupsKeyed. rewrite Hentries. exact Hkeyed.
  - rewrite (TrafficSpec.Permutation_concat_map _ _ _ Hentries). exact Hperm.
Qed.

Lemma analyze_member frames i :
  (i < length frames)%nat ->
  exists k e,
    sort byCountDescending (groupFrames frames 0 []) !! k = Some e
    /\ i ∈ indices (snd e).
Proof.
  intros Hi. destruct (analyze_entries frames) as (_ & _ & Hperm).
  assert (i ∈ concat (map (fun e => indices (snd e))
                        (sort byCountDescending (groupFrames frames 0 [])))) as Hin.
  { rewrite Hperm. apply elem_of_seq. lia. }
  apply PageCollectorSpec.elem_of_concat in Hin as (l & Hil & Hl).
  apply list_elem_of_fmap in Hl as (e & -> & He).
  apply list_elem_of_lookup in He as [k Hk]. exists k, e. split; assumption.
Qed.

(** X17. The groups are exactly the classes of the grouping key. No two groups
    agree on direction, head and size bucket, and two frames are listed in the
    same group exactly when they agree on all three. *)
Theorem groups_are_key_classes frames w u :
  let s := analyzeWebSocketFramesV2 frames w u in
  (forall k1 k2 g1 g2,
      groups s !! k1 = Some g1 -> groups s !! k2 = Some g2 ->
      mDirection g1 = mDirection g2 -> head4B g1 = head4B g2 ->
      sizeCategory g1 = sizeCategory g2 ->
      k1 = k2)
  /\ (forall i j fi fj,
        frames !! i = Some fi -> frames !! j = Some fj ->
        (exists k row, groupToIndices s !! k = Some row /\ i ∈ snd row /\ j ∈ snd row)
        <-> (direction fi = direction fj
             /\ getHead4B (payloadData fi) (opcode fi)
                = getHead4B (payloadData fj) (opcode fj)
             /\ frameSizeCategory fi = frameSizeCategory fj)).
Proof.
  intros s. subst s.
  destruct (analyze_entries frames) as (Hkeys & Hkeyed & Hperm).
  destruct (TrafficSpec.analyze_tables frames w u) as (Hgroups & Hindex & _).
  set (entries := sort byCountDescending (groupFrames frames 0 [])) in *.
  unfold groupsKeyed in Hkeyed. rewrite Forall_lookup in Hkeyed.
  assert (Hsame : forall k1 k2 e1 e2,
             entries !! k1 = Some e1 -> entries !! k2 = Some e2 ->
             fst e1 = fst e2 -> k1 = k2).
  { intros k1 k2 e1 e2 H1 H2 Heq.
    apply (NoDup_lookup (map fst entries) k1 k2 (fst e1) Hkeys).
    - rewrite list_lookup_fmap, H1. reflexivity.
    - rewrite list_lookup_fmap, H2, Heq. reflexivity. }
  split.
  - intros k1 k2 g1 g2 H1 H2 Hd Hh Hc. rewrite Hgroups in H1, H2.
    destruct (TrafficSpec.groupsFrom_lookup _ 0 k1 g1 H1) as (e1 & He1 & ->).
    destruct (TrafficSpec.groupsFrom_lookup _ 0 k2 g2 H2) as (e2 & He2 & ->).
    cbn [toMessageGroup mDirection head4B sizeCategory] in Hd, Hh, Hc.
    apply (Hsame k1 k2 e1 e2 He1 He2).
    destruct (Hkeyed k1 e1 He1) as [-> _]. destruct (Hkeyed k2 e2 He2) as [-> _].
    rewrite Hd, Hh, Hc. reflexivity.
  - intros i j fi fj Hfi Hfj. rewrite Hindex. split.
    + intros (k & row & Hrow & Hi & Hj).
      destruct (indexFrom_lookup _ 0 k row Hrow) as (e & He & ->). cbn [snd] in Hi, Hj.
      destruct (Hkeyed k e He) as [_ Hmem].
      destruct (Hmem i Hi) as (f & Hf & Hkf). rewrite Hfi in Hf. injection Hf as <-.
      destruct (Hmem j Hj) as (f & Hf & Hkf'). rewrite Hfj in Hf. injection Hf as <-.
      apply TrafficSpec.groupKey_inj. unfold frameKey in Hkf, Hkf'.
      unfold frameSizeCategory. congruence.
    + intros (Hd & Hh & Hc).
      destruct (analyze_member frames i) as (k1 & e1 & He1 & Hi);
        [apply lookup_lt_Some in Hfi; exact Hfi|].
      destruct (analyze_member frames j) as (k2 & e2 & He2 & Hj);
        [apply lookup_lt_Some in Hfj; exact Hfj|].
      fold entries in He1, He2.
      destruct (Hkeyed k1 e1 He1) as [_ Hmem1]. destruct (Hkeyed k2 e2 He2) as [_ Hmem2].
      destruct (Hmem1 i Hi) as (f & Hf & Hk1). rewrite Hfi in Hf. injection Hf as <-.
      destruct (Hmem2 j Hj) as (f & Hf & Hk2). rewrite Hfj in Hf. injection Hf as <-.
      assert (k1 = k2) as <-.
      { apply (Hsame k1 k2 e1 e2 He1 He2). rewrite <- Hk1, <- Hk2.
        unfold frameKey. unfold frameSizeCategory in Hc. rewrite Hd, Hh, Hc. reflexivity. }
      rewrite He1 in He2. injection He2 as <-.
      destruct (groupsFrom_lookup_Some entries 0 k1 e1 He1) as [_ Hrow].
      eexists k1, _. split; [exact Hrow|]. cbn [snd]. split; assumption.
Qed.

(** X17 on a concrete input. *)
Lemma groups_are_key_classes_witness :
  exists k row,
    groupToIndices (analyzeWebSocketFramesV2 mixedFrames 1 "wss://example.test/socket")
      !! k = Some row
    /\ 1%nat ∈ snd row /\ 3%nat ∈ snd row.
Proof.
  destruct (groups_are_key_classes mixedFrames 1 "wss://example.test/socket")
    as [_ Hclass].
  eapply Hclass.
  - reflexivity.
  - reflexivity.
  - vm_compute. repeat split; reflexivity.
Defined.

Lemma get_NoDup_lookup {V} (m : list (string * V)) : forall k key v,
  NoDup (map fst m) -> m !! k = Some (key, v) -> JsMap.get key m = Some v.
Proof.
  induction m as [|[k0 v0] m IH]; intros k key v Hnd Hk; [discriminate|].
  cbn [map fst] in Hnd. apply NoDup_cons in Hnd as [Hk0 Hnd].
  cbn [JsMap.get]. destruct k as [|k]; cbn in Hk.
  - injection Hk as -> ->. rewrite decide_True by reflexivity. reflexivity.
  - destruct (decide (k0 = key)) as [->|Hne]; [|apply (IH k); assumption].
    destruct Hk0. apply list_elem_of_fmap. exists (key, v).
    split; [reflexivity|]. apply list_elem_of_lookup. exists k. exact Hk.
Qed.

(** X18. A group's identifier retrieves the group's frames. Looking the
    identifier of a group up in [groupToIndices] answers the index list of
    that group, which has [count] entries and starts with the group's sample
    indices; an identifier of no group answers nothing. *)
Theorem group_lookup_by_id frames w u :
  let s := analyzeWebSocketFramesV2 frames w u in
  (forall k g row,
      groups s !! k = Some g -> groupToIndices s !! k = Some row ->
      JsMap.get (id g) (groupToIndices s) = Some (snd row)
      /\ length (snd row) = count g
      /\ sampleIndices g = take 3 (snd row))
  /\ (forall key,
        (forall g, g ∈ groups s -> id g ≠ key) ->
        JsMap.get key (groupToIndices s) = None).
Proof.
  intros s. subst s.
  destruct (TrafficSpec.analyze_tables frames w u) as (Hgroups & Hindex & _).
  set (entries := sort byCountDescending (groupFrames frames 0 [])) in *.
  assert (Hnd : NoDup (map fst (indexFrom 0 entries))).
  { rewrite TrafficSpec.indexFrom_fst. apply NoDup_fmap_2; [|apply NoDup_seq].
    intros i j. apply TrafficSpec.generateGroupId_of_nat_inj. }
  split.
  - intros k g row Hg Hrow.
    destruct (analyze_rank frames w u k g row Hg Hrow) as (e & He & -> & ->).
    rewrite Hindex in *. cbn [toMessageGroup id count sampleIndices snd].
    split; [|split; reflexivity].
    apply (get_NoDup_lookup _ k); assumption.
  - intros key Hkey. rewrite Hindex. apply TrafficSpec.get_None_not_in.
    intros Hin. apply list_elem_of_fmap in Hin as ([key' l] & -> & Hin).
    apply list_elem_of_lookup in Hin as [k Hk].
    destruct (indexFrom_lookup entries 0 k _ Hk) as (e & He & [= -> ->]).
    destruct (groupsFrom_lookup_Some entries 0 k e He) as [Hg _].
    apply (Hkey (toMessageGroup (0 + k) (snd e))); [|reflexivity].
    rewrite Hgroups. apply list_elem_of_lookup. exists k. exact Hg.
Qed.

(** X18 on a concrete input. *)
Lemma group_lookup_by_id_witness :
  JsMap.get "B"
    (groupToIndices (analyzeWebSocketFramesV2 mixedFrames 1 "wss://example.test/socket"))
  = Some [1; 3]%nat.
Proof.
  destruct (group_lookup_by_id mixedFrames 1 "wss://example.test/socket") as [Hget _].
  destruct (Hget 1%nat
              (toMessageGroup 1
                 {| gDirection := received; gHead4B := "1f8b0800";
                    gSizeCategory := tiny; indices := [1; 3]%nat;
                    gMinSize := 12; gMaxSize := 12 |})
              ("B"%string, [1; 3]%nat)) as [H _].
  - vm_compute. reflexivity.
  - vm_compute. reflexivity.
  - exact H.
Defined.

(** ** Counting frames by direction *)

Lemma length_filter_Permutation {A} (p : A -> bool) (l l' : list A) :
  Permutation l l' -> length (List.filter p l) = length (List.filter p l').
Proof.
  induction 1 as [|x l l' _ IH|x y l|l1 l2 l3 _ IH1 _ IH2]; cbn [List.filter].
  - reflexivity.
  - destruct (p x); cbn [length]; congruence.
  - destruct (p x), (p y); reflexivity.
  - congruence.
Qed.

Lemma length_filter_holdsAt (p : WebSocketFrame -> bool) (frames : list WebSocketFrame) :
  length (List.filter (holdsAt p frames) (seq 0 (length frames)))
  = length (List.filter p frames).
Proof.
  induction frames as [|x l IH] using rev_ind; [reflexivity|].
  rewrite length_app, Nat.add_comm. cbn [length Nat.add].
  rewrite seq_S, !List.filter_app, !length_app. cbn [Nat.add List.filter].
  f_equal.
  - rewrite <- IH. f_equal. apply List.filter_ext_in. intros i Hi.
    apply in_seq in Hi. unfold holdsAt. rewrite lookup_app_l by lia. reflexivity.
  - unfold holdsAt. rewrite list_lookup_middle by reflexivity.
    destruct (p x); reflexivity.
Qed.

Lemma filter_members (p : WebSocketFrame -> bool) frames (l : list nat) (b : bool) :
  (forall i, i ∈ l -> exists f, frames !! i = Some f /\ p f = b) ->
  List.filter (holdsAt p frames) l = if b then l else [].
Proof.
  induction l as [|i l IH]; intros Hall; [destruct b; reflexivity|].
  cbn [List.filter]. destruct (Hall i) as (f & Hf & Hp); [left|].
  unfold holdsAt at 1. rewrite Hf, Hp.
  rewrite IH by (intros j Hj; apply Hall; right; exact Hj).
  destruct b; reflexivity.
Qed.

Lemma direction_sum (d : WebSocketDirection) (p : WebSocketFrame -> bool) frames
    (entries : list (string * Group)) :
  (forall f, p f = sameDirection (direction f) d) ->
  groupsKeyed frames entries ->
  forall idx,
    sum_list (map count (List.filter (inDirection d) (groupsFrom idx entries)))
    = length (List.filter (holdsAt p frames)
                (concat (map (fun e => indices (snd e)) entries))).
Proof.
  intros Hp Hkeyed. induction Hkeyed as [|e entries [Hkey Hmem] _ IH]; intros idx;
    [reflexivity|].
  cbn [groupsFrom map concat]. rewrite List.filter_app, length_app.
  rewrite (filter_members p frames (indices (snd e))
             (sameDirection (gDirection (snd e)) d)).
  - cbn [List.filter]. unfold inDirection at 1. cbn [toMessageGroup mDirection].
    destruct (sameDirection (gDirection (snd e)) d); cbn [map sum_list length];
      rewrite (IH (S idx)); reflexivity.
  - intros i Hi. destruct (Hmem i Hi) as (f & Hf & Hkf). exists f.
    split; [exact Hf|]. rewrite Hp. rewrite Hkey in Hkf.
    apply TrafficSpec.groupKey_inj in Hkf as (-> & _ & _). reflexivity.
Qed.

(** X19. The per-direction totals add up. Every frame is counted as sent or as
    received, and the counts of the groups of a direction add up to the number
    of frames of that direction. *)
Theorem direction_counts frames w u :
  let s := analyzeWebSocketFramesV2 frames w u in
  (sentCount s + receivedCount s = totalFrames s)%nat
  /\ sum_list (map count (List.filter (inDirection sent) (groups s))) = sentCount s
  /\ sum_list (map count (List.filter (inDirection received) (groups s)))
     = receivedCount s.
Proof.
  intros s. subst s.
  destruct (analyze_entries frames) as (_ & Hkeyed & Hperm).
  destruct (TrafficSpec.analyze_tables frames w u) as (Hgroups & _ & _).
  rewrite Hgroups.
  assert (Hsent : sentCount (analyzeWebSocketFramesV2 frames w u)
                  = length (List.filter isSent frames))
    by (unfold analyzeWebSocketFramesV2; destruct (emitGroups _ _ _); reflexivity).
  assert (Hreceived : receivedCount (analyzeWebSocketFramesV2 frames w u)
                      = length (List.filter isReceived frames))
    by (unfold analyzeWebSocketFramesV2; destruct (emitGroups _ _ _); reflexivity).
  assert (Htotal : totalFrames (analyzeWebSocketFramesV2 frames w u) = length frames)
    by (unfold analyzeWebSocketFramesV2; destruct (emitGroups _ _ _); reflexivity).
  rewrite Hsent, Hreceived, Htotal. split; [|split].
  - clear. induction frames as [|f l IH]; [reflexivity|].
    cbn [List.filter length]. unfold isSent at 1, isReceived at 1.
    destruct (direction f); cbn [length]; lia.
  - rewrite (direction_sum sent isSent frames _) by
      (first [intros f; unfold isSent; destruct (direction f); reflexivity|exact Hkeyed]).
    rewrite (length_filter_Permutation _ _ _ Hperm). apply length_filter_holdsAt.
  - rewrite (direction_sum received isReceived frames _) by
      (first [intros f; unfold isReceived; destruct (direction f); reflexivity
             |exact Hkeyed]).
    rewrite (length_filter_Permutation _ _ _ Hperm). apply length_filter_holdsAt.
Qed.

(** ** Ties between groups of equal size *)

Lemma StronglySorted_snoc_rel {A} (R : A -> A -> Prop) (l : list A) (x : A) :
  StronglySorted R l -> (forall y, y ∈ l -> R y x) -> StronglySorted R (l ++ [x]).
Proof.
  induction 1 as [|a l Hl IH Ha]; intros Hx; cbn [app].
  - constructor; constructor.
  - constructor.
    + apply IH. intros y Hy. apply Hx. right. exact Hy.
    + apply Forall_app. split; [exact Ha|].
      constructor; [|constructor]. apply Hx. left.
Qed.

Lemma addFrame_arrival frame n groupMap :
  groupsInArrivalOrder n groupMap ->
  groupsInArrivalOrder (S n) (addFrame frame n groupMap).
Proof.
  intros [Hsorted Hall]. unfold groupsInArrivalOrder.
  destruct (TrafficSpec.addFrame_cases frame n groupMap)
    as [(m1 & g & m2 & -> & ->)|(Hfresh & ->)].
  - apply Forall_app in Hall as [H1 H2]. apply Forall_cons in H2 as [[Hne Hg] H2].
    cbn [snd] in Hne, Hg. split.
    + rewrite map_app in *. cbn [map] in *. unfold firstIndex at 2.
      cbn [snd recordFrame indices]. unfold firstIndex at 2 in Hsorted.
      cbn [snd] in Hsorted.
      destruct (indices g) as [|i0 l]; [congruence|]. exact Hsorted.
    + apply Forall_app. split; [|constructor].
      * eapply Forall_impl; [exact H1|]. intros e [He Hb]. split; [exact He|].
        intros i Hi. specialize (Hb i Hi). lia.
      * cbn [snd recordFrame indices]. split; [destruct (indices g); discriminate|].
        intros i Hi. apply elem_of_app in Hi as [Hi|Hi]; [specialize (Hg i Hi); lia|].
        apply list_elem_of_singleton in Hi as ->. lia.
      * eapply Forall_impl; [exact H2|]. intros e [He Hb]. split; [exact He|].
        intros i Hi. specialize (Hb i Hi). lia.
  - split.
    + rewrite map_app. cbn [map]. unfold firstIndex at 2.
      cbn [snd recordFrame newGroup indices app head].
      apply StronglySorted_snoc_rel; [exact Hsorted|].
      intros a Ha. apply list_elem_of_fmap in Ha as (e & -> & He).
      rewrite Forall_forall in Hall. destruct (Hall e He) as [Hne Hbound].
      unfold firstIndex. destruct (indices (snd e)) as [|i0 l] eqn:Hi; [congruence|].
      exists i0, n. split; [reflexivity|]. split; [reflexivity|].
      apply Hbound. left.
    + apply Forall_app. split; [|constructor; [|constructor]].
      * eapply Forall_impl; [exact Hall|]. intros e [He Hb]. split; [exact He|].
        intros i Hi. specialize (Hb i Hi). lia.
      * cbn [snd recordFrame newGroup indices app]. split; [discriminate|].
        intros i Hi. apply list_elem_of_singleton in Hi as ->. lia.
Qed.

Lemma groupFrames_arrival : forall rest n groupMap,
  groupsInArrivalOrder n groupMap ->
  groupsInArrivalOrder (n + length rest) (groupFrames rest n groupMap).
Proof.
  induction rest as [|frame rest IH]; intros n groupMap Hc.
  - cbn. rewrite Nat.add_0_r. exact Hc.
  - cbn [groupFrames length]. replace (n + S (length rest))%nat with (S n + length rest)%nat
      by lia.
    apply IH. apply addFrame_arrival. exact Hc.
Qed.

Lemma filter_sortInsert (c : nat) (x : string * Group) (l : list (string * Group)) :
  List.filter (hasCount c) (sortInsert byCountDescending x l)
  = if hasCount c x then x :: List.filter (hasCount c) l else List.filter (hasCount c) l.
Proof.
  induction l as [|y l IH]; cbn [sortInsert List.filter]; [reflexivity|].
  destruct (0 <? byCountDescending x y) eqn:Hcmp; cbn [List.filter]; [|reflexivity].
  rewrite IH. apply Z.ltb_lt in Hcmp. unfold byCountDescending in Hcmp.
  unfold hasCount in *.
  destruct (length (indices (snd x)) =? c)%nat eqn:Hx; [|reflexivity].
  apply Nat.eqb_eq in Hx.
  destruct (length (indices (snd y)) =? c)%nat eqn:Hy; [|reflexivity].
  apply Nat.eqb_eq in Hy. lia.
Qed.

(** The sort is stable: entries of equal count keep their relative order. *)
Lemma filter_sort (c : nat) (l : list (string * Group)) :
  List.filter (hasCount c) (sort byCountDescending l) = List.filter (hasCount c) l.
Proof.
  induction l as [|x l IH]; [reflexivity|].
  cbn [sort List.filter]. rewrite filter_sortInsert, IH. reflexivity.
Qed.

Lemma filter_lookup_order {A} (p : A -> bool) (l : list A) (k1 k2 : nat) (a b : A) :
  (k1 < k2)%nat -> l !! k1 = Some a -> l !! k2 = Some b ->
  p a = true -> p b = true ->
  exists j1 j2,
    (j1 < j2)%nat
    /\ List.filter p l !! j1 = Some a /\ List.filter p l !! j2 = Some b.
Proof.
  intros Hlt Ha Hb Hpa Hpb.
  rewrite <- (take_drop_middle l k1 a Ha) in Hb |- *.
  assert (length (take k1 l) = k1) as Hlen.
  { rewrite length_take. apply lookup_lt_Some in Ha. lia. }
  rewrite lookup_app_r in Hb by lia. rewrite Hlen in Hb.
  destruct (k2 - k1)%nat as [|d] eqn:Hd; [lia|]. cbn in Hb.
  assert (b ∈ List.filter p (drop (S k1) l)) as Hin.
  { apply list_elem_of_In, filter_In. split; [|exact Hpb].
    apply list_elem_of_In, list_elem_of_lookup. eauto. }
  apply list_elem_of_lookup in Hin as [j Hj].
  rewrite List.filter_app. cbn [List.filter]. rewrite Hpa.
  exists (length (List.filter p (take k1 l))),
         (length (List.filter p (take k1 l)) + S j)%nat.
  split; [lia|]. split.
  - apply list_lookup_middle. reflexivity.
  - rewrite lookup_app_r by lia.
    replace (length (List.filter p (take k1 l)) + S j
             - length (List.filter p (take k1 l)))%nat with (S j) by lia.
    exact Hj.
Qed.

Lemma StronglySorted_map_filter {A B} (R : B -> B -> Prop) (f : A -> B) (p : A -> bool)
    (l : list A) :
  StronglySorted R (map f l) -> StronglySorted R (map f (List.filter p l)).
Proof.
  induction l as [|x l IH]; cbn [map List.filter]; [constructor|].
  intros Hs. apply StronglySorted_inv in Hs as [Hs Hx].
  destruct (p x); [|apply IH; exact Hs]. cbn [map]. constructor; [apply IH; exact Hs|].
  rewrite Forall_forall in *. intros y Hy.
  apply list_elem_of_fmap in Hy as (z & -> & Hz).
  apply Hx. apply list_elem_of_fmap. exists z. split; [reflexivity|].
  apply list_elem_of_In in Hz. apply filter_In in Hz as [Hz _].
  apply list_elem_of_In. exact Hz.
Qed.

(** X20. Ties are broken by arrival. Of two groups with the same number of
    frames, the one whose first frame arrived earlier is ranked first, and so
    gets the earlier identifier. *)
Theorem equal_counts_ranked_by_arrival frames w u k1 k2 g1 g2 :
  let s := analyzeWebSocketFramesV2 frames w u in
  (k1 < k2)%nat ->
  groups s !! k1 = Some g1 -> groups s !! k2 = Some g2 ->
  count g1 = count g2 ->
  exists i1 i2,
    head (sampleIndices g1) = Some i1 /\ head (sampleIndices g2) = Some i2
    /\ (i1 < i2)%nat.
Proof.
  intros s Hlt H1 H2 Hcount. subst s.
  destruct (TrafficSpec.analyze_tables frames w u) as (Hgroups & _ & _).
  rewrite Hgroups in H1, H2.
  destruct (TrafficSpec.groupsFrom_lookup _ 0 k1 g1 H1) as (e1 & He1 & ->).
  destruct (TrafficSpec.groupsFrom_lookup _ 0 k2 g2 H2) as (e2 & He2 & ->).
  cbn [toMessageGroup count sampleIndices] in *.
  destruct (filter_lookup_order (hasCount (length (indices (snd e1)))) _ k1 k2 e1 e2
              Hlt He1 He2) as (j1 & j2 & Hj & Hj1 & Hj2).
  { apply Nat.eqb_refl. }
  { unfold hasCount. rewrite Hcount. apply Nat.eqb_refl. }
  rewrite filter_sort in Hj1, Hj2.
  destruct (groupFrames_arrival frames 0 []) as [Hsorted _].
  { split; constructor. }
  apply (StronglySorted_map_filter _ firstIndex
           (hasCount (length (indices (snd e1))))) in Hsorted.
  destruct (TrafficSpec.StronglySorted_lookup _ _ Hsorted j1 j2
              (firstIndex e1) (firstIndex e2) Hj) as (i1 & i2 & Hi1 & Hi2 & Hi).
  - rewrite list_lookup_fmap, Hj1. reflexivity.
  - rewrite list_lookup_fmap, Hj2. reflexivity.
  - exists i1, i2. unfold firstIndex in Hi1, Hi2.
    split; [|split; [|exact Hi]].
    + destruct (indices (snd e1)); [discriminate|]. exact Hi1.
    + destruct (indices (snd e2)); [discriminate|]. exact Hi2.
Qed.

(** X20 on a concrete input. *)
Lemma equal_counts_ranked_by_arrival_witness :
  exists i1 i2,
    head [0; 2]%nat = Some i1 /\ head [1; 3]%nat = Some i2 /\ (i1 < i2)%nat.
Proof.
  apply (equal_counts_ranked_by_arrival mixedFrames 1 "wss://example.test/socket"
           0%nat 1%nat
           (toMessageGroup 0
              {| gDirection := sent; gHead4B := "7b613a31"; gSizeCategory := tiny;
                 indices := [0; 2]%nat; gMinSize := 5; gMaxSize := 10 |})
           (toMessageGroup 1
              {| gDirection := received; gHead4B := "1f8b0800"; gSizeCategory := tiny;
                 indices := [1; 3]%nat; gMinSize := 12; gMaxSize := 12 |})).
  - lia.
  - vm_compute. reflexivity.
  - vm_compute. reflexivity.
  - reflexivity.
Defined.

(** ** Heads and hints *)

Lemma hexOf_cons (c : N) (rest : list N) :
  hexOf (c :: rest) = padStart 2 (toString16 c) +:+ hexOf rest.
Proof. reflexivity. Qed.

Lemma prefix_empty (s : string) : String.prefix "" s = true.
Proof. destruct s; reflexivity. Qed.

Lemma hint_1f8b (rest : string) :
  guessHintFromHead (String "1" (String "f" (String "8" (String "b" rest))))
  = "Gzip"%string.
Proof.
  unfold guessHintFromHead, startsWith. rewrite decide_False by discriminate.
  cbn [String.prefix]. cbn. rewrite prefix_empty. reflexivity.
Qed.

Lemma hint_brace (c : ascii) (rest : string) :
  c = "7"%char \/ c = "5"%char ->
  guessHintFromHead (String c (String "b" rest)) = "JSON"%string.
Proof.
  intros Hc. unfold guessHintFromHead, startsWith.
  rewrite decide_False by discriminate.
  destruct Hc as [-> | ->]; cbn; rewrite !prefix_empty; reflexivity.
Qed.

(** X21. What the hint says about a payload. A binary frame whose payload
    decodes to bytes starting with 1f 8b is hinted "Gzip"; a text frame whose
    payload starts with an opening brace or bracket is hinted "JSON"; a binary
    frame whose payload is not base64 has an empty head and the hint "-"; and
    the hint is always one of the eight labels. *)
Theorem hint_of_payload :
  (forall payload bytes,
      atob payload = Some (31%N :: 139%N :: bytes) ->
      guessHintFromHead (getHead4B payload 2) = "Gzip"%string)
  /\ (forall rest opcode,
        opcode ≠ 2 ->
        guessHintFromHead (getHead4B (123%N :: rest) opcode) = "JSON"%string
        /\ guessHintFromHead (getHead4B (91%N :: rest) opcode) = "JSON"%string)
  /\ (forall payload,
        atob payload = None ->
        getHead4B payload 2 = ""%string
        /\ guessHintFromHead (getHead4B payload 2) = "-"%string)
  /\ (forall head,
        guessHintFromHead head
        ∈ ["-"; "Gzip"; "Protobuf"; "JSON"; "MsgPack"; "Zstd"; "ping"; "pong"]%string).
Proof.
  split; [|split; [|split]].
  - intros payload bytes Hatob. unfold getHead4B, base64ToHex.
    rewrite decide_True by reflexivity. rewrite Hatob.
    change (take 4 (31%N :: 139%N :: bytes)) with (31%N :: 139%N :: take 2 bytes).
    rewrite !hexOf_cons.
    change (padStart 2 (toString16 31) +:+
            (padStart 2 (toString16 139) +:+ hexOf (take 2 bytes)))
      with (String "1" (String "f" (String "8" (String "b" (hexOf (take 2 bytes)))))).
    apply hint_1f8b.
  - intros rest opcode Hop. unfold getHead4B.
    rewrite !decide_False by exact Hop.
    change (looksBase64 (123%N :: rest)) with false.
    change (looksBase64 (91%N :: rest)) with false.
    cbn [length]. change (Nat.min (S (length rest)) 4) with (S (Nat.min (length rest) 3)).
    cbn [take]. rewrite !hexOf_cons. split.
    + change (padStart 2 (toString16 123) +:+ ?x) with (String "7" (String "b" x)).
      apply hint_brace. left. reflexivity.
    + change (padStart 2 (toString16 91) +:+ ?x) with (String "5" (String "b" x)).
      apply hint_brace. right. reflexivity.
  - intros payload Hatob. unfold getHead4B, base64ToHex.
    rewrite decide_True by reflexivity. rewrite Hatob. split; reflexivity.
  - intros head. unfold guessHintFromHead.
    repeat match goal with
           | |- context [if ?b then _ else _] => destruct b
           end;
      apply list_elem_of_In; cbn; tauto.
Qed.

(** X21 on a concrete input. *)
Lemma hint_of_payload_witness :
  guessHintFromHead (getHead4B (js "H4sIAAAAAAAA") 2) = "Gzip"%string.
Proof.
  destruct hint_of_payload as [Hgzip _].
  apply (Hgzip (js "H4sIAAAAAAAA") [8; 0; 0; 0; 0; 0; 0]%N).
  vm_compute. reflexivity.
Defined.

Lemma length_append (s t : string) :
  String.length (s +:+ t) = (String.length s + String.length t)%nat.
Proof. induction s as [|c s IH]; cbn; [reflexivity|]. rewrite <- IH. reflexivity. Qed.

Lemma base64Value_range (c : N) : (base64Value c < 64)%N.
Proof.
  unfold base64Value.
  repeat match goal with
         | |- context [if ?b then _ else _] => destruct b eqn:?
         end; try lia.
  - apply andb_prop in Heqb as [_ H]. apply N.leb_le in H. lia.
  - apply andb_prop in Heqb0 as [_ H]. apply N.leb_le in H. lia.
  - apply andb_prop in Heqb1 as [_ H]. apply N.leb_le in H. lia.
Qed.

Lemma decodeSextets_bytes (n : nat) : forall l,
  (length l <= n)%nat ->
  Forall (fun v => (v < 64)%N) l ->
  Forall (fun b => (b < 256)%N) (decodeSextets l).
Proof.
  induction n as [|n IH]; intros l Hlen Hl.
  - destruct l; [constructor|cbn in Hlen; lia].
  - destruct l as [|a [|b [|c [|d rest]]]]; cbn [decodeSextets]; try constructor.
    + apply Forall_cons in Hl as [Ha Hl]. apply Forall_cons in Hl as [Hb _].
      apply N.Div0.div_lt_upper_bound. lia.
    + constructor.
    + apply Forall_cons in Hl as [Ha Hl]. apply Forall_cons in Hl as [Hb Hl].
      apply Forall_cons in Hl as [Hc _].
      apply N.Div0.div_lt_upper_bound. apply N.Div0.div_lt_upper_bound. lia.
    + constructor; [apply N.mod_lt; lia|constructor].
    + apply Forall_cons in Hl as [Ha Hl]. apply Forall_cons in Hl as [Hb Hl].
      apply Forall_cons in Hl as [Hc Hl]. apply Forall_cons in Hl as [Hd _].
      apply N.Div0.div_lt_upper_bound. lia.
    + apply Forall_cons in Hl as [_ Hl]. apply Forall_cons in Hl as [_ Hl].
      apply Forall_cons in Hl as [_ Hl]. apply Forall_cons in Hl as [_ Hl].
      constructor; [apply N.mod_lt; lia|].
      constructor; [apply N.mod_lt; lia|].
      apply IH; [cbn [length] in Hlen; lia|exact Hl].
Qed.

Lemma atob_bytes (data bytes : JsString) :
  atob data = Some bytes -> Forall (fun b => (b < 256)%N) bytes.
Proof.
  unfold atob. destruct (decide _); [discriminate|].
  destruct (forallb _ _); [|discriminate]. intros [= <-].
  eapply decodeSextets_bytes; [reflexivity|].
  apply Forall_fmap, Forall_true. intros c. apply base64Value_range.
Qed.

Lemma byte_two_digits (b : N) :
  (b < 256)%N -> String.length (padStart 2 (toString16 b)) = 2%nat.
Proof.
  intros Hb.
  assert (forallb (fun k => (String.length (padStart 2 (toString16 (N.of_nat k))) =? 2)%nat)
            (seq 0 256) = true) as Hall by (vm_compute; reflexivity).
  rewrite forallb_forall in Hall. specialize (Hall (N.to_nat b)).
  rewrite N2Nat.id in Hall. apply Nat.eqb_eq, Hall, in_seq. lia.
Qed.

Lemma length_hexOf (bytes : list N) :
  Forall (fun b => (b < 256)%N) bytes ->
  String.length (hexOf bytes) = (2 * length bytes)%nat.
Proof.
  induction 1 as [|b bytes Hb _ IH]; [reflexivity|].
  rewrite hexOf_cons, length_append, (byte_two_digits b Hb), IH. cbn [length]. lia.
Qed.

(** X22. The head of a binary frame is two hex digits for each of its first
    four bytes. When the payload of a binary frame is valid base64, every
    decoded value is a byte and the head has exactly two characters per
    decoded byte, at most eight; when it is not, the head is empty. *)
Theorem binary_head_length payload :
  match atob payload with
  | Some bytes =>
      Forall (fun b => (b < 256)%N) bytes
      /\ getHead4B payload 2 = hexOf (take 4 bytes)
      /\ String.length (getHead4B payload 2) = (2 * Nat.min 4 (length bytes))%nat
  | None => getHead4B payload 2 = ""%string
  end.
Proof.
  unfold getHead4B, base64ToHex. rewrite decide_True by reflexivity.
  destruct (atob payload) as [bytes|] eqn:Hatob; [|reflexivity].
  pose proof (atob_bytes payload bytes Hatob) as Hbytes.
  split; [exact Hbytes|]. split; [reflexivity|].
  rewrite length_hexOf by (apply Forall_take; exact Hbytes).
  rewrite length_take. reflexivity.
Qed.

End TrafficFacts.

(* ===================================================================== *)
(** * Stable identifiers across the collectors *)
(* ===================================================================== *)

Module StableIdSpec.

Import IdGenerator WebSocketCollector WebSocketCollectorMore.

(** C4. Stable ID stability and uniqueness, for the generic collector and its
    Network specialization ([k]) and for the WebSocket collector.
    Stability: whatever events follow, navigation rotations among them,
    [getIdForResource x] keeps its value (in the generic collector, as long as
    the object [x] is not handed to the collector again; a connection record
    of the WebSocket collector is never re-tagged).
    Uniqueness: without wraparound (fewer than [MAX_SAFE_INTEGER] items
    produced on the page, and in the generic collector the objects of the
    page produced on no other page), two distinct items retained for one page
    carry distinct identifiers, both positive; and from the moment a page is
    tracked until it is destroyed, any two distinct items produced on the
    page carry distinct, positive identifiers, whether they are still
    retained or were dropped by a navigation rotation (the generator is
    created when the page is tracked). *)
Theorem stable_id_stable_and_unique :
  (forall k b c evs x,
      (forall p, PageCollector.Collected p x ∉ evs) ->
      PageCollector.getIdForResource (PageCollector.run k b c evs) x
      = PageCollector.getIdForResource c x)
  /\ (forall k b page evs navigations x y,
        (forall q z,
            PageCollector.Collected q z ∈ evs ->
            PageCollector.Collected page z ∈ evs -> q = page) ->
        Z.of_nat (PageCollector.collectedCount page evs) < MAX_SAFE_INTEGER ->
        PageCollector.storage (PageCollector.run k b PageCollector.empty evs) !! page
        = Some navigations ->
        x ∈ concat navigations -> y ∈ concat navigations -> x ≠ y ->
        1 <= PageCollector.getIdForResource
               (PageCollector.run k b PageCollector.empty evs) x
        /\ PageCollector.getIdForResource
             (PageCollector.run k b PageCollector.empty evs) x
           ≠ PageCollector.getIdForResource
               (PageCollector.run k b PageCollector.empty evs) y)
  /\ (forall evs evs' r,
        is_Some (objects (run empty evs) !! r) ->
        getIdForResource (run (run empty evs) evs') r
        = getIdForResource (run empty evs) r)
  /\ (forall page evs navigations r r',
        Z.of_nat (createdCount page evs) < MAX_SAFE_INTEGER ->
        storage (run empty evs) !! page = Some navigations ->
        r ∈ concat navigations -> r' ∈ concat navigations -> r ≠ r' ->
        1 <= getIdForResource (run empty evs) r
        /\ getIdForResource (run empty evs) r ≠ getIdForResource (run empty evs) r')
  /\ (forall k b pre evs page x y,
        PageCollector.storage (PageCollector.run k b PageCollector.empty pre) !! page
        = None ->
        PageCollector.TargetDestroyed page ∉ evs ->
        (forall q z,
            PageCollector.Collected q z ∈ evs ->
            PageCollector.Collected page z ∈ evs -> q = page) ->
        Z.of_nat (PageCollector.collectedCount page evs) < MAX_SAFE_INTEGER ->
        PageCollector.Collected page x ∈ evs ->
        PageCollector.Collected page y ∈ evs ->
        x ≠ y ->
        let c := PageCollector.run k b PageCollector.empty
                   (pre ++ PageCollector.TargetCreated page :: evs) in
        1 <= PageCollector.getIdForResource c x
        /\ PageCollector.getIdForResource c x ≠ PageCollector.getIdForResource c y)
  /\ (forall pre evs page n n' r r',
        storage (run empty pre) !! page = None ->
        TargetDestroyed page ∉ evs ->
        Z.of_nat (createdCount page evs) < MAX_SAFE_INTEGER ->
        let tracked := run empty (pre ++ [TargetCreated page]) in
        createdRefs page tracked evs !! n = Some r ->
        createdRefs page tracked evs !! n' = Some r' ->
        r ≠ r' ->
        1 <= getIdForResource (run tracked evs) r
        /\ getIdForResource (run tracked evs) r
           ≠ getIdForResource (run tracked evs) r').
Proof.
  split; [|split; [|split; [|split; [|split]]]].
  - intros k b c evs x. apply PageCollectorSpec.collector_ids_stable.
  - intros k b page evs navigations x y.
    apply PageCollectorSpec.collector_ids_unique.
  - intros evs evs' r Hr.
    pose proof (WebSocketCollectorSpec.run_objectsAllocated evs empty
                  WebSocketCollectorSpec.objectsAllocated_empty) as Halloc.
    destruct (WebSocketCollectorSpec.run_stableIdOf evs' (run empty evs) r Halloc
                (Halloc r Hr)) as [_ Hid].
    unfold getIdForResource. fold (stableIdOf (run (run empty evs) evs') r).
    fold (stableIdOf (run empty evs) r). rewrite Hid. reflexivity.
  - intros page evs navigations r r' Hbound Hst Hr Hr' Hne.
    destruct (WebSocketCollectorSpec.run_connections_idsFresh page evs 0 empty
                ltac:(lia) WebSocketCollectorSpec.objectsAllocated_empty
                (WebSocketCollectorSpec.connections_idsFresh_empty page) ltac:(lia)
                navigations Hst)
      as (l & Hl & Hrange & Hids & Hinj).
    unfold getIdForResource. fold (stableIdOf (run empty evs) r).
    fold (stableIdOf (run empty evs) r').
    destruct (Hids r Hr) as (id & Hid & Hrid).
    destruct (Hids r' Hr') as (id' & Hid' & Hrid').
    rewrite Hid, Hid'. cbn. split; [lia|].
    intros Heq. apply Hne, Hinj; [assumption..|]. congruence.
  - intros k b pre evs page x y Hst Hdestroyed Howned Hbound Hx Hy Hne c.
    destruct (PageCollectorFacts.lifetime_ids_distinct k b pre evs page
                Hst Hdestroyed Howned Hbound) as (i & _ & _ & Hids & Hinj).
    fold c in Hids, Hinj. unfold PageCollector.getIdForResource.
    destruct (Hids x Hx) as (idx & Hidx & Hrx).
    destruct (Hids y Hy) as (idy & Hidy & Hry).
    rewrite Hidx, Hidy. cbn. split; [lia|].
    intros Heq. apply Hne, Hinj; [assumption..|]. congruence.
  - intros pre evs page n n' r r' Hst Hdestroyed Hbound tracked Hr Hr' Hne.
    subst tracked.
    rewrite (WebSocketCollectorFacts.lifetime_connection_ids pre evs page n r
               Hst Hdestroyed Hbound Hr).
    rewrite (WebSocketCollectorFacts.lifetime_connection_ids pre evs page n' r'
               Hst Hdestroyed Hbound Hr').
    split; [lia|]. intros Heq. apply Hne.
    assert (n = n') as -> by lia. congruence.
Qed.

(** C4 at page 0: requests 1..5 and two rotations in the Network collector;
    five connections and four rotations in the WebSocket collector; and, in
    the generic and the WebSocket collector after four rotations, the first
    two items, which are no longer retained. *)
Lemma stable_id_stable_and_unique_witness :
  (PageCollector.getIdForResource
     (PageCollector.run PageCollector.Network PageCollector.sampleBrowser
        (PageCollector.run PageCollector.Network PageCollector.sampleBrowser
           PageCollector.empty PageCollector.fiveRequests)
        [PageCollector.FrameNavigated 0%nat true;
         PageCollector.FrameNavigated 0%nat true]) 3%nat
   = PageCollector.getIdForResource
       (PageCollector.run PageCollector.Network PageCollector.sampleBrowser
          PageCollector.empty PageCollector.fiveRequests) 3%nat)
  /\ (PageCollector.getIdForResource
        (PageCollector.run PageCollector.Network PageCollector.sampleBrowser
           PageCollector.empty PageCollector.fiveRequests) 2%nat
      ≠ PageCollector.getIdForResource
          (PageCollector.run PageCollector.Network PageCollector.sampleBrowser
             PageCollector.empty PageCollector.fiveRequests) 3%nat)
  /\ (getIdForResource
        (run (run empty fourNavigations) [FrameNavigated 0%nat true]) 4%nat
      = getIdForResource (run empty fourNavigations) 4%nat)
  /\ (getIdForResource (run empty fourNavigations) 2%nat
      ≠ getIdForResource (run empty fourNavigations) 4%nat)
  /\ (PageCollector.getIdForResource
        (PageCollector.run PageCollector.Generic PageCollector.noNavigationBrowser
           PageCollector.empty
           ([] ++ PageCollector.TargetCreated 0%nat
               :: List.tl PageCollector.fourNavigations)) 1%nat
      ≠ PageCollector.getIdForResource
          (PageCollector.run PageCollector.Generic PageCollector.noNavigationBrowser
             PageCollector.empty
             ([] ++ PageCollector.TargetCreated 0%nat
                 :: List.tl PageCollector.fourNavigations)) 2%nat)
  /\ (getIdForResource
        (run (run empty ([] ++ [TargetCreated 0%nat])) (List.tl fourNavigations)) 0%nat
      ≠ getIdForResource
          (run (run empty ([] ++ [TargetCreated 0%nat])) (List.tl fourNavigations)) 1%nat).
Proof.
  destruct stable_id_stable_and_unique
    as (Hstable & Hunique & Hws & Hwsu & Hlife & Hwslife).
  split; [|split; [|split; [|split; [|split]]]].
  - apply Hstable. intros p Hin. apply list_elem_of_In in Hin.
    destruct Hin as [H|[H|[]]]; discriminate H.
  - apply (Hunique PageCollector.Network PageCollector.sampleBrowser 0%nat
             PageCollector.fiveRequests [[1; 2; 3; 4; 5]]%nat 2%nat 3%nat).
    + intros q z Hin _. apply list_elem_of_In in Hin.
      repeat (destruct Hin as [Hin|Hin]; [congruence|]). destruct Hin.
    + vm_compute. reflexivity.
    + vm_compute. reflexivity.
    + apply list_elem_of_In. cbn. tauto.
    + apply list_elem_of_In. cbn. tauto.
    + discriminate.
  - apply Hws. eexists. vm_compute. reflexivity.
  - apply (Hwsu 0%nat fourNavigations [[4]; [3]; [2]]%nat 2%nat 4%nat).
    + vm_compute. reflexivity.
    + vm_compute. reflexivity.
    + apply list_elem_of_In. cbn. tauto.
    + apply list_elem_of_In. cbn. tauto.
    + discriminate.
  - apply (Hlife PageCollector.Generic PageCollector.noNavigationBrowser []
             (List.tl PageCollector.fourNavigations) 0%nat 1%nat 2%nat).
    + reflexivity.
    + intros Hin. apply list_elem_of_In in Hin. cbn in Hin.
      repeat (destruct Hin as [Hin|Hin]; [discriminate|]). destruct Hin.
    + intros q z Hin _. apply list_elem_of_In in Hin. cbn in Hin.
      repeat (destruct Hin as [Hin|Hin]; [congruence|]). destruct Hin.
    + vm_compute. reflexivity.
    + apply list_elem_of_In. cbn. tauto.
    + apply list_elem_of_In. cbn. tauto.
    + discriminate.
  - apply (Hwslife [] (List.tl fourNavigations) 0%nat 0%nat 1%nat 0%nat 1%nat).
    + reflexivity.
    + intros Hin. apply list_elem_of_In in Hin. cbn in Hin.
      repeat (destruct Hin as [Hin|Hin]; [discriminate|]). destruct Hin.
    + vm_compute. reflexivity.
    + vm_compute. reflexivity.
    + vm_compute. reflexivity.
    + discriminate.
Defined.

End StableIdSpec.

(* ===================================================================== *)
(** * Events for connections the page's lookup table does not hold *)
(* ===================================================================== *)

Module WebSocketEventSpec.

Import WebSocketCollector WebSocketCollectorMore.

(** A frame event never adds a record or touches the epochs and the tables:
    at most it changes the record the handler reaches. *)
Lemma frame_event_creates_nothing c page id t op data :
  let c' := step c (WebSocketFrameSent page id t op data) in
  storage c' = storage c
  /\ connectionMap c' = connectionMap c
  /\ maps c' = maps c
  /\ cdpListeners c' = cdpListeners c
  /\ nextRef c' = nextRef c
  /\ forall r, is_Some (objects c' !! r) <-> is_Some (objects c !! r).
Proof.
  cbn [step]. unfold deliver.
  destruct (cdpListeners c !! page) as [l|]; [|repeat split; tauto].
  unfold onFrameSent, onFrame.
  destruct (lookupConnection c l id) as [r0|]; [|repeat split; tauto].
  repeat split; try reflexivity;
    apply WebSocketCollectorSpec.objects_mutate_is_Some.
Qed.

(** C9, evaluated on the code. The page's connection lookup table is the
    [Map] registered for the page in [#connectionMap], which the rotation
    replaces by an empty one. A frame-sent event never raises and never
    creates a connection (no epoch, table or allocation changes, and the
    same records exist afterwards), and for a connection ID that no [created]
    event announced on the page the frame, frame-received and closed events
    leave the whole collector as it was. But an unknown ID is not ignored in
    general: after [created ws-1] and a main-frame navigation the page's
    lookup table is empty, ["ws-1"] is unknown to it, and a frame-sent event
    for ["ws-1"] is appended to the record of the connection created before
    the navigation, whose frame count goes from 0 to 1: the handlers read the
    table they captured, not the page's current one. *)
Theorem unregistered_connection_frame_recorded :
  (forall c page id t op data,
      let c' := step c (WebSocketFrameSent page id t op data) in
      storage c' = storage c
      /\ connectionMap c' = connectionMap c
      /\ maps c' = maps c
      /\ cdpListeners c' = cdpListeners c
      /\ nextRef c' = nextRef c
      /\ forall r, is_Some (objects c' !! r) <-> is_Some (objects c !! r))
  /\ (forall evs page id t op data,
        (forall u ini now, WebSocketCreated page id u ini now ∉ evs) ->
        step (run empty evs) (WebSocketFrameSent page id t op data) = run empty evs
        /\ step (run empty evs) (WebSocketFrameReceived page id t op data) = run empty evs
        /\ step (run empty evs) (WebSocketClosed page id t) = run empty evs)
  /\ (let c := run empty createdThenNavigated in
      let c' := step c (WebSocketFrameSent 0%nat "ws-1" 5%float 1 (js "hello")) in
      storage c !! 0%nat = Some [[]; [0%nat]]
      /\ registeredTable c 0%nat = Some ∅
      /\ is_Some (objects c !! 0%nat)
      /\ length (framesOf c 0%nat) = 0%nat
      /\ length (framesOf c' 0%nat) = 1%nat
      /\ framesOf c' 0%nat = [recordedFrame sent "ws-1" 5%float 1 (js "hello")]).
Proof.
  split; [|split].
  - intros c page id t op data. apply frame_event_creates_nothing.
  - intros evs page id t op data Hnever.
    apply WebSocketCollectorSpec.unknown_connection_dropped.
    apply WebSocketCollectorSpec.never_announced_unknown. exact Hnever.
  - cbv zeta. split; [vm_compute; reflexivity|]. split; [vm_compute; reflexivity|].
    split; [eexists; vm_compute; reflexivity|].
    repeat split; vm_compute; reflexivity.
Qed.

(** C9 at a page with the connection ["a"], for events that name ["b"]. *)
Lemma unregistered_connection_frame_recorded_witness :
  let c := run empty [TargetCreated 0%nat;
                      WebSocketCreated 0%nat "a" "wss://example.test/a" None 1] in
  step c (WebSocketFrameSent 0%nat "b" 5%float 1 (js "hello")) = c
  /\ step c (WebSocketClosed 0%nat "b" 6%float) = c
  /\ length (framesOf c 0%nat) = 0%nat.
Proof.
  destruct unregistered_connection_frame_recorded as (_ & Htrace & _).
  assert (Hnever : forall u ini now,
             WebSocketCreated 0%nat "b" u ini now
             ∉ [TargetCreated 0%nat;
                WebSocketCreated 0%nat "a" "wss://example.test/a" None 1]).
  { intros u ini now Hin. apply list_elem_of_In in Hin.
    destruct Hin as [H|[H|[]]]; discriminate H. }
  cbv zeta. split; [|split].
  - apply (Htrace _ 0%nat "b"%string 5%float 1 (js "hello") Hnever).
  - apply (Htrace _ 0%nat "b"%string 6%float 1 (js "hello") Hnever).
  - reflexivity.
Defined.

End WebSocketEventSpec.
